(** * dcmrmel: removal of data elements from DICOM datasets

    A shallow embedding of [src/dcmrmel/dcmrmel.py] together with the parts
    of its collaborators (pydicom's [Dataset], [Dataset.walk], [Tag];
    argparse; pathlib; the file system) that the program drives.

    Layout of the development:
    - [Outcome]: Python exceptions and the small error monad used throughout;
    - [Pydicom]: tags, data elements, datasets and the walk over them;
    - [PyInt]: [int(s, 16)] and [pydicom.tag.Tag] on strings;
    - [Dcmrmel]: the three removal functions of the program;
    - [Pruning]: a removal pass described by recursive descent;
    - [FileSystem]: paths, the directory tree, [os.walk];
    - [Cli]: programs over the file system and the output streams,
      pydicom's reader and writer, [progress] and [make_dcm_fp_list];
    - [Main]: the argument parser, the loop body and [main];
    - the vocabulary of the statements and the example data;
    - the properties: a walk with a deleting callback computes the pruning,
      then the passes, the loop, discovery and the command line. *)

From stdpp Require Import gmap strings list fin_maps sorting pretty.
From Stdlib Require Import NArith ZArith Ascii String.

Set Warnings "-register-all".
Open Scope string_scope.
Open Scope list_scope.
Open Scope nat_scope.

(** ** Exceptions and results *)

Module Outcome.

(** The Python exceptions that the modelled code can raise.
    [EncodingError] stands for the exception, of whatever class, that
    pydicom's encoder raises on a dataset it cannot encode. *)
Inductive exn :=
| KeyError
| ValueError
| OverflowError
| InvalidDicomError
| FileNotFoundError
| IsADirectoryError
| EncodingError
| SystemExit (code : Z).

(** Result of a computation that may raise.  [OutOfFuel] is not a Python
    outcome: it is what a fuel-bounded recursion returns when the bound was
    too small, and is shown below never to happen for the program's own
    callbacks. *)
Inductive res (A : Type) :=
| Ok (a : A)
| Raise (e : exn)
| OutOfFuel.
Arguments Ok {A} a.
Arguments Raise {A} e.
Arguments OutOfFuel {A}.

#[export] Instance res_bind : MBind res := λ A B k m,
  match m with
  | Ok a => k a
  | Raise e => Raise e
  | OutOfFuel => OutOfFuel
  end.

#[export] Instance res_ret : MRet res := λ A a, Ok a.

(** A [for] loop over a list whose body may raise: the loop state is
    threaded through, the first exception leaves the loop. *)
Fixpoint for_each {A S} (l : list A) (s : S) (body : A → S → res S) : res S :=
  match l with
  | [] => Ok s
  | x :: rest => s' ← body x s; for_each rest s' body
  end.

End Outcome.
Export Outcome.

(** ** The pydicom object model *)

Module Pydicom.

(** A tag is the 32-bit number [group << 16 | element] ([pydicom.tag.BaseTag],
    a subclass of [int]). *)
Abbreviation BaseTag := N.

(** [BaseTag.group]: [self >> 16]. *)
Definition group (t : BaseTag) : N := N.shiftr t 16.

(** [BaseTag.is_private]: the group number is odd. *)
Definition is_private (t : BaseTag) : bool := N.eqb (group t mod 2) 1.

(** What a dataset stores under a tag.  An element of VR "SQ" holds a
    sequence of datasets (pydicom converts every SQ value to a [Sequence]);
    any other element holds its VR code and its value.  These are the VR
    and the value of the element as [self[tag]] returns it.  For an
    element of a file in implicit VR pydicom works them out when the
    element is first fetched, in a few cases from other elements of the
    dataset as it is then; the model does not follow that, and takes the
    VR and the value as fixed when the dataset is read. *)
Inductive ElemBody :=
| Leaf (vr : string) (value : string)
| Seq (items : list (gmap N ElemBody)).

(** [Dataset._dict]: a dictionary from tag to element.  Python compares
    datasets by dictionary equality, which [gmap]'s equality is. *)
Abbreviation Dataset := (gmap N ElemBody).

(** [DataElement]: the object handed to a walk callback. *)
Record DataElement := mkElem { tag : BaseTag; body : ElemBody }.

Definition VR (e : DataElement) : string :=
  match body e with
  | Leaf vr _ => vr
  | Seq _ => "SQ"
  end.

(** A dataset read from a file: the main dataset and its [file_meta]. *)
Record FileDataset := mkFile { dataset : Dataset; file_meta : Dataset }.

(** [self._dict.keys()] *)
Definition keys (self : Dataset) : list BaseTag := (map_to_list self).*1.

(** [sorted(...)] on tags. *)
Definition sorted (l : list BaseTag) : list BaseTag := merge_sort N.le l.

(** [self[tag]]: raises [KeyError] when the tag is absent. *)
Definition getitem (self : Dataset) (t : BaseTag) : res DataElement :=
  match self !! t with
  | Some b => Ok (mkElem t b)
  | None => Raise KeyError
  end.

(** [tag in self] *)
Definition contains (self : Dataset) (t : BaseTag) : bool :=
  bool_decide (is_Some (self !! t)).

(** [del self[tag]]: [del self._dict[key]], a [KeyError] when absent. *)
Definition delitem (self : Dataset) (t : BaseTag) : res Dataset :=
  match self !! t with
  | Some _ => Ok (delete t self)
  | None => Raise KeyError
  end.

(** Where a dataset sits below the walked root: the sequence elements and
    item numbers that lead to it.  Python tells two equal elements at
    different places apart by object identity; the position plays that role
    in the record of callback invocations. *)
Abbreviation Position := (list (BaseTag * nat)).

Record Visit := Visited { place : Position; element : DataElement }.

(** The loop [for dataset in sequence: dataset.walk(callback)].  The item
    datasets are mutated in place, so the sequence afterwards holds the
    walked items. *)
Fixpoint walk_items (w : Position → Dataset → res (Dataset * list Visit))
    (here : Position) (t : BaseTag) (i : nat) (sequence : list Dataset)
    : res (list Dataset * list Visit) :=
  match sequence with
  | [] => Ok ([], [])
  | d :: rest =>
      '(d', log1) ← w (here ++ [(t, i)]) d;
      '(rest', log2) ← walk_items w here t (S i) rest;
      Ok (d' :: rest', log1 ++ log2)
  end.

(** [Dataset.walk(callback)] (with [recursive=True]):
<<
    taglist = sorted(self._dict.keys())
    for tag in taglist:
        data_element = self[tag]
        callback(self, data_element)
        # 'tag in self' below needed in case callback deleted data_element
        if recursive and tag in self and data_element.VR == "SQ":
            sequence = data_element.value
            for dataset in sequence:
                dataset.walk(callback)
>>
    The callback mutates the dataset it is given, so here it returns the
    new state.  The element fetched before the callback is the object still
    stored under [tag] when the tag survives the callback (true of every
    callback that only deletes), hence walking its items updates that
    entry.  The result carries the list of callback invocations.

    [walk_body] is one turn of the [for tag in taglist] loop; [w] is the
    walk used for the items. *)
Definition walk_body (w : Position → Dataset → res (Dataset * list Visit))
    (callback : Dataset → DataElement → res Dataset) (here : Position)
    (tag : BaseTag) (state : Dataset * list Visit) : res (Dataset * list Visit) :=
  let '(self, log) := state in
  data_element ← getitem self tag;
  self ← callback self data_element;
  let log := log ++ [Visited here data_element] in
  if contains self tag && String.eqb (VR data_element) "SQ" then
    match body data_element with
    | Seq sequence =>
        '(sequence', log') ← walk_items w here tag 0 sequence;
        Ok (<[tag := Seq sequence']> self, log ++ log')
    | Leaf _ _ => Ok (self, log)
    end
  else Ok (self, log).

(** The walk itself.  Recursion into items is bounded by [fuel]. *)
Fixpoint walk_fuel (fuel : nat) (callback : Dataset → DataElement → res Dataset)
    (here : Position) (self : Dataset) : res (Dataset * list Visit) :=
  match fuel with
  | O => OutOfFuel
  | S fuel' =>
      let taglist := sorted (keys self) in
      for_each taglist (self, []) (walk_body (walk_fuel fuel' callback) callback here)
  end.

(** Nesting depth of a dataset: 1 + the deepest sequence item below it. *)
Fixpoint body_depth (b : ElemBody) : nat :=
  match b with
  | Leaf _ _ => 0
  | Seq items =>
      foldr (λ d acc,
               S (map_fold (λ _ b' acc', body_depth b' `max` acc') 0 d) `max` acc)
            0 items
  end.

Definition depth (ds : Dataset) : nat :=
  S (map_fold (λ _ b acc, body_depth b `max` acc) 0 ds).

(** [ds.walk(callback)] as the program calls it; the fuel covers the
    nesting of the dataset at the time of the call. *)
Definition walk (callback : Dataset → DataElement → res Dataset) (ds : Dataset)
    : res (Dataset * list Visit) :=
  walk_fuel (depth ds) callback [] ds.

(** [Dataset.remove_private_tags()]:
<<
    def remove_callback(dataset, elem):
        if elem.tag.is_private:
            del dataset[elem.tag]
    self.walk(remove_callback)
>> *)
Definition remove_callback (dataset : Dataset) (elem : DataElement) : res Dataset :=
  if is_private (tag elem) then delitem dataset (tag elem) else Ok dataset.

Definition remove_private_tags (self : Dataset) : res (Dataset * list Visit) :=
  walk remove_callback self.

End Pydicom.
Export Pydicom.

(** ** Python's [int(s, 16)] and pydicom's [Tag(str)] *)

Module PyInt.

(** [Py_ISSPACE], which [int] applies to the characters of an ASCII [str]:
    tab, line feed, vertical tab, form feed, carriage return and space. *)
Definition isspace (c : ascii) : bool :=
  let n := N_of_ascii c in
  ((9 <=? n) && (n <=? 13) || (n =? 32))%N.

Definition hex_value (c : ascii) : option Z :=
  let n := Z.of_N (N_of_ascii c) in
  if ((48 <=? n) && (n <=? 57))%Z then Some (n - 48)%Z
  else if ((97 <=? n) && (n <=? 102))%Z then Some (n - 87)%Z
  else if ((65 <=? n) && (n <=? 70))%Z then Some (n - 55)%Z
  else None.

Fixpoint skip_spaces (l : list ascii) : list ascii :=
  match l with
  | c :: l' => if isspace c then skip_spaces l' else l
  | [] => []
  end.

(** The digit scan: digits of the base with single underscores between
    them.  Returns the value, the number of digits and what follows;
    [None] on a doubled or trailing underscore. *)
Fixpoint scan_digits (l : list ascii) (acc : Z) (prev_underscore : bool) (n : nat)
    : option (Z * nat * list ascii) :=
  match l with
  | c :: l' =>
      if Ascii.eqb c "_" then
        if prev_underscore then None else scan_digits l' acc true n
      else
        match hex_value c with
        | Some v => scan_digits l' (16 * acc + v)%Z false (S n)
        | None => if prev_underscore then None else Some (acc, n, l)
        end
  | [] => if prev_underscore then None else Some (acc, n, [])
  end.

(** [int(s, 16)] for a [str] of ASCII characters: surrounding white space,
    an optional sign, an optional [0x]/[0X] prefix (after which one
    underscore may stand), at least one hexadecimal digit; anything else is
    a [ValueError].  A [str] with other characters is outside this
    definition: Python first replaces the white space and the decimal
    digits of other scripts by their ASCII counterparts, so that it reads
    some of these strings as numbers; here a string is its bytes, and a
    byte above 127 is no digit. *)
Definition int16 (s : string) : res Z :=
  let l := skip_spaces (list_ascii_of_string s) in
  let '(negative, l) :=
    match l with
    | "+"%char :: l' => (false, l')
    | "-"%char :: l' => (true, l')
    | _ => (false, l)
    end in
  let l :=
    match l with
    | "0"%char :: x :: l' =>
        if Ascii.eqb x "x" || Ascii.eqb x "X" then
          match l' with
          | "_"%char :: l'' => l''
          | _ => l'
          end
        else l
    | _ => l
    end in
  match l with
  | "_"%char :: _ => Raise ValueError
  | _ =>
      match scan_digits l 0 false 0 with
      | Some (v, S _, rest) =>
          match skip_spaces rest with
          | [] => Ok (if negative then - v else v)%Z
          | _ :: _ => Raise ValueError
          end
      | _ => Raise ValueError
      end
  end.

Section Tag.

(** [pydicom.datadict.tag_for_keyword]: the DICOM data dictionary, which is
    data of the library. *)
Context (tag_for_keyword : string → option N).

(** [pydicom.tag.Tag(arg)] for a [str] argument:
<<
    try:
        long_value = int(arg, 16)
        if long_value > 0xFFFFFFFF:
            raise OverflowError(...)
    except ValueError:
        long_value = tag_for_keyword(arg)
        if long_value is None:
            raise ValueError(...)
    if long_value < 0:
        raise ValueError("Tags must be positive.")
    return BaseTag(long_value)
>> *)
Definition Tag (arg : string) : res BaseTag :=
  long_value ←
    match int16 arg with
    | Ok v => if (0xFFFFFFFF <? v)%Z then Raise OverflowError else Ok v
    | Raise ValueError =>
        match tag_for_keyword arg with
        | Some t => Ok (Z.of_N t)
        | None => Raise ValueError
        end
    | other => other
    end;
  if (long_value <? 0)%Z then Raise ValueError else Ok (Z.to_N long_value).

End Tag.

End PyInt.
Export PyInt.

(** ** The removal functions of the program *)

Module Dcmrmel.

(** [remove_tags]: the callback
<<
    def callback(ds_a, elem):
        if elem.tag in tags_to_rm:
            del ds_a[elem.tag]
>> *)
Definition remove_tags_callback (tags_to_rm : list BaseTag)
    (ds_a : Dataset) (elem : DataElement) : res Dataset :=
  if bool_decide (tag elem ∈ tags_to_rm) then delitem ds_a (tag elem) else Ok ds_a.

(** [remove_tags(ds, tags_to_rm)]: [ds.walk(callback); return ds].  The
    second component is the record of callback invocations. *)
Definition remove_tags (ds : Dataset) (tags_to_rm : list BaseTag)
    : res (Dataset * list Visit) :=
  walk (remove_tags_callback tags_to_rm) ds.

(** [remove_vr_tags]: the callback
<<
    def callback(ds_a, elem):
        if elem.VR in vrs_to_remove:
            del ds_a[elem.tag]
>> *)
Definition remove_vr_tags_callback (vrs_to_remove : list string)
    (ds_a : Dataset) (elem : DataElement) : res Dataset :=
  if bool_decide (VR elem ∈ vrs_to_remove) then delitem ds_a (tag elem) else Ok ds_a.

Definition remove_vr_tags (ds : Dataset) (vrs_to_remove : list string)
    : res (Dataset * list Visit) :=
  walk (remove_vr_tags_callback vrs_to_remove) ds.

(** [remove_group_tags]: first
<<
    group_rm = []
    for group in groups_to_remove:
        group_rm.append(int(group, 16))
>>
    then the walk with
<<
    def callback(ds_a, elem):
        if elem.tag.group in group_rm:
            del ds_a[elem.tag]
>> *)
Definition remove_group_tags_callback (group_rm : list Z)
    (ds_a : Dataset) (elem : DataElement) : res Dataset :=
  if bool_decide (Z.of_N (group (tag elem)) ∈ group_rm)
  then delitem ds_a (tag elem) else Ok ds_a.

(** The loop that fills [group_rm]. *)
Definition group_numbers (groups_to_remove : list string) : res (list Z) :=
  for_each groups_to_remove []
    (λ group group_rm, g ← int16 group; Ok (group_rm ++ [g])).

Definition remove_group_tags (ds : Dataset) (groups_to_remove : list string)
    : res (Dataset * list Visit) :=
  group_rm ← group_numbers groups_to_remove;
  walk (remove_group_tags_callback group_rm) ds.

End Dcmrmel.
Export Dcmrmel.

(** ** A removal pass, described by recursive descent *)

Module Pruning.

Section Pass.

(** The removal predicate of a pass: which elements the callback deletes. *)
Context (p : DataElement → bool).

(** The callback shape shared by the program's three callbacks and by
    [remove_private_tags]: delete the visited element from the dataset the
    walk is in when the predicate holds of it. *)
Definition deleting (ds_a : Dataset) (elem : DataElement) : res Dataset :=
  if p elem then delitem ds_a (tag elem) else Ok ds_a.

(** Does the pass delete what [d] stores under [t]? *)
Definition deletes (d : Dataset) (t : BaseTag) : bool :=
  match d !! t with
  | Some b => p (mkElem t b)
  | None => false
  end.

(** The pass as a recursive function: in every dataset drop the matching
    elements, and descend into the items of the sequences that stay. *)
Fixpoint prune_body (b : ElemBody) : ElemBody :=
  match b with
  | Leaf vr v => Leaf vr v
  | Seq items =>
      Seq (map (λ d, filter (λ tb, deletes d tb.1 = false) (prune_body <$> d)) items)
  end.

Definition prune (d : Dataset) : Dataset :=
  filter (λ tb, deletes d tb.1 = false) (prune_body <$> d).

(** The position [π] exists in [ds] and no sequence element on the way to it
    is deleted by the pass. *)
Fixpoint kept_path (ds : Dataset) (π : Position) : bool :=
  match π with
  | [] => true
  | (t, i) :: π' =>
      match ds !! t with
      | Some (Seq items) =>
          negb (p (mkElem t (Seq items))) &&
          match items !! i with
          | Some d => kept_path d π'
          | None => false
          end
      | _ => false
      end
  end.

End Pass.

(** The dataset found at a position: follow sequence element and item
    number, step by step. *)
Fixpoint dataset_at (ds : Dataset) (π : Position) : option Dataset :=
  match π with
  | [] => Some ds
  | (t, i) :: π' =>
      match ds !! t with
      | Some (Seq items) => d ← items !! i; dataset_at d π'
      | _ => None
      end
  end.

(** The element with tag [t] of the dataset at position [π]: an element of
    the dataset "at any depth". *)
Definition element_at (ds : Dataset) (π : Position) (t : BaseTag) : option ElemBody :=
  d ← dataset_at ds π; d !! t.

(** Two element bodies are the same element up to what happens inside the
    items: equal for a non-sequence element, the same number of items for a
    sequence. *)
Definition same_element (b b' : ElemBody) : Prop :=
  match b, b' with
  | Leaf vr v, Leaf vr' v' => vr = vr' ∧ v = v'
  | Seq items, Seq items' => List.length items = List.length items'
  | _, _ => False
  end.

(** The record of a walk rooted at position [here] of the dataset [ds]
    under the pass [p]: what one invocation of the callback may be. *)
Definition visit_of (p : DataElement → bool) (ds : Dataset) (here : Position)
    (v : Visit) : Prop :=
  ∃ π, place v = here ++ π ∧ kept_path p ds π = true ∧
       element_at ds π (tag (element v)) = Some (body (element v)).

(** The predicates of the four passes. *)
Definition private_pred : DataElement → bool := λ e, is_private (tag e).
Definition vr_pred (vrs : list string) : DataElement → bool :=
  λ e, bool_decide (VR e ∈ vrs).
Definition group_pred (groups : list Z) : DataElement → bool :=
  λ e, bool_decide (Z.of_N (group (tag e)) ∈ groups).
Definition tag_pred (tags : list BaseTag) : DataElement → bool :=
  λ e, bool_decide (tag e ∈ tags).

End Pruning.
Export Pruning.

(** ** Paths and the file system *)

Module FileSystem.

(** A [pathlib.Path]: its anchor (empty, or "/" for an absolute path) and
    its parts.  Names are resolved downwards from one directory, the root
    of the modelled tree; ".." is not interpreted. *)
Record Path := mkPath { anchor : string; parts : list string }.

#[export] Instance Path_eq_dec : EqDecision Path.
Proof. solve_decision. Defined.

Definition slash : ascii := "/"%char.

(** Split a string at every "/" (the empty pieces included). *)
Fixpoint split_slash (l : list ascii) (piece : string) : list string :=
  match l with
  | [] => [piece]
  | c :: l' =>
      if Ascii.eqb c slash then piece :: split_slash l' ""
      else split_slash l' (piece +:+ String c "")
  end.

(** [pathlib.Path(s)]: empty and "." pieces are dropped.  The root is "/"
    for a string that starts with one slash or with three or more, and
    "//" for one that starts with exactly two. *)
Definition Path_of_string (s : string) : Path :=
  mkPath (if String.prefix "///" s then "/"
          else if String.prefix "//" s then "//"
          else if String.prefix "/" s then "/" else "")
         (filter (λ x, x ≠ "" ∧ x ≠ ".") (split_slash (list_ascii_of_string s) "")).

(** [str(path)] *)
Definition str (p : Path) : string :=
  match parts p with
  | [] => if String.eqb (anchor p) "" then "." else anchor p
  | _ => anchor p +:+ String.concat "/" (parts p)
  end.

(** [path / name] *)
Definition joinpath (p : Path) (name : string) : Path :=
  mkPath (anchor p) (parts p ++ [name]).

(** [PurePath.name]: the last part. *)
Definition name (p : Path) : string := List.last (parts p) "".

(** Index of the last "." of a name ([str.rfind]): the dot seen last while
    reading the name from the left. *)
Fixpoint rfind_dot (l : list ascii) (i : nat) (found : option nat) : option nat :=
  match l with
  | [] => found
  | c :: l' => rfind_dot l' (S i) (if Ascii.eqb c "." then Some i else found)
  end.

(** [PurePath.suffix]:
<<
    name = self.name
    i = name.rfind('.')
    if 0 < i < len(name) - 1:
        return name[i:]
    else:
        return ''
>> *)
Definition suffix_of_name (nm : string) : string :=
  match rfind_dot (list_ascii_of_string nm) 0 None with
  | Some i =>
      if (0 <? i) && (i <? String.length nm - 1)
      then String.substring i (String.length nm - i) nm
      else ""
  | None => ""
  end.

Definition suffix (p : Path) : string := suffix_of_name (name p).

(** [PurePath.with_suffix(suffix)], for a suffix that is empty or starts
    with a dot and holds no separator (the program passes
    [fp.suffix + ".bak"]):
<<
    name = self.name
    if not name:
        raise ValueError("%r has an empty name" % (self,))
    old_suffix = self.suffix
    if not old_suffix:
        name = name + suffix
    else:
        name = name[:-len(old_suffix)] + suffix
    return self._from_parsed_parts(self._drv, self._root, self._parts[:-1] + [name])
>> *)
Definition with_suffix (p : Path) (new_suffix : string) : res Path :=
  let nm := name p in
  if String.eqb nm "" then Raise ValueError
  else
    let old_suffix := suffix p in
    let nm' :=
      if String.eqb old_suffix "" then nm +:+ new_suffix
      else String.substring 0 (String.length nm - String.length old_suffix) nm
           +:+ new_suffix in
    Ok (mkPath (anchor p) (removelast (parts p) ++ [nm'])).

(** What a regular file holds.  The byte-level DICOM encoding belongs to
    pydicom: a file that [dcmread] decodes is represented by the dataset it
    decodes to; any other file is its bytes. *)
Inductive FileContent :=
| Raw (bytes : string)
| DicomFile (fd : FileDataset).

(** A directory lists its entries in the order [os.scandir] yields them;
    a name is looked up as its first entry. *)
Inductive Node :=
| File (c : FileContent)
| Dir (entries : list (string * Node)).

Fixpoint entry_lookup (nm : string) (es : list (string * Node)) : option Node :=
  match es with
  | [] => None
  | (nm', n) :: es' => if String.eqb nm nm' then Some n else entry_lookup nm es'
  end.

(** Replace the entry of that name, or add it at the end. *)
Fixpoint entry_set (nm : string) (n : Node) (es : list (string * Node))
    : list (string * Node) :=
  match es with
  | [] => [(nm, n)]
  | (nm', n') :: es' =>
      if String.eqb nm nm' then (nm', n) :: es' else (nm', n') :: entry_set nm n es'
  end.

Fixpoint resolve_parts (n : Node) (ps : list string) : option Node :=
  match ps with
  | [] => Some n
  | nm :: ps' =>
      match n with
      | Dir es => n' ← entry_lookup nm es; resolve_parts n' ps'
      | File _ => None
      end
  end.

Definition resolve (root : Node) (p : Path) : option Node :=
  resolve_parts root (parts p).

(** [Path.is_file()], [Path.is_dir()] *)
Definition is_file (root : Node) (p : Path) : bool :=
  match resolve root p with Some (File _) => true | _ => false end.

Definition is_dir (root : Node) (p : Path) : bool :=
  match resolve root p with Some (Dir _) => true | _ => false end.

(** Reading a regular file. *)
Definition read_file (root : Node) (p : Path) : res FileContent :=
  match resolve root p with
  | Some (File c) => Ok c
  | Some (Dir _) => Raise IsADirectoryError
  | None => Raise FileNotFoundError
  end.

(** Writing a regular file: it is overwritten, or created in a directory
    that exists. *)
Fixpoint write_parts (n : Node) (ps : list string) (c : FileContent) : res Node :=
  match ps with
  | [] =>
      match n with
      | File _ => Ok (File c)
      | Dir _ => Raise IsADirectoryError
      end
  | nm :: ps' =>
      match n with
      | Dir es =>
          match entry_lookup nm es with
          | Some child =>
              child' ← write_parts child ps' c; Ok (Dir (entry_set nm child' es))
          | None =>
              match ps' with
              | [] => Ok (Dir (entry_set nm (File c) es))
              | _ :: _ => Raise FileNotFoundError
              end
          end
      | File _ => Raise FileNotFoundError
      end
  end.

Definition write_file (root : Node) (p : Path) (c : FileContent) : res Node :=
  write_parts root (parts p) c.

(** [os.walk(top)], top-down: for every directory its path and the names
    of its sub-directories and of its other entries, in listing order,
    followed by the walks of the sub-directories. *)
Fixpoint os_walk (n : Node) (top : Path) {struct n}
    : list (Path * list string * list string) :=
  match n with
  | File _ => []
  | Dir es =>
      let dirs := omap (λ e, match e.2 with Dir _ => Some e.1 | File _ => None end) es in
      let files := omap (λ e, match e.2 with File _ => Some e.1 | Dir _ => None end) es in
      (top, dirs, files) :: flat_map (λ e, os_walk e.2 (joinpath top e.1)) es
  end.

End FileSystem.
Export FileSystem.

(** ** The command-line program *)

Module Cli.

Inductive Stream := stdout | stderr.

(** What the program writes to a stream.  Texts that a library renders
    (the help and usage texts of argparse, the percentage of a progress
    line) are recorded by what determines them. *)
Inductive Message :=
| Text (s : string)
| HelpText (prog : string)
| VersionText (prog version : string)
| UsageError (prog message : string)
| ProgressLine (message : string) (count total : nat).

(** The observable actions of a run, in order. *)
Inductive Event :=
| Output (to : Stream) (m : Message)
| Dcmread (fp : Path) (ds : FileDataset)
| Copy (src dst : Path)
| SaveAs (fp : Path) (ds : FileDataset).

Record World := mkWorld { fs : Node; trace : list Event }.

(** Programs: a state monad over the world with Python's exceptions. *)
Definition Prog (A : Type) : Type := World → res A * World.

#[export] Instance Prog_ret : MRet Prog := λ A a w, (Ok a, w).

#[export] Instance Prog_bind : MBind Prog := λ A B k m w,
  match m w with
  | (Ok a, w') => k a w'
  | (Raise e, w') => (Raise e, w')
  | (OutOfFuel, w') => (OutOfFuel, w')
  end.

Definition emit (e : Event) : Prog unit :=
  λ w, (Ok tt, mkWorld (fs w) (trace w ++ [e])).

Definition raise {A} (e : exn) : Prog A := λ w, (Raise e, w).

(** A pure computation that may raise, run inside a program. *)
Definition lift {A} (r : res A) : Prog A := λ w, (r, w).

Definition get_fs : Prog Node := λ w, (Ok (fs w), w).

Definition put_fs (n : Node) : Prog unit := λ w, (Ok tt, mkWorld n (trace w)).

(** [sys.exit(code)] *)
Definition sys_exit {A} (code : Z) : Prog A := raise (SystemExit code).

(** A [for] loop of a program over a list, with the loop counter of
    [enumerate(l, start)]. *)
Fixpoint for_enumerate {A} (l : list A) (start : nat) (body : nat → A → Prog unit)
    : Prog unit :=
  match l with
  | [] => mret tt
  | x :: rest => body start x ≫= λ _, for_enumerate rest (S start) body
  end.

Definition newline : string := String (ascii_of_nat 10) "".

(** *** pydicom and shutil on files *)

(** [pydicom.misc.is_dicom(fp)]: the four bytes after the 128-byte preamble
    are "DICM".  A file that [dcmread] decodes has them. *)
Definition has_magic (c : FileContent) : bool :=
  match c with
  | Raw bytes => String.eqb (String.substring 128 4 bytes) "DICM"
  | DicomFile _ => true
  end.

Definition is_dicom (fp : Path) : Prog bool :=
  root ← get_fs; c ← lift (read_file root fp); mret (has_magic c).

(** [pydicom.dcmread(fp)] *)
Definition dcmread (fp : Path) : Prog FileDataset :=
  root ← get_fs;
  c ← lift (read_file root fp);
  match c with
  | DicomFile ds => emit (Dcmread fp ds) ≫= λ _, mret ds
  | Raw _ => raise InvalidDicomError
  end.

(** [shutil.copy(src, dst)]: into [dst] when that is a directory. *)
Definition shutil_copy (src dst : Path) : Prog unit :=
  root ← get_fs;
  c ← lift (read_file root src);
  let dst := if is_dir root dst then joinpath dst (name src) else dst in
  root' ← lift (write_file root dst c);
  put_fs root' ≫= λ _, emit (Copy src dst).

(** What pydicom's encoder makes of a dataset.  The bytes are the
    encoder's business; the model records the outcome: [Complete ds'] when
    the encoder finishes, [ds'] being what [dcmread] decodes from the file
    it wrote (the encoder recomputes the group length (0002,0000) when the
    file meta has one, so [ds'] need not be the dataset it was given), and
    [Broken bytes] when the encoder raises on the way and leaves the file
    with [bytes]. *)
Inductive Encoded :=
| Complete (decoded : FileDataset)
| Broken (bytes : string).

Definition Encoder : Type := FileDataset → Encoded.

(** What the file holds once the encoder is through. *)
Definition written (dcmwrite : Encoder) (ds : FileDataset) : FileContent :=
  match dcmwrite ds with
  | Complete ds' => DicomFile ds'
  | Broken bytes => Raw bytes
  end.

(** The groups of the elements that the writer does not accept in the main
    dataset. *)
Definition bad_tags (ds : Dataset) : list N :=
  filter (λ g, g = 0%N ∨ g = 2%N) ((λ x, N.shiftr x 16) <$> keys ds).

(** [ds.save_as(fp)], which is [pydicom.dcmwrite(fp, ds)].  The writer
    first refuses a dataset that holds, outside [file_meta], an element of
    the command set (group 0000) or of the file meta group (0002):
<<
    bad_tags = [x >> 16 for x in dataset._dict if x >> 16 in (0, 2)]
    if bad_tags:
        ...
        raise ValueError(...)
>>
    Then it opens the file for writing and encodes a copy of the file meta
    and the dataset into it. *)
Definition save_as (dcmwrite : Encoder) (ds : FileDataset) (fp : Path) : Prog unit :=
  match bad_tags (dataset ds) with
  | _ :: _ => raise ValueError
  | [] =>
      root ← get_fs;
      root' ← lift (write_file root fp (written dcmwrite ds));
      put_fs root' ≫= λ _,
      emit (SaveAs fp ds) ≫= λ _,
      match dcmwrite ds with
      | Complete _ => mret tt
      | Broken _ => raise EncodingError
      end
  end.

(** The tag of the keyword [MediaStorageSOPClassUID] in the DICOM data
    dictionary, (0002,0002), and the UID
    [pydicom.uid.MediaStorageDirectoryStorage]. *)
Definition MediaStorageSOPClassUID : BaseTag := 0x00020002%N.
Definition MediaStorageDirectoryStorage : string := "1.2.840.10008.1.3.10".

(** [ds.file_meta.get("MediaStorageSOPClassUID", None) ==
     pydicom.uid.MediaStorageDirectoryStorage] *)
Definition is_dicomdir (ds : FileDataset) : bool :=
  match file_meta ds !! MediaStorageSOPClassUID with
  | Some (Leaf _ value) => String.eqb value MediaStorageDirectoryStorage
  | _ => false
  end.

(** *** progress *)

(** [progress(count, total, message)] prints one line to standard output. *)
Definition progress (count total : nat) (message : string) : Prog unit :=
  emit (Output stdout (ProgressLine message count total)).

(** *** make_dcm_fp_list *)

(** The inner loops of the directory case:
<<
    for root, _, files in os.walk(pth):
        for fn in files:
            fp = pathlib.Path(root) / fn
            if pydicom.misc.is_dicom(fp):
                fp_list.append(fp)
>> *)
Fixpoint sniff_files (root : Path) (files : list string) (fp_list : list Path)
    : Prog (list Path) :=
  match files with
  | [] => mret fp_list
  | fn :: rest =>
      let fp := joinpath root fn in
      ok ← is_dicom fp;
      sniff_files root rest (if ok : bool then fp_list ++ [fp] else fp_list)
  end.

Fixpoint sniff_dirs (walk : list (Path * list string * list string))
    (fp_list : list Path) : Prog (list Path) :=
  match walk with
  | [] => mret fp_list
  | (root, _, files) :: rest =>
      fp_list ← sniff_files root files fp_list;
      sniff_dirs rest fp_list
  end.

(** [make_dcm_fp_list(pth)] *)
Definition make_dcm_fp_list (pth : Path) : Prog (list Path) :=
  root ← get_fs;
  fp_list ←
    (if is_file root pth then
       ok ← is_dicom pth;
       mret (if ok : bool then [pth] else [])
     else if is_dir root pth then
       match resolve root pth with
       | Some n => sniff_dirs (os_walk n pth) []
       | None => mret []
       end
     else
       emit (Output stderr
               (Text ("ERROR: " +:+ str pth +:+ " is neither a file or directory"
                      +:+ newline))) ≫= λ _,
       sys_exit 1);
  if Nat.eqb (List.length fp_list) 0 then
    emit (Output stderr (Text ("ERROR: No valid DICOM files found, exiting" +:+ newline)))
      ≫= λ _, sys_exit 1
  else mret fp_list.

End Cli.
Export Cli.

(** ** argparse, the loop body and [main] *)

Module Main.

(** The parsed arguments ([args] in [main]). *)
Record Args := mkArgs {
  d : Path;
  no_backup : bool;
  rm_private : bool;
  rm_vr : option (list string);
  rm_group : option (list string);
  rm_tag : option (list string)
}.

(** The namespace while argparse fills it. *)
Record Namespace := mkNamespace {
  ns_d : option Path;
  ns_no_backup : bool;
  ns_rm_private : bool;
  ns_rm_vr : option (list string);
  ns_rm_group : option (list string);
  ns_rm_tag : option (list string)
}.

Inductive ListOption := OptVR | OptGroup | OptTag.

Definition option_string (k : ListOption) : string :=
  match k with
  | OptVR => "--rm-vr"
  | OptGroup => "--rm-group"
  | OptTag => "--rm-tag"
  end.

Definition store (k : ListOption) (values : list string) (ns : Namespace) : Namespace :=
  match k with
  | OptVR => mkNamespace (ns_d ns) (ns_no_backup ns) (ns_rm_private ns)
                         (Some values) (ns_rm_group ns) (ns_rm_tag ns)
  | OptGroup => mkNamespace (ns_d ns) (ns_no_backup ns) (ns_rm_private ns)
                            (ns_rm_vr ns) (Some values) (ns_rm_tag ns)
  | OptTag => mkNamespace (ns_d ns) (ns_no_backup ns) (ns_rm_private ns)
                          (ns_rm_vr ns) (ns_rm_group ns) (Some values)
  end.

(** An argument that argparse takes for an option rather than a value:
    it starts with "-", is not a lone "-" and holds no space. *)
Definition option_like (tok : string) : bool :=
  String.prefix "-" tok && negb (String.eqb tok "-")
  && negb (bool_decide (" "%char ∈ list_ascii_of_string tok)).

(** The values gathered for a [nargs="+"] option are stored when the next
    option, or the end of the arguments, is reached; none is an error. *)
Definition close (collecting : option (ListOption * list string)) (ns : Namespace)
    : Namespace + string :=
  match collecting with
  | None => inl ns
  | Some (k, []) =>
      inr ("argument " +:+ option_string k +:+ ": expected at least one argument")
  | Some (k, values) => inl (store k values ns)
  end.

(** [parser.error(message)]: usage and message on standard error, exit
    status 2. *)
Definition usage_error {A} (prog message : string) : Prog A :=
  emit (Output stderr (UsageError prog message)) ≫= λ _, sys_exit 2.

(** Which pass invoked the callback, and on which of the two datasets of
    the file. *)
Inductive PassKind := PrivatePass | VRPass | GroupPass | TagPass.
Inductive Target := MainDataset | FileMeta.

Abbreviation PassLog := (list (PassKind * Target * Visit)).

Definition logged (k : PassKind) (on : Target) (r : res (Dataset * list Visit))
    : res (Dataset * PassLog) :=
  '(ds, log) ← r; Ok (ds, map (λ v, (k, on, v)) log).

Section Program.

(** The data dictionary of pydicom, its encoder, and the installed version
    of the package ([importlib.metadata.version("dcmrmel")]). *)
Context (tag_for_keyword : string → option N) (dcmwrite : Encoder)
        (__version__ : string).

(** [parser.parse_args()] for the parser that [main] builds, on the
    arguments after the program name.  Arguments are taken in order: the
    help and version actions act when they are met; an unknown option is
    kept and reported at the end, after a missing positional.  Not
    modelled, and taken as unknown options: abbreviated long options,
    [--option=value], "--", joined short options and arguments that look
    like negative numbers. *)
Fixpoint parse_tokens (prog : string) (tokens : list string)
    (collecting : option (ListOption * list string)) (ns : Namespace)
    (extras : list string) : Prog Args :=
  match tokens with
  | [] =>
      match close collecting ns with
      | inr message => usage_error prog message
      | inl ns =>
          match ns_d ns, extras with
          | None, _ =>
              usage_error prog "the following arguments are required: FILE or DIR"
          | Some pth, [] =>
              mret (mkArgs pth (ns_no_backup ns) (ns_rm_private ns)
                           (ns_rm_vr ns) (ns_rm_group ns) (ns_rm_tag ns))
          | Some _, _ :: _ =>
              usage_error prog ("unrecognized arguments: " +:+ String.concat " " extras)
          end
      end
  | tok :: rest =>
      match collecting, option_like tok with
      | Some (k, values), false =>
          parse_tokens prog rest (Some (k, values ++ [tok])) ns extras
      | _, _ =>
          match close collecting ns with
          | inr message => usage_error prog message
          | inl ns =>
              if bool_decide (tok ∈ ["-h"; "--help"]) then
                emit (Output stdout (HelpText prog)) ≫= λ _, sys_exit 0
              else if String.eqb tok "--version" then
                emit (Output stdout (VersionText prog __version__)) ≫= λ _, sys_exit 0
              else if String.eqb tok "--no-backup" then
                parse_tokens prog rest None
                  (mkNamespace (ns_d ns) true (ns_rm_private ns)
                               (ns_rm_vr ns) (ns_rm_group ns) (ns_rm_tag ns)) extras
              else if String.eqb tok "--rm-private" then
                parse_tokens prog rest None
                  (mkNamespace (ns_d ns) (ns_no_backup ns) true
                               (ns_rm_vr ns) (ns_rm_group ns) (ns_rm_tag ns)) extras
              else if String.eqb tok "--rm-vr" then
                parse_tokens prog rest (Some (OptVR, [])) ns extras
              else if String.eqb tok "--rm-group" then
                parse_tokens prog rest (Some (OptGroup, [])) ns extras
              else if String.eqb tok "--rm-tag" then
                parse_tokens prog rest (Some (OptTag, [])) ns extras
              else if option_like tok then
                parse_tokens prog rest None ns (extras ++ [tok])
              else
                match ns_d ns with
                | None =>
                    parse_tokens prog rest None
                      (mkNamespace (Some (Path_of_string tok)) (ns_no_backup ns)
                                   (ns_rm_private ns) (ns_rm_vr ns) (ns_rm_group ns)
                                   (ns_rm_tag ns)) extras
                | Some _ => parse_tokens prog rest None ns (extras ++ [tok])
                end
          end
      end
  end.

(** [parser.parse_args()] reads [sys.argv]: the program name, then the
    arguments. *)
Definition parse_args (argv : list string) : Prog Args :=
  match argv with
  | [] => usage_error "" "the following arguments are required: FILE or DIR"
  | argv0 :: tokens =>
      parse_tokens (name (Path_of_string argv0)) tokens None
        (mkNamespace None false false None None None) []
  end.

(** The loop that fills [tag_to_rm_list] from [args.rm_tag]. *)
Definition tags_to_remove (rm_tag : list string) : res (list BaseTag) :=
  for_each rm_tag []
    (λ tag_to_rm tag_to_rm_list,
       t ← Tag tag_for_keyword tag_to_rm; Ok (tag_to_rm_list ++ [t])).

(** The removal part of the loop body:
<<
    if args.rm_private:
        ds.remove_private_tags()
    if args.rm_vr is not None:
        ds = remove_vr_tags(ds, args.rm_vr)
        ds.file_meta = remove_vr_tags(ds.file_meta, args.rm_vr)
    if args.rm_group is not None:
        ds = remove_group_tags(ds, args.rm_group)
        ds.file_meta = remove_group_tags(ds.file_meta, args.rm_group)
    if args.rm_tag:
        tag_to_rm_list = []
        for tag_to_rm in args.rm_tag:
            tag_to_rm_list.append(pydicom.tag.Tag(tag_to_rm))
        ds = remove_tags(ds, tag_to_rm_list)
        ds.file_meta = remove_tags(ds.file_meta, tag_to_rm_list)
>>
    The result also lists the callback invocations, pass by pass. *)
Definition remove_elements (args : Args) (ds : FileDataset)
    : res (FileDataset * PassLog) :=
  '(ds, log) ←
    (if rm_private args then
       '(main, l) ← logged PrivatePass MainDataset (remove_private_tags (dataset ds));
       Ok (mkFile main (file_meta ds), l)
     else Ok (ds, []));
  '(ds, log) ←
    match rm_vr args with
    | Some vrs =>
        '(main, l1) ← logged VRPass MainDataset (remove_vr_tags (dataset ds) vrs);
        '(meta, l2) ← logged VRPass FileMeta (remove_vr_tags (file_meta ds) vrs);
        Ok (mkFile main meta, log ++ l1 ++ l2)
    | None => Ok (ds, log)
    end;
  '(ds, log) ←
    match rm_group args with
    | Some groups =>
        '(main, l1) ← logged GroupPass MainDataset (remove_group_tags (dataset ds) groups);
        '(meta, l2) ← logged GroupPass FileMeta (remove_group_tags (file_meta ds) groups);
        Ok (mkFile main meta, log ++ l1 ++ l2)
    | None => Ok (ds, log)
    end;
  match rm_tag args with
  | Some ((_ :: _) as tags) =>
      tag_to_rm_list ← tags_to_remove tags;
      '(main, l1) ← logged TagPass MainDataset (remove_tags (dataset ds) tag_to_rm_list);
      '(meta, l2) ← logged TagPass FileMeta (remove_tags (file_meta ds) tag_to_rm_list);
      Ok (mkFile main meta, log ++ l1 ++ l2)
  | _ => Ok (ds, log)
  end.

(** One turn of the loop over the discovered files:
<<
    progress(fp_cnt, len(fp_list), "* removing tags from %d files" % (len(fp_list)))
    ds = pydicom.dcmread(fp)
    sop_class = ds.file_meta.get("MediaStorageSOPClassUID", None)
    if sop_class == pydicom.uid.MediaStorageDirectoryStorage:
        continue
    if not args.no_backup:
        fp_bak = fp.with_suffix(fp.suffix + ".bak")
        shutil.copy(fp, fp_bak)
    ... the removal part ...
    ds.save_as(fp)
>> *)
Definition loop_body (args : Args) (n_files fp_cnt : nat) (fp : Path) : Prog unit :=
  progress fp_cnt n_files ("* removing tags from " +:+ pretty n_files +:+ " files") ≫= λ _,
  ds ← dcmread fp;
  if is_dicomdir ds then mret tt
  else
    (if negb (no_backup args) then
       fp_bak ← lift (with_suffix fp (suffix fp +:+ ".bak"));
       shutil_copy fp fp_bak
     else mret tt) ≫= λ _,
    '(ds, _) ← lift (remove_elements args ds);
    save_as dcmwrite ds fp.

(** [main()], on [sys.argv]:
<<
    if len(sys.argv) == 1:
        sys.argv.append("-h")
    args = parser.parse_args()
    fp_list = make_dcm_fp_list(args.d)
    for fp_cnt, fp in enumerate(fp_list, 1):
        ...
>> *)
Definition main (argv : list string) : Prog unit :=
  let argv := if Nat.eqb (List.length argv) 1 then argv ++ ["-h"] else argv in
  args ← parse_args argv;
  fp_list ← make_dcm_fp_list (d args);
  for_enumerate fp_list 1 (loop_body args (List.length fp_list)).

End Program.

End Main.
Export Main.

(** * Specification

    What the statements below are written in; nothing here is part of the
    program. *)

(** ** Vocabulary of the statements

    *** Passes *)

(** What a walk of [d], rooted at position [here], with the deleting
    callback of [p] is to return: the pruned dataset, and a record that
    holds every invocation once and holds exactly the visits of the pass. *)
Definition walk_ok (p : DataElement → bool) (d : Dataset) (here : Position)
    (r : res (Dataset * list Visit)) : Prop :=
  ∃ log, r = Ok (prune p d, log) ∧ NoDup log ∧ ∀ v, v ∈ log ↔ visit_of p d here v.

(** The tag of the walked dataset under which an element at position [π]
    with tag [t0] sits: [t0] itself at the top, else the first sequence on
    the way. *)
Definition top_tag (π : Position) (t0 : BaseTag) : BaseTag :=
  match π with
  | [] => t0
  | (t, _) :: _ => t
  end.

(** The visits of the pass that belong to the tags [l] of the walked
    dataset: the record of the loop [for tag in taglist] after it has gone
    through [l]. *)
Definition visit_under (p : DataElement → bool) (l : list BaseTag) (ds : Dataset)
    (here : Position) (v : Visit) : Prop :=
  ∃ π, place v = here ++ π ∧ kept_path p ds π = true ∧
       element_at ds π (tag (element v)) = Some (body (element v)) ∧
       top_tag π (tag (element v)) ∈ l.

(** A predicate that looks at the tag and the VR of the element only, as
    those of the program do. *)
Definition shallow (p : DataElement → bool) : Prop :=
  ∀ e e', tag e = tag e' → VR e = VR e' → p e = p e'.

(** A pass that may be switched off. *)
Definition stage (o : option (DataElement → bool)) (d : Dataset) : Dataset :=
  match o with
  | Some p => prune p d
  | None => d
  end.

(** The callback record of a pass over [d]: every element not inside a
    sequence that the pass removes, once; nothing when the pass is off. *)
Definition record_of (o : option (DataElement → bool)) (d : Dataset)
    (l : list Visit) : Prop :=
  match o with
  | Some p => NoDup l ∧ ∀ v, v ∈ l ↔ visit_of p d [] v
  | None => l = []
  end.

(** A record of visits, marked with the pass and the dataset it ran on. *)
Definition tagged (k : PassKind) (on : Target) (l : list Visit) : PassLog :=
  map (λ v, (k, on, v)) l.

(** The group numbers and tags that the arguments denote, when the
    respective mode is active. *)
Definition decoded_groups (args : Args) : res (option (list Z)) :=
  match rm_group args with
  | Some groups => g ← group_numbers groups; Ok (Some g)
  | None => Ok None
  end.

Definition decoded_tags (tag_for_keyword : string → option N) (args : Args)
    : res (option (list BaseTag)) :=
  match rm_tag args with
  | Some ((_ :: _) as tags) => t ← tags_to_remove tag_for_keyword tags; Ok (Some t)
  | _ => Ok None
  end.

(** *** Files, backups and traces *)

(** What a path denotes, as far as the program can tell: nothing, a
    directory, or a file with its content. *)
Definition shape (o : option Node) : option (option FileContent) :=
  match o with
  | Some (File c) => Some (Some c)
  | Some (Dir _) => Some None
  | None => None
  end.

(** What the path [q] denotes in the tree below [root]. *)
Definition denotes (root : Node) (q : Path) : option (option FileContent) :=
  shape (resolve root q).

(** The path of the backup of [fp]: the same directory, the name followed
    by ".bak". *)
Definition bak (fp : Path) : Path :=
  mkPath (anchor fp) (removelast (parts fp) ++ [name fp +:+ ".bak"]).

(** Does the event change what the path [q] denotes? *)
Definition touches (e : Event) (q : Path) : bool :=
  match e with
  | Copy _ dst => bool_decide (parts dst = parts q)
  | SaveAs fp _ => bool_decide (parts fp = parts q)
  | _ => false
  end.

(** From [w] to [w']: the trace grew by [evs], and every path that no
    event of [evs] touches denotes what it did. *)
Definition grows_by (w w' : World) (evs : list Event) : Prop :=
  trace w' = trace w ++ evs ∧
  ∀ q, (∀ e, e ∈ evs → touches e q = false) → denotes (fs w') q = denotes (fs w) q.

(** The progress message of the loop. *)
Definition progress_message (n_files : nat) : string :=
  "* removing tags from " +:+ pretty n_files +:+ " files".

(** The arguments of a run without any removal flag. *)
Definition no_removal (pth : Path) (backup_off : bool) : Args :=
  mkArgs pth backup_off false None None None.

(** *** Discovery *)

(** A directory holds one entry per name, at every level. *)
Fixpoint unique_names (n : Node) : bool :=
  match n with
  | File _ => true
  | Dir es => bool_decide (NoDup es.*1) && forallb (λ e, unique_names e.2) es
  end.

(** The DICOM files below a node, by recursive descent: the files of the
    directory that carry the magic bytes, in listing order, then those of
    the sub-directories. *)
Fixpoint dicom_files (n : Node) (top : Path) {struct n} : list Path :=
  match n with
  | File _ => []
  | Dir es =>
      omap (λ e, match e.2 with
                 | File c => if has_magic c then Some (joinpath top e.1) else None
                 | Dir _ => None
                 end) es ++
      flat_map (λ e, dicom_files e.2 (joinpath top e.1)) es
  end.

(** What discovery finds at a path that exists. *)
Definition found_at (n : Node) (pth : Path) : list Path :=
  match n with
  | File c => if has_magic c then [pth] else []
  | Dir _ => dicom_files n pth
  end.

(** The two messages of [make_dcm_fp_list]. *)
Definition neither_message (pth : Path) : string :=
  "ERROR: " +:+ str pth +:+ " is neither a file or directory" +:+ newline.

Definition none_found_message : string :=
  "ERROR: No valid DICOM files found, exiting" +:+ newline.

(** Induction over the directory tree. *)
Fixpoint Node_nested_ind (P : Node → Prop)
    (Hfile : ∀ c, P (File c))
    (Hdir : ∀ es, Forall (λ e, P e.2) es → P (Dir es)) (n : Node) : P n :=
  match n with
  | File c => Hfile c
  | Dir es =>
      Hdir es ((fix go (es : list (string * Node)) : Forall (λ e, P e.2) es :=
                  match es with
                  | [] => List.Forall_nil _
                  | e :: es' => List.Forall_cons _ e es' (Node_nested_ind P Hfile Hdir e.2) (go es')
                  end) es)
  end.

(** *** All passes at once *)

(** The criterion of a pass that may be switched off. *)
Definition active (o : option (DataElement → bool)) : DataElement → bool :=
  λ e, match o with Some p => p e | None => false end.

(** An element matches when it matches one of two criteria. *)
Definition either (p q : DataElement → bool) : DataElement → bool :=
  λ e, p e || q e.

(** What the passes on the file meta match, taken together: the VRs, the
    groups as numbers and the tags of the arguments. *)
Definition criteria_meta (args : Args) (groups : option (list Z))
    (tags : option (list BaseTag)) : DataElement → bool :=
  either (active (vr_pred <$> rm_vr args))
         (either (active (group_pred <$> groups)) (active (tag_pred <$> tags))).

(** What the passes on the main dataset match, taken together: the same,
    and the private elements with [--rm-private]. *)
Definition criteria_main (args : Args) (groups : option (list Z))
    (tags : option (list BaseTag)) : DataElement → bool :=
  either (active (if rm_private args then Some private_pred else None))
         (criteria_meta args groups tags).

(** pydicom gives an element read from a file its VR, and decodes its
    value, when the element is first fetched, which during a pass is when
    the walk reaches it.  For some elements it consults other elements of
    the dataset at that moment: elements of VR US or SS (Pixel
    Representation, Bits Allocated, LUT Descriptor) where the dictionary
    leaves the VR open ("US or SS", "OB or OW"), the private creator, of
    VR LO, for a private element, and Specific Character Set, of VR CS,
    for a text.  In the model an element carries its VR and value from the
    start.  A VR pass whose list names none of these four VRs removes
    nothing that a fetch consults, so that it meets every element as the
    model has it. *)
Definition keeps_what_a_fetch_consults (vrs : list string) : bool :=
  forallb (λ v, negb (bool_decide (v ∈ vrs))) ["US"; "SS"; "LO"; "CS"].

(** [ds'] is [ds] after the removal of the elements that [crit] matches:
    what is left was there, unmatched and below no matched sequence; what
    was there, unmatched and below no matched sequence, is left; what
    matched is gone. *)
Definition removes (crit : DataElement → bool) (ds ds' : Dataset) : Prop :=
  (∀ π t b', element_at ds' π t = Some b' →
     ∃ b, element_at ds π t = Some b ∧ same_element b b' ∧
          crit (mkElem t b) = false ∧ kept_path crit ds π = true) ∧
  (∀ π t b, element_at ds π t = Some b → crit (mkElem t b) = false →
     kept_path crit ds π = true →
     ∃ b', element_at ds' π t = Some b' ∧ same_element b b') ∧
  (∀ π t b, element_at ds π t = Some b → crit (mkElem t b) = true →
     element_at ds' π t = None).

(** *** Hexadecimal numerals *)

(** A hexadecimal digit, either case. *)
Definition is_hex (c : ascii) : bool :=
  match hex_value c with Some _ => true | None => false end.

(** A non-empty string of hexadecimal digits. *)
Definition hex_digits (s : string) : bool :=
  negb (String.eqb s "") && forallb is_hex (list_ascii_of_string s).

(** The number that a list of hexadecimal digits denotes, after [acc]. *)
Fixpoint hex_number (l : list ascii) (acc : Z) : Z :=
  match l with
  | [] => acc
  | c :: l' => hex_number l' (16 * acc + default 0%Z (hex_value c))%Z
  end.

(** A character that no hexadecimal numeral holds: not a digit, not white
    space, not a sign, not an underscore and not the "x" of the prefix. *)
Definition foreign (c : ascii) : bool :=
  negb (is_hex c || isspace c ||
        bool_decide (c ∈ ["_"; "+"; "-"; "x"; "X"]%char)).

(** *** Events and outcomes of a run *)

(** The output events of a trace, in order. *)
Definition outputs (evs : list Event) : list (Stream * Message) :=
  omap (λ e, match e with Output s m => Some (s, m) | _ => None end) evs.

(** The events that a loop over the files [fps] may add to the trace. *)
Definition run_event (fps : list Path) (e : Event) : Prop :=
  match e with
  | Output s _ => s = stdout
  | Dcmread fp _ => fp ∈ fps
  | Copy src dst => src ∈ fps ∧ (dst = bak src ∨ dst = joinpath (bak src) (name src))
  | SaveAs fp _ => fp ∈ fps
  end.

(** The files of a list stand at different places, and none stands where
    the backup of a file of the list goes. *)
Definition separate (fps : list Path) : Prop :=
  NoDup (parts <$> fps) ∧
  ∀ fp fp', fp ∈ fps → fp' ∈ fps → parts (bak fp) ≠ parts fp'.

(** The exceptions of the file system operations. *)
Definition file_error (e : exn) : Prop :=
  e = FileNotFoundError ∨ e = IsADirectoryError.

(** How the parser ends: with the arguments, with the help or the version
    text and status 0, or with a usage error and status 2. *)
Definition parse_outcome (prog version : string) (w : World) (r : res Args) (w' : World)
    : Prop :=
  (∃ args, r = Ok args ∧ w' = w) ∨
  (r = Raise (SystemExit 0) ∧
   ∃ m, (m = HelpText prog ∨ m = VersionText prog version) ∧
        w' = mkWorld (fs w) (trace w ++ [Output stdout m])) ∨
  (r = Raise (SystemExit 2) ∧
   ∃ message, w' = mkWorld (fs w) (trace w ++ [Output stderr (UsageError prog message)])).

(** An exception of the loop over the files: of the file system, of
    [dcmread], of the decoding of a group or tag argument, or of the
    writer. *)
Definition loop_error (e : exn) : Prop :=
  file_error e ∨ e = InvalidDicomError ∨ e = ValueError ∨ e = OverflowError ∨
  e = EncodingError.

(** How discovery ends. *)
Definition discovery_outcome (pth : Path) (w : World) (r : res (list Path)) (w' : World)
    : Prop :=
  (∃ fp_list, r = Ok fp_list ∧ fp_list ≠ [] ∧ w' = w) ∨
  (r = Raise (SystemExit 1) ∧
   ∃ message, (message = neither_message pth ∨ message = none_found_message) ∧
              w' = mkWorld (fs w) (trace w ++ [Output stderr (Text message)])) ∨
  (∃ e, r = Raise e ∧ file_error e ∧ w' = w).

(** *** Command lines *)

(** A command-line argument that does not start with "-". *)
Definition plain (tok : string) : bool := negb (String.prefix "-" tok).

(** The arguments that spell a list option. *)
Definition list_option (flag : string) (values : option (list string)) : list string :=
  match values with
  | Some vs => flag :: vs
  | None => []
  end.

(** A command line for [args]: the path first, then the flags. *)
Definition command_line (tok : string) (args : Args) : list string :=
  tok ::
  (if no_backup args then ["--no-backup"] else []) ++
  (if rm_private args then ["--rm-private"] else []) ++
  list_option "--rm-vr" (rm_vr args) ++
  list_option "--rm-group" (rm_group args) ++
  list_option "--rm-tag" (rm_tag args).

(** The values of a list option: at least one, none starting with "-". *)
Definition plain_values (values : option (list string)) : Prop :=
  match values with
  | Some vs => vs ≠ [] ∧ Forall (λ v, plain v = true) vs
  | None => True
  end.

(** ** Example data *)

(** (0018,0012) Contrast/Bolus Agent Sequence with one item that holds
    (0008,0100) Code Value. *)
Definition contrast_agent : Dataset :=
  {[ 0x00180012%N := Seq [ {[ 0x00080100%N := Leaf "SH" "C-B0300" ]} ] ]}.

(** A dataset whose element (0010,0010) is a sequence with one item that
    holds (0010,0020) Patient ID. *)
Definition name_as_sequence : Dataset :=
  {[ 0x00100010%N := Seq [ {[ 0x00100020%N := Leaf "LO" "ID1" ]} ] ]}.

(** The entries of the DICOM data dictionary that the examples use. *)
Definition dictionary_excerpt (keyword : string) : option N :=
  if String.eqb keyword "PatientName" then Some 0x00100010%N
  else if String.eqb keyword "RepetitionTime" then Some 0x00180080%N
  else if String.eqb keyword "EchoTime" then Some 0x00180081%N
  else None.

(** The encoder on the datasets of the examples: their file meta holds no
    group length (0002,0000), and the file written decodes to the dataset
    as it was. *)
Definition dcmwrite_excerpt : Encoder := Complete.

(** File meta information of an MR image and of a DICOMDIR. *)
Definition image_meta : Dataset :=
  {[ 0x00020002%N := Leaf "UI" "1.2.840.10008.5.1.4.1.1.4";
     0x00020010%N := Leaf "UI" "1.2.840.10008.1.2.1" ]}.

Definition directory_meta : Dataset :=
  {[ 0x00020002%N := Leaf "UI" "1.2.840.10008.1.3.10";
     0x00020010%N := Leaf "UI" "1.2.840.10008.1.2.1" ]}.

(** Two images, as in the tests of the program, and a DICOMDIR. *)
Definition scan_a : FileDataset :=
  mkFile {[ 0x00080020%N := Leaf "DA" "20220101";
            0x00100010%N := Leaf "PN" "SURNAME^Firstname";
            0x00100020%N := Leaf "LO" "ABC12345678" ]} image_meta.

Definition scan_b : FileDataset :=
  mkFile {[ 0x00080020%N := Leaf "DA" "20220101";
            0x00100010%N := Leaf "PN" "SURNAME^Firstname";
            0x00180080%N := Leaf "DS" "2000";
            0x00180081%N := Leaf "DS" "10" ]} image_meta.

Definition dicomdir_file : FileDataset :=
  mkFile {[ 0x00041220%N := Seq [] ]} directory_meta.

(** [scan_a] without its Patient's Name. *)
Definition scan_a_anonymous : FileDataset :=
  mkFile {[ 0x00080020%N := Leaf "DA" "20220101";
            0x00100020%N := Leaf "LO" "ABC12345678" ]} image_meta.



(** A directory with a DICOMDIR, a text file and two images. *)
Definition scans : Node :=
  Dir [("scans",
        Dir [("DICOMDIR", File (DicomFile dicomdir_file));
             ("notes.txt", File (Raw "not a DICOM file"));
             ("a.dcm", File (DicomFile scan_a));
             ("b.dcm", File (DicomFile scan_b))])].

(** [scan_a] as the scanner wrote it, with a private element. *)
Definition scan_a_raw : FileDataset :=
  mkFile {[ 0x00080020%N := Leaf "DA" "20220101";
            0x00091001%N := Leaf "LO" "VENDOR";
            0x00100010%N := Leaf "PN" "SURNAME^Firstname";
            0x00100020%N := Leaf "LO" "ABC12345678" ]} image_meta.

(** A directory with one image; the same directory after
    [dcmrmel scans --rm-private], the backup listed after the image; and
    after [dcmrmel scans --rm-tag PatientName] on top of that. *)
Definition scans_before_a_run : Node :=
  Dir [("scans",
        Dir [("a.dcm", File (DicomFile scan_a_raw))])].

Definition scans_after_a_run : Node :=
  Dir [("scans",
        Dir [("a.dcm", File (DicomFile scan_a));
             ("a.dcm.bak", File (DicomFile scan_a_raw))])].

Definition scans_after_two_runs : Node :=
  Dir [("scans",
        Dir [("a.dcm", File (DicomFile scan_a_anonymous));
             ("a.dcm.bak", File (DicomFile scan_a_anonymous));
             ("a.dcm.bak.bak", File (DicomFile scan_a))])].

Definition in_scans (nm : string) : Path := mkPath "" ["scans"; nm].

(** The arguments of [dcmrmel scans --rm-private --rm-vr DA --rm-group 0x0018
    --rm-tag PatientName]. *)
Definition every_flag : Args :=
  mkArgs (Path_of_string "scans") false true
         (Some ["DA"]) (Some ["0x0018"]) (Some ["PatientName"]).

(** The arguments of [dcmrmel scans --rm-private --rm-group 0x0018 --rm-tag
    PatientName]. *)
Definition every_flag_but_vr : Args :=
  mkArgs (Path_of_string "scans") false true
         None (Some ["0x0018"]) (Some ["PatientName"]).

(** The arguments of [dcmrmel scans --rm-group 0x00zz]. *)
Definition bad_group : Args :=
  mkArgs (Path_of_string "scans") false false None (Some ["0x00zz"]) None.


(** * Properties *)

Section PassFacts.

Context (p : DataElement → bool).

(** Unfolding of the pruning of a sequence. *)
Lemma prune_body_seq items : prune_body p (Seq items) = Seq (map (prune p) items).
Proof. reflexivity. Qed.

Lemma prune_lookup d t :
  prune p d !! t =
    match d !! t with
    | Some b => if p (mkElem t b) then None else Some (prune_body p b)
    | None => None
    end.
Proof.
  unfold prune. rewrite map_lookup_filter, lookup_fmap. unfold deletes.
  destruct (d !! t) as [b|] eqn:E; simpl; [|done].
  destruct (p (mkElem t b)) eqn:Hp; simpl.
  - rewrite option_guard_False; [done|]. simpl. rewrite E, Hp. congruence.
  - rewrite option_guard_True; [done|]. simpl. rewrite E. done.
Qed.

Lemma max_depth_lookup (d : Dataset) t b :
  d !! t = Some b →
  body_depth b ≤ map_fold (λ _ b acc, body_depth b `max` acc) 0 d.
Proof.
  revert t b.
  apply (map_fold_weak_ind (λ r (m : Dataset), ∀ t b, m !! t = Some b → body_depth b ≤ r)).
  - intros t b. rewrite lookup_empty. done.
  - intros i x m r Hi IH t b. rewrite lookup_insert.
    case_decide; simplify_eq.
    + intros [= ->]. lia.
    + intros H'. specialize (IH _ _ H'). lia.
Qed.

Lemma body_depth_lookup (d : Dataset) t b :
  d !! t = Some b → body_depth b < depth d.
Proof. intros H. apply max_depth_lookup in H. unfold depth. lia. Qed.

Lemma depth_item items d : d ∈ items → depth d ≤ body_depth (Seq items).
Proof.
  induction 1 as [d l|d d' l _ IH]; simpl in *.
  - unfold depth. lia.
  - lia.
Qed.

Lemma sorted_keys_NoDup (d : Dataset) : NoDup (sorted (keys d)).
Proof.
  unfold sorted, keys. rewrite merge_sort_Permutation. apply NoDup_fst_map_to_list.
Qed.

Lemma elem_of_sorted_keys (d : Dataset) t : t ∈ sorted (keys d) ↔ is_Some (d !! t).
Proof.
  unfold sorted, keys. rewrite merge_sort_Permutation.
  rewrite list_elem_of_fmap. split.
  - intros [[t' b] [-> H]]. apply elem_of_map_to_list in H. simpl. eauto.
  - intros [b H]. exists (t, b). split; [done|]. by apply elem_of_map_to_list.
Qed.

Lemma walk_items_spec w here t items :
  (∀ d here', d ∈ items → walk_ok p d here' (w here' d)) →
  ∀ i, ∃ log,
    walk_items w here t i items = Ok (map (prune p) items, log) ∧ NoDup log ∧
    ∀ v, v ∈ log ↔ ∃ j d, items !! j = Some d ∧ visit_of p d (here ++ [(t, i + j)]) v.
Proof.
  induction items as [|d items IH]; intros Hw i; simpl.
  - exists []. split; [done|]. split; [constructor|].
    intros v. split; [by intros ?%elem_of_nil|]. by intros (j & d & ? & _).
  - destruct (Hw d (here ++ [(t, i)])) as (log1 & -> & ND1 & H1); [left|].
    destruct (IH (λ d' h' Hd, Hw d' h' (list_elem_of_further _ _ _ Hd)) (S i))
      as (log2 & -> & ND2 & H2).
    simpl. exists (log1 ++ log2). split; [done|]. split.
    + apply NoDup_app. split; [done|]. split; [|done].
      intros v Hv1 Hv2. apply H1 in Hv1 as (π1 & E1 & _).
      apply H2 in Hv2 as (j & d' & _ & π2 & E2 & _).
      rewrite E1 in E2. rewrite <- !app_assoc in E2. apply app_inv_head in E2.
      simpl in E2. injection E2. lia.
    + intros v. rewrite elem_of_app, H1, H2. split.
      * intros [Hv|(j & d' & Hj & Hv)].
        -- exists 0, d. rewrite Nat.add_0_r. done.
        -- exists (S j), d'. rewrite <- Nat.add_succ_comm. done.
      * intros (j & d' & Hj & Hv). destruct j as [|j]; simpl in Hj.
        -- left. injection Hj as ->. rewrite Nat.add_0_r in Hv. done.
        -- right. exists j, d'. rewrite Nat.add_succ_comm. done.
Qed.

Lemma walk_body_spec w here t (cur : Dataset) b log0 :
  cur !! t = Some b →
  (∀ items d here', b = Seq items → d ∈ items → walk_ok p d here' (w here' d)) →
  ∃ logt,
    walk_body w (deleting p) here t (cur, log0) =
      Ok (if p (mkElem t b) then delete t cur else <[t := prune_body p b]> cur,
          log0 ++ logt) ∧
    NoDup logt ∧
    ∀ v, v ∈ logt ↔
      v = Visited here (mkElem t b) ∨
      (p (mkElem t b) = false ∧
       ∃ items j d, b = Seq items ∧ items !! j = Some d ∧
                    visit_of p d (here ++ [(t, j)]) v).
Proof.
  intros Hcur Hw. unfold walk_body, getitem. rewrite Hcur. simpl.
  unfold deleting. simpl. destruct (p (mkElem t b)) eqn:Hp.
  - unfold delitem. rewrite Hcur. simpl.
    unfold contains. rewrite lookup_delete_eq.
    rewrite bool_decide_eq_false_2 by (intros [? ?]; done). simpl.
    exists [Visited here (mkElem t b)]. split; [done|]. split.
    + apply NoDup_singleton.
    + intros v. rewrite list_elem_of_singleton. split; [by left|].
      intros [?|[? _]]; [done|congruence].
  - simpl. unfold contains. rewrite Hcur.
    rewrite bool_decide_eq_true_2 by eauto. simpl.
    destruct b as [vr val|items]; unfold VR; simpl.
    + exists [Visited here (mkElem t (Leaf vr val))].
      rewrite insert_id by done. split; [by destruct (String.eqb vr "SQ")|]. split.
      * apply NoDup_singleton.
      * intros v. rewrite list_elem_of_singleton. split; [by left|].
        intros [?|[_ (? & ? & ? & ? & _)]]; [done|congruence].
    + destruct (walk_items_spec w here t items (λ d h Hd, Hw items d h eq_refl Hd) 0)
        as (log' & -> & ND & Hlog).
      simpl. exists (Visited here (mkElem t (Seq items)) :: log').
      split; [by rewrite <- app_assoc|]. split.
      * constructor; [|done]. intros (j & d & _ & π & E & _)%Hlog.
        simpl in E. rewrite <- app_assoc in E.
        apply (f_equal List.length) in E. rewrite length_app in E. simpl in E. lia.
      * intros v. rewrite elem_of_cons, Hlog. split.
        -- intros [->|(j & d & Hj & Hv)]; [by left|]. right. split; [done|].
           exists items, j, d. done.
        -- intros [->|[_ (items' & j & d & [= <-] & Hj & Hv)]]; [by left|].
           right. exists j, d. done.
Qed.

Lemma visit_under_cons t l ds here b v :
  ds !! t = Some b →
  visit_under p (t :: l) ds here v ↔
    (v = Visited here (mkElem t b) ∨
     (p (mkElem t b) = false ∧
       ∃ items j d, b = Seq items ∧ items !! j = Some d ∧
                    visit_of p d (here ++ [(t, j)]) v)) ∨
    visit_under p l ds here v.
Proof.
  intros Hb. split.
  - intros (π & E & K & A & T). apply elem_of_cons in T as [T|T].
    + left. destruct π as [|[t' j] π']; simpl in T; subst.
      * left. unfold element_at in A. simpl in A. rewrite Hb in A.
        destruct v as [pl [tg bd]]; simpl in *. rewrite app_nil_r in E. congruence.
      * right. simpl in K. unfold element_at in A. simpl in A. rewrite Hb in *.
        destruct b as [|items]; [done|].
        apply andb_true_iff in K as [Kp K]. apply negb_true_iff in Kp.
        split; [done|].
        destruct (items !! j) as [d|] eqn:Hj; [|done]. exists items, j, d.
        do 2 (split; [done|]). exists π'. rewrite <- app_assoc. done.
    + right. exists π. done.
  - intros [[->|(Hp & items & j & d & -> & Hj & π' & E & K & A)]|(π & E & K & A & T)].
    + exists []. simpl. rewrite app_nil_r. unfold element_at. simpl.
      rewrite Hb. split_and!; try done. left.
    + exists ((t, j) :: π'). rewrite <- app_assoc in E. split; [done|].
      simpl. unfold element_at. simpl. rewrite Hb, Hp, Hj. simpl. split_and!; try done. left.
    + exists π. split_and!; try done. by right.
Qed.

Lemma walk_loop_spec w here ds l :
  (∀ t items d here', ds !! t = Some (Seq items) → d ∈ items →
     walk_ok p d here' (w here' d)) →
  NoDup l →
  ∀ (cur : Dataset) log0,
    (∀ t, t ∈ l → is_Some (ds !! t) ∧ cur !! t = ds !! t) →
    ∃ (cur' : Dataset) log',
      for_each l (cur, log0) (walk_body w (deleting p) here) = Ok (cur', log0 ++ log') ∧
      (∀ t, cur' !! t = if decide (t ∈ l) then prune p ds !! t else cur !! t) ∧
      NoDup log' ∧ ∀ v, v ∈ log' ↔ visit_under p l ds here v.
Proof.
  intros Hw. induction l as [|t l IH]; intros ND cur log0 Hcur; cbn [for_each].
  - exists cur, []. rewrite app_nil_r. split; [done|]. split; [done|].
    split; [constructor|]. intros v. split; [by intros ?%elem_of_nil|].
    by intros (? & _ & _ & _ & ?%elem_of_nil).
  - apply NoDup_cons in ND as [Ht ND].
    destruct (Hcur t) as [[b Hb] Hc]; [left|]. rewrite Hb in Hc.
    destruct (walk_body_spec w here t cur b log0 Hc) as (logt & -> & NDt & Hlogt).
    { intros items d here' -> Hd. eapply Hw; eauto. }
    simpl.
    set (cur1 := if p (mkElem t b) then delete t cur else <[t := prune_body p b]> cur).
    assert (Hne : ∀ t', t' ≠ t → cur1 !! t' = cur !! t').
    { intros t' Hne. unfold cur1. destruct (p (mkElem t b)).
      - by rewrite lookup_delete_ne.
      - by rewrite lookup_insert_ne. }
    assert (Heq : cur1 !! t = prune p ds !! t).
    { rewrite prune_lookup, Hb. unfold cur1. destruct (p (mkElem t b)).
      - by rewrite lookup_delete_eq.
      - by rewrite lookup_insert_eq. }
    destruct (IH ND cur1 (log0 ++ logt)) as (cur' & log' & -> & Hcur' & ND' & Hlog').
    { intros t' Ht'. destruct (Hcur t') as [? ?]; [by right|]. split; [done|].
      rewrite Hne; [done|]. intros ->. done. }
    exists cur', (logt ++ log'). rewrite <- app_assoc. split; [done|]. split; [|split].
    + intros t'. rewrite Hcur'. destruct (decide (t' = t)) as [->|Hne'].
      * rewrite decide_False by done. rewrite decide_True by left. done.
      * destruct (decide (t' ∈ l)).
        -- rewrite decide_True by (by right). done.
        -- rewrite decide_False by (intros [?|?]%elem_of_cons; done). by apply Hne.
    + apply NoDup_app. split; [done|]. split; [|done].
      intros v Hv1 Hv2. apply Hlog' in Hv2 as (π2 & E2 & _ & _ & T2).
      assert (top_tag π2 (tag (element v)) = t) as Htop; [|congruence].
      apply Hlogt in Hv1 as [->|(_ & items & j & d & _ & _ & π1 & E1 & _)].
      * simpl in E2. rewrite <- (app_nil_r here) in E2 at 1.
        apply app_inv_head in E2 as <-. done.
      * rewrite E1, <- app_assoc in E2. apply app_inv_head in E2 as <-. done.
    + intros v. rewrite elem_of_app, Hlogt, Hlog'. symmetry. by apply visit_under_cons.
Qed.

Lemma visit_under_keys ds here v :
  visit_under p (sorted (keys ds)) ds here v ↔ visit_of p ds here v.
Proof.
  split.
  - intros (π & ? & ? & ? & _). by exists π.
  - intros (π & E & K & A). exists π. split_and!; try done.
    apply elem_of_sorted_keys. destruct π as [|[t j] π']; simpl.
    + unfold element_at in A. simpl in A. eauto.
    + simpl in K. destruct (ds !! t); [eauto|done].
Qed.

Lemma walk_fuel_spec fuel :
  ∀ here ds, depth ds ≤ fuel → walk_ok p ds here (walk_fuel fuel (deleting p) here ds).
Proof.
  induction fuel as [|fuel IH]; intros here ds Hd.
  - unfold depth in Hd. lia.
  - simpl.
    destruct (walk_loop_spec (walk_fuel fuel (deleting p)) here ds (sorted (keys ds)))
      with (cur := ds) (log0 := @nil Visit) as (cur' & log' & -> & Hcur' & ND & Hlog).
    + intros t items d here' Ht Hd'. apply IH.
      apply body_depth_lookup in Ht. apply depth_item in Hd'. lia.
    + apply sorted_keys_NoDup.
    + intros t Ht. split; [|done]. by apply elem_of_sorted_keys.
    + simpl. exists log'. split; [|split; [done|]].
      * f_equal. f_equal. apply map_eq. intros t. rewrite Hcur'.
        case_decide as Hin; [done|].
        rewrite prune_lookup.
        destruct (ds !! t) eqn:E; [|done].
        exfalso. apply Hin, elem_of_sorted_keys. eauto.
      * intros v. rewrite Hlog. apply visit_under_keys.
Qed.

Lemma walk_deleting ds : walk_ok p ds [] (walk (deleting p) ds).
Proof. apply walk_fuel_spec. lia. Qed.

Lemma dataset_at_prune ds π :
  dataset_at (prune p ds) π =
    if kept_path p ds π then prune p <$> dataset_at ds π else None.
Proof.
  revert ds. induction π as [|[t i] π IH]; intros ds; simpl; [done|].
  rewrite prune_lookup. destruct (ds !! t) as [[vr v|items]|] eqn:E; simpl.
  - by destruct (p _).
  - destruct (p _); simpl; [done|].
    rewrite list_lookup_fmap. destruct (items !! i) as [d|]; simpl; [apply IH|done].
  - done.
Qed.

Lemma element_at_prune ds π t :
  element_at (prune p ds) π t =
    if kept_path p ds π then
      match element_at ds π t with
      | Some b => if p (mkElem t b) then None else Some (prune_body p b)
      | None => None
      end
    else None.
Proof.
  unfold element_at. rewrite dataset_at_prune.
  destruct (kept_path p ds π); [|done].
  destruct (dataset_at ds π) as [d|]; simpl; [|done]. apply prune_lookup.
Qed.

Lemma same_element_prune_body b : same_element b (prune_body p b).
Proof. destruct b; simpl; [done|]. by rewrite length_map. Qed.

Lemma same_element_refl b : same_element b b.
Proof. by destruct b. Qed.

Lemma VR_prune_body t b : VR (mkElem t (prune_body p b)) = VR (mkElem t b).
Proof. by destruct b. Qed.

Lemma kept_path_dataset_at ds π :
  kept_path p ds π = true → is_Some (dataset_at ds π).
Proof.
  revert ds. induction π as [|[t i] π IH]; intros ds; simpl; [eauto|].
  destruct (ds !! t) as [[|items]|]; try done.
  intros [_ H]%andb_true_iff. destruct (items !! i); [simpl; eauto|done].
Qed.

(** Induction over the nesting of datasets. *)
Lemma dataset_nested_ind (P : Dataset → Prop) :
  (∀ ds, (∀ t items d, ds !! t = Some (Seq items) → d ∈ items → P d) → P ds) →
  ∀ ds, P ds.
Proof.
  intros step ds. remember (depth ds) as n eqn:Hn.
  revert ds Hn. induction n as [n IH] using lt_wf_ind. intros ds ->.
  apply step. intros t items d Ht Hd. apply (IH (depth d)); [|done].
  apply body_depth_lookup in Ht. apply depth_item in Hd. lia.
Qed.

Lemma prune_nothing ds :
  (∀ π t b, element_at ds π t = Some b → p (mkElem t b) = false) →
  prune p ds = ds.
Proof.
  induction ds as [ds IH] using dataset_nested_ind. intros Hno.
  apply map_eq. intros t. rewrite prune_lookup.
  destruct (ds !! t) as [b|] eqn:E; [|done].
  rewrite (Hno [] t b) by (unfold element_at; simpl; done).
  f_equal. destruct b as [|items]; simpl; [done|]. f_equal.
  rewrite <- (map_id items) at 2. apply map_ext_in. intros d Hd.
  apply list_elem_of_In in Hd. apply (IH t items d E Hd).
  intros π t' b' Hel. apply list_elem_of_lookup in Hd as [j Hj].
  apply (Hno ((t, j) :: π) t' b'). unfold element_at in *. simpl. rewrite E, Hj. done.
Qed.

Lemma prune_idempotent ds : shallow p → prune p (prune p ds) = prune p ds.
Proof.
  intros Hs. induction ds as [ds IH] using dataset_nested_ind.
  apply map_eq. intros t. rewrite !prune_lookup.
  destruct (ds !! t) as [b|] eqn:E; [|done].
  destruct (p (mkElem t b)) eqn:Hp; [done|].
  rewrite (Hs (mkElem t (prune_body p b)) (mkElem t b)), Hp
    by (simpl; auto using VR_prune_body).
  f_equal. destruct b as [|items]; simpl; [done|]. f_equal.
  rewrite map_map. apply map_ext_in. intros d Hd. apply list_elem_of_In in Hd.
  apply (IH t items d E Hd).
Qed.

End PassFacts.

(** ** The program's passes as prunings *)

Lemma remove_private_tags_prune ds :
  walk_ok private_pred ds [] (remove_private_tags ds).
Proof. apply (walk_deleting private_pred). Qed.

Lemma remove_vr_tags_prune ds vrs :
  walk_ok (vr_pred vrs) ds [] (remove_vr_tags ds vrs).
Proof. apply (walk_deleting (vr_pred vrs)). Qed.

Lemma remove_tags_prune ds tags :
  walk_ok (tag_pred tags) ds [] (remove_tags ds tags).
Proof. apply (walk_deleting (tag_pred tags)). Qed.

Lemma remove_group_tags_prune ds groups_to_remove group_rm :
  group_numbers groups_to_remove = Ok group_rm →
  walk_ok (group_pred group_rm) ds [] (remove_group_tags ds groups_to_remove).
Proof.
  intros H. unfold remove_group_tags. rewrite H. simpl.
  apply (walk_deleting (group_pred group_rm)).
Qed.

(** A position that exists is kept by a pass that deletes no sequence on
    the way. *)
Lemma kept_path_by_tags (q : BaseTag → bool) p ds π :
  (∀ e, p e = q (tag e)) →
  is_Some (dataset_at ds π) →
  (∀ ti, ti ∈ π → q ti.1 = false) →
  kept_path p ds π = true.
Proof.
  intros Hq. revert ds. induction π as [|[t i] π IH]; intros ds Hd Hπ; simpl; [done|].
  simpl in Hd. destruct (ds !! t) as [[|items]|]; try (by destruct Hd).
  rewrite Hq. simpl. pose proof (Hπ (t, i) ltac:(left)) as Ht. simpl in Ht. rewrite Ht. simpl.
  destruct (items !! i) as [d|]; simpl in *; [|by destruct Hd].
  apply IH; [done|]. intros ti Hti. apply Hπ. by right.
Qed.

Lemma kept_path_no_sequence p ds π :
  (∀ t items, p (mkElem t (Seq items)) = false) →
  is_Some (dataset_at ds π) →
  kept_path p ds π = true.
Proof.
  intros Hq. revert ds. induction π as [|[t i] π IH]; intros ds Hd; simpl; [done|].
  simpl in Hd. destruct (ds !! t) as [[|items]|]; try (by destruct Hd).
  rewrite Hq. simpl.
  destruct (items !! i) as [d|]; simpl in *; [|by destruct Hd]. by apply IH.
Qed.

Lemma element_at_dataset_at ds π t b :
  element_at ds π t = Some b → is_Some (dataset_at ds π).
Proof. unfold element_at. destruct (dataset_at ds π); [eauto|done]. Qed.

(** What is left after a pass comes from the dataset before it. *)
Lemma element_at_prune_Some p ds π t b' :
  element_at (prune p ds) π t = Some b' →
  ∃ b, element_at ds π t = Some b ∧ p (mkElem t b) = false ∧
       kept_path p ds π = true ∧ b' = prune_body p b.
Proof.
  rewrite element_at_prune. destruct (kept_path p ds π); [|done].
  destruct (element_at ds π t) as [b|]; [|done].
  destruct (p (mkElem t b)) eqn:Hp; [done|]. intros [= <-]. eauto.
Qed.

Lemma element_at_prune_kept p ds π t b :
  element_at ds π t = Some b → p (mkElem t b) = false → kept_path p ds π = true →
  element_at (prune p ds) π t = Some (prune_body p b).
Proof. intros H Hp Hk. by rewrite element_at_prune, Hk, H, Hp. Qed.

Lemma element_at_prune_gone p ds π t b :
  element_at ds π t = Some b → p (mkElem t b) = true →
  element_at (prune p ds) π t = None.
Proof.
  intros H Hp. rewrite element_at_prune, H, Hp. by destruct (kept_path p ds π).
Qed.

Lemma shallow_vr vrs : shallow (vr_pred vrs).
Proof. intros e e' _ H. unfold vr_pred. by rewrite H. Qed.

Lemma shallow_tag tags : shallow (tag_pred tags).
Proof. intros e e' H _. unfold tag_pred. by rewrite H. Qed.

Lemma shallow_group groups : shallow (group_pred groups).
Proof. intros e e' H _. unfold group_pred. by rewrite H. Qed.

(** Claim C8, amended.  For every dataset and every removal predicate, the
    walk with the deleting callback returns (it never raises and the fuel
    suffices); its result is the pruned dataset; no element is visited
    twice; the elements visited are exactly those that no removed sequence
    holds, at every depth, so in particular every element of the walked
    dataset itself, whether or not a sibling was deleted before it; and a
    pass that matches nothing leaves the dataset as it was.  The three
    callbacks of the program are deleting callbacks. *)
Theorem walk_visits_every_reachable_element_once (p : DataElement → bool) (ds : Dataset) :
  ∃ log,
    walk (deleting p) ds = Ok (prune p ds, log) ∧
    NoDup ((λ v, (place v, tag (element v))) <$> log) ∧
    (∀ π t b, Visited π (mkElem t b) ∈ log ↔
                kept_path p ds π = true ∧ element_at ds π t = Some b) ∧
    (∀ t b, ds !! t = Some b → Visited [] (mkElem t b) ∈ log) ∧
    ((∀ π t b, element_at ds π t = Some b → p (mkElem t b) = false) →
     prune p ds = ds) ∧
    remove_tags_callback = (λ tags, deleting (tag_pred tags)) ∧
    remove_vr_tags_callback = (λ vrs, deleting (vr_pred vrs)) ∧
    remove_group_tags_callback = (λ groups, deleting (group_pred groups)).
Proof.
  destruct (walk_deleting p ds) as (log & Hw & ND & Hlog).
  assert (Hmem : ∀ π t b, Visited π (mkElem t b) ∈ log ↔
                   kept_path p ds π = true ∧ element_at ds π t = Some b).
  { intros π t b. rewrite Hlog. unfold visit_of. simpl. split.
    - intros (π' & <- & ? & ?). done.
    - intros [? ?]. exists π. done. }
  exists log. split_and!; try done.
  - apply NoDup_fmap_2_strong; [|done].
    intros [π [t b]] [π' [t' b']] H1 H2 [= <- <-]. simpl in *.
    apply Hmem in H1 as [_ H1]. apply Hmem in H2 as [_ H2]. congruence.
  - intros t b Hb. apply Hmem. split; [done|]. unfold element_at. simpl. done.
  - apply prune_nothing.
Qed.

(** What a pass that decides by the tag alone does to a dataset. *)
Lemma pass_by_tag (q : BaseTag → bool) p (d : Dataset) :
  (∀ e, p e = q (tag e)) →
  (∀ π t b', element_at (prune p d) π t = Some b' →
     q t = false ∧ ∃ b, element_at d π t = Some b ∧ same_element b b') ∧
  (∀ π t b, element_at d π t = Some b → q t = false →
     (∀ ti, ti ∈ π → q ti.1 = false) →
     ∃ b', element_at (prune p d) π t = Some b' ∧ same_element b b') ∧
  (∀ π t b, element_at d π t = Some b → q t = true →
     element_at (prune p d) π t = None) ∧
  ((∀ π t b, element_at d π t = Some b → q t = false) → prune p d = d) ∧
  prune p (prune p d) = prune p d.
Proof.
  intros Hq. split_and!.
  - intros π t b' (b & H & E & _ & ->)%element_at_prune_Some.
    rewrite Hq in E. split; [done|]. exists b. split; [done|apply same_element_prune_body].
  - intros π t b H Ht Hπ. exists (prune_body p b). split; [|apply same_element_prune_body].
    apply element_at_prune_kept; [done|by rewrite Hq|].
    eapply kept_path_by_tags; [done| |done]. by eapply element_at_dataset_at.
  - intros π t b H Ht. eapply element_at_prune_gone; [done|]. by rewrite Hq.
  - intros Hno. apply prune_nothing. intros π t b H. rewrite Hq. simpl. eauto.
  - apply prune_idempotent. intros e e' Ht _. by rewrite !Hq, Ht.
Qed.

Lemma group_pred_0018 e :
  group_pred [24%Z] e = bool_decide (group (tag e) = 0x0018%N).
Proof.
  unfold group_pred. apply bool_decide_ext. rewrite list_elem_of_singleton.
  split; [intros H; apply (inj Z.of_N); exact H|intros ->; done].
Qed.

Lemma tag_pred_single t0 e : tag_pred [t0] e = bool_decide (tag e = t0).
Proof. unfold tag_pred. apply bool_decide_ext. apply list_elem_of_singleton. Qed.

Section Claims.

Context (tag_for_keyword : string → option N).

(** Claim C1.  With [--rm-vr DA] as the only removal flag, the removal part
    of the loop body ends normally on every file dataset, and in both of
    its datasets, the main one and the file meta: every element of VR "DA",
    at whatever depth of sequence items, is gone; every element of another
    VR is still at its place with its VR and value (a sequence with the
    same number of items); and every element left was there before and is
    not of VR "DA". *)
Theorem rm_vr_DA_removes_exactly_the_DA_elements
    (pth : Path) (backup_off : bool) (ds : FileDataset) :
  ∃ ds' log,
    remove_elements tag_for_keyword
      (mkArgs pth backup_off false (Some ["DA"]) None None) ds = Ok (ds', log) ∧
    ∀ part : FileDataset → Dataset, part = dataset ∨ part = file_meta →
      (∀ π t b, element_at (part ds) π t = Some b →
         if String.eqb (VR (mkElem t b)) "DA"
         then element_at (part ds') π t = None
         else ∃ b', element_at (part ds') π t = Some b' ∧ same_element b b') ∧
      (∀ π t b', element_at (part ds') π t = Some b' →
         VR (mkElem t b') ≠ "DA" ∧
         ∃ b, element_at (part ds) π t = Some b ∧ same_element b b').
Proof.
  unfold remove_elements. simpl.
  destruct (remove_vr_tags_prune (dataset ds) ["DA"]) as (l1 & -> & _ & _).
  destruct (remove_vr_tags_prune (file_meta ds) ["DA"]) as (l2 & -> & _ & _).
  simpl. eexists _, _. split; [done|].
  set (p := vr_pred ["DA"]).
  assert (Hp : ∀ t b, p (mkElem t b) = String.eqb (VR (mkElem t b)) "DA").
  { intros t b. unfold p, vr_pred.
    destruct (String.eqb_spec (VR (mkElem t b)) "DA") as [E|Hne].
    - apply bool_decide_eq_true_2. rewrite E. left.
    - apply bool_decide_eq_false_2. by intros ?%list_elem_of_singleton. }
  assert (Hgen : ∀ d : Dataset,
    (∀ π t b, element_at d π t = Some b →
         if String.eqb (VR (mkElem t b)) "DA"
         then element_at (prune p d) π t = None
         else ∃ b', element_at (prune p d) π t = Some b' ∧ same_element b b') ∧
    (∀ π t b', element_at (prune p d) π t = Some b' →
         VR (mkElem t b') ≠ "DA" ∧
         ∃ b, element_at d π t = Some b ∧ same_element b b')).
  { intros d. split.
    - intros π t b H. rewrite <- Hp. destruct (p (mkElem t b)) eqn:E.
      + by eapply element_at_prune_gone.
      + exists (prune_body p b). split; [|apply same_element_prune_body].
        apply element_at_prune_kept; [done..|].
        apply kept_path_no_sequence; [|by eapply element_at_dataset_at].
        intros t' items. by rewrite Hp.
    - intros π t b' (b & H & E & _ & ->)%element_at_prune_Some. split.
      + rewrite VR_prune_body. rewrite Hp in E. by apply String.eqb_neq.
      + exists b. split; [done|apply same_element_prune_body]. }
  intros part [->| ->]; simpl; apply Hgen.
Qed.

(** Claim C2 does not hold as stated.  In [contrast_agent] the sequence
    (0018,0012) has an item with the element (0008,0100), of group 0008.
    [--rm-group 0x0018] deletes the sequence and what it holds goes with
    it: (0008,0100) is no longer in the dataset, and the callback was never
    invoked on it. *)
Lemma rm_group_0018_drops_nested_elements_of_other_groups :
  ∃ ds' log,
    remove_elements dictionary_excerpt
      (mkArgs (Path_of_string "ct.dcm") false false None (Some ["0x0018"]) None)
      (mkFile contrast_agent ∅) = Ok (ds', log) ∧
    element_at contrast_agent [(0x00180012%N, 0)] 0x00080100%N
      = Some (Leaf "SH" "C-B0300") ∧
    group 0x00080100%N = 0x0008%N ∧
    element_at (dataset ds') [(0x00180012%N, 0)] 0x00080100%N = None ∧
    (∀ v, v ∈ log → tag (element v.2) ≠ 0x00080100%N).
Proof.
  eexists _, _. split; [vm_compute; reflexivity|].
  split_and!; try (vm_compute; reflexivity).
  intros v Hv. repeat (apply elem_of_cons in Hv as [->|Hv]; [vm_compute; congruence|]).
  by apply elem_of_nil in Hv.
Qed.

(** Claim C2, amended.  With [--rm-group 0x0018] as the only removal flag
    the removal part ends normally and, in both datasets of the file: every
    element left was there before and is not of group 0018; an element of
    another group stays where it is unless a sequence of group 0018 holds
    it; every element of group 0018 is gone; and a dataset with no element
    of group 0018 at any depth is unchanged. *)
Theorem rm_group_0018_removes_group_and_contents
    (pth : Path) (backup_off : bool) (ds : FileDataset) :
  ∃ ds' log,
    remove_elements tag_for_keyword
      (mkArgs pth backup_off false None (Some ["0x0018"]) None) ds = Ok (ds', log) ∧
    ∀ part : FileDataset → Dataset, part = dataset ∨ part = file_meta →
      (∀ π t b', element_at (part ds') π t = Some b' →
         group t ≠ 0x0018%N ∧
         ∃ b, element_at (part ds) π t = Some b ∧ same_element b b') ∧
      (∀ π t b, element_at (part ds) π t = Some b → group t ≠ 0x0018%N →
         (∀ ti, ti ∈ π → group ti.1 ≠ 0x0018%N) →
         ∃ b', element_at (part ds') π t = Some b' ∧ same_element b b') ∧
      (∀ π t b, element_at (part ds) π t = Some b → group t = 0x0018%N →
         element_at (part ds') π t = None) ∧
      ((∀ π t b, element_at (part ds) π t = Some b → group t ≠ 0x0018%N) →
       part ds' = part ds).
Proof.
  unfold remove_elements. simpl.
  destruct (remove_group_tags_prune (dataset ds) ["0x0018"] [24%Z] eq_refl)
    as (l1 & -> & _ & _).
  destruct (remove_group_tags_prune (file_meta ds) ["0x0018"] [24%Z] eq_refl)
    as (l2 & -> & _ & _).
  simpl. eexists _, _. split; [done|].
  assert (Hgen : ∀ d : Dataset,
    (∀ π t b', element_at (prune (group_pred [24%Z]) d) π t = Some b' →
         group t ≠ 0x0018%N ∧
         ∃ b, element_at d π t = Some b ∧ same_element b b') ∧
      (∀ π t b, element_at d π t = Some b → group t ≠ 0x0018%N →
         (∀ ti, ti ∈ π → group ti.1 ≠ 0x0018%N) →
         ∃ b', element_at (prune (group_pred [24%Z]) d) π t = Some b' ∧ same_element b b') ∧
      (∀ π t b, element_at d π t = Some b → group t = 0x0018%N →
         element_at (prune (group_pred [24%Z]) d) π t = None) ∧
      ((∀ π t b, element_at d π t = Some b → group t ≠ 0x0018%N) →
       prune (group_pred [24%Z]) d = d)).
  { intros d.
    destruct (pass_by_tag (λ t, bool_decide (group t = 0x0018%N)) (group_pred [24%Z]) d
                group_pred_0018) as (Ha & Hb & Hc & Hd & _).
    split_and!.
    - intros π t b' H. destruct (Ha π t b' H) as [Hq ?]. split; [|done].
      by apply bool_decide_eq_false in Hq.
    - intros π t b H Ht Hπ. apply (Hb π t b H).
      + by apply bool_decide_eq_false.
      + intros ti Hti. apply bool_decide_eq_false. by apply Hπ.
    - intros π t b H Ht. apply (Hc π t b H). by apply bool_decide_eq_true.
    - intros Hno. apply Hd. intros π t b H. apply bool_decide_eq_false. eauto. }
  intros part [->| ->]; simpl; apply Hgen.
Qed.

(** Claim C3 does not hold as stated.  In [name_as_sequence] the element
    (0010,0010) is a sequence whose item holds (0010,0020).
    [--rm-tag PatientName] deletes the sequence, and (0010,0020), which is
    not the PatientName element, is gone with it. *)
Lemma rm_tag_PatientName_drops_what_a_sequence_holds :
  ∃ ds' log,
    remove_elements dictionary_excerpt
      (mkArgs (Path_of_string "x.dcm") false false None None (Some ["PatientName"]))
      (mkFile name_as_sequence ∅) = Ok (ds', log) ∧
    Tag dictionary_excerpt "PatientName" = Ok 0x00100010%N ∧
    element_at name_as_sequence [(0x00100010%N, 0)] 0x00100020%N
      = Some (Leaf "LO" "ID1") ∧
    element_at (dataset ds') [(0x00100010%N, 0)] 0x00100020%N = None.
Proof.
  eexists _, _. split; [vm_compute; reflexivity|].
  split; [vm_compute; reflexivity|]. split; [vm_compute; reflexivity|].
  vm_compute. reflexivity.
Qed.

(** Claim C3, amended.  When the data dictionary gives (0010,0010) for the
    keyword PatientName, the removal part with [--rm-tag PatientName] as the
    only removal flag ends normally; run again on its own result it returns
    that result unchanged; and in both datasets of the file: every element
    left was there before and is not (0010,0010); an element with another
    tag stays where it is unless a sequence with tag (0010,0010) holds it;
    every element (0010,0010), at any depth, is gone; and a dataset that has
    no such element is unchanged. *)
Theorem rm_tag_PatientName_removes_it_and_is_idempotent
    (pth : Path) (backup_off : bool) (ds : FileDataset) :
  tag_for_keyword "PatientName" = Some 0x00100010%N →
  ∃ ds' log,
    remove_elements tag_for_keyword
      (mkArgs pth backup_off false None None (Some ["PatientName"])) ds = Ok (ds', log) ∧
    (∃ log', remove_elements tag_for_keyword
               (mkArgs pth backup_off false None None (Some ["PatientName"])) ds'
             = Ok (ds', log')) ∧
    ∀ part : FileDataset → Dataset, part = dataset ∨ part = file_meta →
      (∀ π t b', element_at (part ds') π t = Some b' →
         t ≠ 0x00100010%N ∧
         ∃ b, element_at (part ds) π t = Some b ∧ same_element b b') ∧
      (∀ π t b, element_at (part ds) π t = Some b → t ≠ 0x00100010%N →
         (∀ ti, ti ∈ π → ti.1 ≠ 0x00100010%N) →
         ∃ b', element_at (part ds') π t = Some b' ∧ same_element b b') ∧
      (∀ π b, element_at (part ds) π 0x00100010%N = Some b →
         element_at (part ds') π 0x00100010%N = None) ∧
      ((∀ π, element_at (part ds) π 0x00100010%N = None) → part ds' = part ds).
Proof.
  intros Hdict.
  assert (Htags : tags_to_remove tag_for_keyword ["PatientName"] = Ok [0x00100010%N]).
  { unfold tags_to_remove. cbn [for_each]. unfold Tag.
    change (int16 "PatientName") with (@Raise Z ValueError). rewrite Hdict. reflexivity. }
  set (p := tag_pred [0x00100010%N]).
  assert (Hrun : ∀ fd : FileDataset, ∃ log,
    remove_elements tag_for_keyword
      (mkArgs pth backup_off false None None (Some ["PatientName"])) fd
    = Ok (mkFile (prune p (dataset fd)) (prune p (file_meta fd)), log)).
  { intros fd. unfold remove_elements. simpl. rewrite Htags. simpl.
    destruct (remove_tags_prune (dataset fd) [0x00100010%N]) as (l1 & -> & _ & _).
    destruct (remove_tags_prune (file_meta fd) [0x00100010%N]) as (l2 & -> & _ & _).
    simpl. eauto. }
  destruct (Hrun ds) as [log Hlog]. eexists _, log. split; [exact Hlog|]. split.
  - destruct (Hrun (mkFile (prune p (dataset ds)) (prune p (file_meta ds)))) as [log' Hlog'].
    exists log'. rewrite Hlog'. simpl.
    destruct (pass_by_tag (λ t, bool_decide (t = 0x00100010%N)) p (dataset ds)
                (tag_pred_single _)) as (_ & _ & _ & _ & ->).
    destruct (pass_by_tag (λ t, bool_decide (t = 0x00100010%N)) p (file_meta ds)
                (tag_pred_single _)) as (_ & _ & _ & _ & ->).
    done.
  - assert (Hd : ∀ d : Dataset,
      (∀ π t b', element_at (prune p d) π t = Some b' →
         t ≠ 0x00100010%N ∧ ∃ b, element_at d π t = Some b ∧ same_element b b') ∧
      (∀ π t b, element_at d π t = Some b → t ≠ 0x00100010%N →
         (∀ ti, ti ∈ π → ti.1 ≠ 0x00100010%N) →
         ∃ b', element_at (prune p d) π t = Some b' ∧ same_element b b') ∧
      (∀ π b, element_at d π 0x00100010%N = Some b →
         element_at (prune p d) π 0x00100010%N = None) ∧
      ((∀ π, element_at d π 0x00100010%N = None) → prune p d = d)).
    { intros d.
      destruct (pass_by_tag (λ t, bool_decide (t = 0x00100010%N)) p d
                  (tag_pred_single _)) as (Ha & Hb & Hc & Hd & _).
      split_and!.
      - intros π t b' H. destruct (Ha π t b' H) as [Hq ?]. split; [|done].
        by apply bool_decide_eq_false in Hq.
      - intros π t b H Ht Hπ. apply (Hb π t b H).
        + by apply bool_decide_eq_false.
        + intros ti Hti. apply bool_decide_eq_false. by apply Hπ.
      - intros π b H. apply (Hc π _ b H). by apply bool_decide_eq_true.
      - intros Hno. apply Hd. intros π t b H. apply bool_decide_eq_false.
        intros ->. rewrite Hno in H. done. }
    intros part [->| ->]; simpl; apply Hd.
Qed.

End Claims.

(** The amended claim C3 at [name_as_sequence], with the dictionary of the
    examples. *)
Lemma rm_tag_PatientName_witness :
  dictionary_excerpt "PatientName" = Some 0x00100010%N ∧
  ∃ ds' log,
    remove_elements dictionary_excerpt
      (mkArgs (Path_of_string "x.dcm") false false None None (Some ["PatientName"]))
      (mkFile name_as_sequence ∅) = Ok (ds', log).
Proof.
  split; [reflexivity|].
  destruct (rm_tag_PatientName_removes_it_and_is_idempotent dictionary_excerpt
              (Path_of_string "x.dcm") false (mkFile name_as_sequence ∅) eq_refl)
    as (ds' & log & H & _).
  exists ds', log. exact H.
Defined.

(** ** The order of the passes *)

Section Order.

Context (tag_for_keyword : string → option N).

Lemma logged_walk_ok k on p d r :
  walk_ok p d [] r →
  ∃ l, logged k on r = Ok (prune p d, tagged k on l) ∧ record_of (Some p) d l.
Proof. intros (l & -> & ND & H). exists l. simpl. done. Qed.

(** Claim C4.  When the group and the tag arguments decode, the removal
    part returns the dataset obtained by private-tag removal on the main
    dataset only, then VR removal, then group removal, then tag removal,
    each of the last three on the main dataset and on the file meta and
    each on the result of the pass before it; a pass whose flag is absent
    changes nothing.  The callback invocations come in that same order,
    main dataset before file meta, and those of each pass are the visits of
    a walk over the input of that pass.  When an argument does not decode,
    the removal part returns no dataset. *)
Theorem passes_run_in_fixed_order (args : Args) (ds : FileDataset) :
  match decoded_groups args, decoded_tags tag_for_keyword args with
  | Ok groups, Ok tags =>
      let P := if rm_private args then Some private_pred else None in
      let V := vr_pred <$> rm_vr args in
      let G := group_pred <$> groups in
      let T := tag_pred <$> tags in
      let main1 := stage P (dataset ds) in
      let main2 := stage V main1 in
      let meta2 := stage V (file_meta ds) in
      let main3 := stage G main2 in
      let meta3 := stage G meta2 in
      ∃ l1 l2 l3 l4 l5 l6 l7,
        remove_elements tag_for_keyword args ds =
          Ok (mkFile (stage T main3) (stage T meta3),
              tagged PrivatePass MainDataset l1 ++
              tagged VRPass MainDataset l2 ++ tagged VRPass FileMeta l3 ++
              tagged GroupPass MainDataset l4 ++ tagged GroupPass FileMeta l5 ++
              tagged TagPass MainDataset l6 ++ tagged TagPass FileMeta l7) ∧
        record_of P (dataset ds) l1 ∧
        record_of V main1 l2 ∧ record_of V (file_meta ds) l3 ∧
        record_of G main2 l4 ∧ record_of G meta2 l5 ∧
        record_of T main3 l6 ∧ record_of T meta3 l7
  | _, _ => ∀ r, remove_elements tag_for_keyword args ds ≠ Ok r
  end.
Proof.
  destruct args as [pth nb priv vrs gs ts]. destruct ds as [main meta].
  unfold decoded_groups, decoded_tags, remove_elements. simpl.
  (* the private pass *)
  assert (∃ l1, (if priv
                 then '(main', l) ← logged PrivatePass MainDataset (remove_private_tags main);
                      Ok (mkFile main' meta, l)
                 else Ok (mkFile main meta, []))
                = Ok (mkFile (stage (if priv then Some private_pred else None) main) meta,
                      tagged PrivatePass MainDataset l1) ∧
                record_of (if priv then Some private_pred else None) main l1)
    as (l1 & -> & R1).
  { destruct priv.
    - destruct (logged_walk_ok PrivatePass MainDataset _ _ _
                  (remove_private_tags_prune main)) as (l & -> & R). simpl. eauto.
    - exists []. done. }
  simpl. set (main1 := stage (if priv then Some private_pred else None) main).
  (* the VR passes *)
  assert (∃ l2 l3, match vrs with
                   | Some vrs =>
                       '(main', la) ← logged VRPass MainDataset (remove_vr_tags main1 vrs);
                       '(meta', lb) ← logged VRPass FileMeta (remove_vr_tags meta vrs);
                       Ok (mkFile main' meta', tagged PrivatePass MainDataset l1 ++ la ++ lb)
                   | None => Ok (mkFile main1 meta, tagged PrivatePass MainDataset l1)
                   end
                   = Ok (mkFile (stage (vr_pred <$> vrs) main1) (stage (vr_pred <$> vrs) meta),
                         tagged PrivatePass MainDataset l1 ++
                         tagged VRPass MainDataset l2 ++ tagged VRPass FileMeta l3) ∧
                   record_of (vr_pred <$> vrs) main1 l2 ∧
                   record_of (vr_pred <$> vrs) meta l3)
    as (l2 & l3 & -> & R2 & R3).
  { destruct vrs as [vrs|]; simpl.
    - destruct (logged_walk_ok VRPass MainDataset _ _ _
                  (remove_vr_tags_prune main1 vrs)) as (la & -> & Ra).
      destruct (logged_walk_ok VRPass FileMeta _ _ _
                  (remove_vr_tags_prune meta vrs)) as (lb & -> & Rb).
      simpl. eauto.
    - exists [], []. simpl. rewrite app_nil_r. done. }
  simpl. set (main2 := stage (vr_pred <$> vrs) main1).
  set (meta2 := stage (vr_pred <$> vrs) meta).
  set (log2 := tagged PrivatePass MainDataset l1 ++
               tagged VRPass MainDataset l2 ++ tagged VRPass FileMeta l3).
  (* the group passes *)
  destruct gs as [gs|]; simpl.
  - unfold remove_group_tags.
    destruct (group_numbers gs) as [groups|e|] eqn:Hg; simpl; [|congruence..].
    destruct (logged_walk_ok GroupPass MainDataset _ _ _
                (walk_deleting (group_pred groups) main2)) as (l4 & H4 & R4).
    destruct (logged_walk_ok GroupPass FileMeta _ _ _
                (walk_deleting (group_pred groups) meta2)) as (l5 & H5 & R5).
    change (walk (remove_group_tags_callback groups)) with (walk (deleting (group_pred groups))).
    rewrite H4. simpl. rewrite H5. simpl.
    destruct ts as [[|t ts]|]; simpl.
    + exists l1, l2, l3, l4, l5, [], [].
      unfold log2. simpl. rewrite <- ?app_assoc, ?app_nil_r. done.
    + destruct (tags_to_remove tag_for_keyword (t :: ts)) as [tags|e|] eqn:Ht;
        simpl; [|congruence..].
      destruct (logged_walk_ok TagPass MainDataset _ _ _
                  (remove_tags_prune (prune (group_pred groups) main2) tags))
        as (l6 & -> & R6).
      destruct (logged_walk_ok TagPass FileMeta _ _ _
                  (remove_tags_prune (prune (group_pred groups) meta2) tags))
        as (l7 & -> & R7).
      simpl. exists l1, l2, l3, l4, l5, l6, l7.
      unfold log2. simpl. rewrite <- ?app_assoc, ?app_nil_r. done.
    + exists l1, l2, l3, l4, l5, [], [].
      unfold log2. simpl. rewrite <- ?app_assoc, ?app_nil_r. done.
  - destruct ts as [[|t ts]|]; simpl.
    + exists l1, l2, l3, [], [], [], [].
      unfold log2. simpl. rewrite <- ?app_assoc, ?app_nil_r. done.
    + destruct (tags_to_remove tag_for_keyword (t :: ts)) as [tags|e|] eqn:Ht;
        simpl; [|congruence..].
      destruct (logged_walk_ok TagPass MainDataset _ _ _
                  (remove_tags_prune main2 tags)) as (l6 & -> & R6).
      destruct (logged_walk_ok TagPass FileMeta _ _ _
                  (remove_tags_prune meta2 tags)) as (l7 & -> & R7).
      simpl. exists l1, l2, l3, [], [], l6, l7.
      unfold log2. simpl. rewrite <- ?app_assoc, ?app_nil_r. done.
    + exists l1, l2, l3, [], [], [], [].
      unfold log2. simpl. rewrite <- ?app_assoc, ?app_nil_r. done.
Qed.

End Order.

(** ** The file system *)

Lemma entry_lookup_set_eq nm n es : entry_lookup nm (entry_set nm n es) = Some n.
Proof.
  induction es as [|[nm' n'] es IH]; simpl.
  - by rewrite String.eqb_refl.
  - destruct (String.eqb nm nm') eqn:E; simpl; rewrite E; [done|apply IH].
Qed.

Lemma entry_lookup_set_ne nm nm' n es :
  nm ≠ nm' → entry_lookup nm' (entry_set nm n es) = entry_lookup nm' es.
Proof.
  intros Hne. induction es as [|[nm0 n0] es IH]; simpl.
  - assert (String.eqb nm' nm = false) as -> by (apply String.eqb_neq; congruence). done.
  - destruct (String.eqb nm nm0) eqn:E; simpl.
    + apply String.eqb_eq in E as <-.
      assert (String.eqb nm' nm = false) as -> by (apply String.eqb_neq; congruence). done.
    + by rewrite IH.
Qed.

Lemma write_parts_same n ps c n' :
  write_parts n ps c = Ok n' → resolve_parts n' ps = Some (File c).
Proof.
  revert n n'. induction ps as [|nm ps IH]; intros n n'; simpl.
  - destruct n; [|done]. by intros [= <-].
  - destruct n as [|es]; [done|].
    destruct (entry_lookup nm es) as [child|] eqn:E.
    + destruct (write_parts child ps c) as [child'| |] eqn:W; simpl; [|done..].
      intros [= <-]. simpl. rewrite entry_lookup_set_eq. simpl. by eapply IH.
    + destruct ps; [|done]. intros [= <-]. simpl. by rewrite entry_lookup_set_eq.
Qed.

Lemma write_parts_other n ps c n' qs :
  write_parts n ps c = Ok n' → qs ≠ ps →
  shape (resolve_parts n' qs) = shape (resolve_parts n qs).
Proof.
  revert n n' qs. induction ps as [|nm ps IH]; intros n n' qs; simpl.
  - destruct n; [|done]. intros [= <-] Hne. destruct qs; done.
  - destruct n as [|es]; [done|].
    destruct (entry_lookup nm es) as [child|] eqn:E.
    + destruct (write_parts child ps c) as [child'| |] eqn:W; simpl; [|done..].
      intros [= <-] Hne. destruct qs as [|q qs]; simpl; [done|].
      destruct (decide (nm = q)) as [<-|Hq].
      * rewrite entry_lookup_set_eq, E. simpl. eapply IH; [done|congruence].
      * by rewrite entry_lookup_set_ne.
    + destruct ps; [|done]. intros [= <-] Hne. destruct qs as [|q qs]; simpl; [done|].
      destruct (decide (nm = q)) as [<-|Hq].
      * rewrite entry_lookup_set_eq, E. simpl. destruct qs; [done|done].
      * by rewrite entry_lookup_set_ne.
Qed.


Lemma resolve_parts_app n ps qs :
  resolve_parts n (ps ++ qs) = n' ← resolve_parts n ps; resolve_parts n' qs.
Proof.
  revert n. induction ps as [|nm ps IH]; intros n; simpl; [done|].
  destruct n as [|es]; [done|].
  destruct (entry_lookup nm es); simpl; [apply IH|done].
Qed.

Lemma write_parts_sibling n ps x y c c0 :
  resolve_parts n (ps ++ [x]) = Some (File c0) →
  shape (resolve_parts n (ps ++ [y])) ≠ Some None →
  ∃ n', write_parts n (ps ++ [y]) c = Ok n'.
Proof.
  revert n. induction ps as [|nm ps IH]; intros n; simpl.
  - destruct n as [|es]; [done|]. intros _.
    destruct (entry_lookup y es) as [[c1|es1]|]; simpl; [eauto|done|eauto].
  - destruct n as [|es]; [done|].
    destruct (entry_lookup nm es) as [child|] eqn:E; simpl; [|done].
    intros H1 H2. destruct (IH _ H1 H2) as [child' ->]. simpl. eauto.
Qed.

(** ** Names and backup paths *)

Lemma string_app_cons c a b : String c a +:+ b = String c (a +:+ b).
Proof. reflexivity. Qed.

Lemma string_app_nil b : "" +:+ b = b.
Proof. reflexivity. Qed.

Lemma substring_all s : String.substring 0 (String.length s) s = s.
Proof. induction s as [|c s IH]; simpl; [done|by rewrite IH]. Qed.

Lemma substring_split s i :
  i ≤ String.length s →
  String.substring 0 i s +:+ String.substring i (String.length s - i) s = s.
Proof.
  revert i. induction s as [|c s IH]; intros i Hi; simpl in *.
  - by destruct i.
  - destruct i as [|i]; simpl.
    + by rewrite string_app_nil, substring_all.
    + rewrite string_app_cons, IH by lia. done.
Qed.

Lemma length_substring_tail s i :
  i ≤ String.length s →
  String.length (String.substring i (String.length s - i) s) = String.length s - i.
Proof.
  revert i. induction s as [|c s IH]; intros i Hi; simpl in *.
  - by destruct i.
  - destruct i as [|i]; simpl.
    + by rewrite substring_all.
    + apply IH. lia.
Qed.

Lemma string_app_length s1 s2 :
  String.length (s1 +:+ s2) = String.length s1 + String.length s2.
Proof.
  induction s1 as [|c s1 IH]; [done|]. rewrite string_app_cons. simpl. by rewrite IH.
Qed.

Lemma string_app_assoc s1 s2 s3 : (s1 +:+ s2) +:+ s3 = s1 +:+ (s2 +:+ s3).
Proof.
  induction s1 as [|c s1 IH]; [done|]. rewrite !string_app_cons. by rewrite IH.
Qed.

(** Replacing the suffix by itself followed by ".bak" appends ".bak". *)
Lemma with_suffix_bak fp :
  name fp ≠ "" → with_suffix fp (suffix fp +:+ ".bak") = Ok (bak fp).
Proof.
  intros Hn. unfold with_suffix, bak.
  apply String.eqb_neq in Hn as ->. f_equal. f_equal. f_equal. f_equal.
  unfold suffix, suffix_of_name. set (nm := name fp).
  destruct (rfind_dot (list_ascii_of_string nm) 0 None) as [i|]; [|done].
  destruct ((0 <? i) && (i <? String.length nm - 1)) eqn:E; [|done].
  apply andb_true_iff in E as [_ E%Nat.ltb_lt].
  assert (Hlen : String.length (String.substring i (String.length nm - i) nm)
                 = String.length nm - i) by (apply length_substring_tail; lia).
  destruct (String.eqb_spec (String.substring i (String.length nm - i) nm) "") as [E0|_].
  { rewrite E0 in Hlen. simpl in Hlen. lia. }
  rewrite Hlen. replace (String.length nm - (String.length nm - i)) with i by lia.
  rewrite <- string_app_assoc, substring_split by lia. done.
Qed.

Lemma bak_parts_ne fp : parts (bak fp) ≠ parts fp.
Proof.
  unfold bak, name. simpl. destruct (parts fp) as [|x l] using rev_ind.
  - done.
  - rewrite removelast_last, last_last. intros H%app_inv_head. injection H as H.
    apply (f_equal String.length) in H. rewrite string_app_length in H. simpl in H. lia.
Qed.

(** ** Running programs *)

Lemma read_file_denotes root q c :
  read_file root q = Ok c ↔ denotes root q = Some (Some c).
Proof.
  unfold read_file, denotes. destruct (resolve root q) as [[c'|]|]; simpl; split; congruence.
Qed.

Lemma is_dir_denotes root q : is_dir root q = true ↔ denotes root q = Some None.
Proof.
  unfold is_dir, denotes. destruct (resolve root q) as [[c'|]|]; simpl; split; congruence.
Qed.

Lemma write_file_same root p c root' :
  write_file root p c = Ok root' → denotes root' p = Some (Some c).
Proof. intros H. unfold denotes, resolve. by erewrite write_parts_same. Qed.

Lemma write_file_other root p c root' q :
  write_file root p c = Ok root' → parts q ≠ parts p →
  denotes root' q = denotes root q.
Proof. intros H Hne. unfold denotes, resolve. by eapply write_parts_other. Qed.

Lemma grows_by_refl w : grows_by w w [].
Proof. split; [by rewrite app_nil_r|done]. Qed.

Lemma grows_by_trans w1 w2 w3 e1 e2 :
  grows_by w1 w2 e1 → grows_by w2 w3 e2 → grows_by w1 w3 (e1 ++ e2).
Proof.
  intros [T1 F1] [T2 F2]. split.
  - by rewrite T2, T1, app_assoc.
  - intros q Hq. rewrite F2, F1; [done|..]; intros e He; apply Hq, elem_of_app; auto.
Qed.

Lemma shutil_copy_inv src dst w r w' :
  shutil_copy src dst w = (r, w') →
  (r ≠ Ok tt ∧ w' = w) ∨
  (r = Ok tt ∧ ∃ c,
     read_file (fs w) src = Ok c ∧
     let dst' := if is_dir (fs w) dst then joinpath dst (name src) else dst in
     write_file (fs w) dst' c = Ok (fs w') ∧ trace w' = trace w ++ [Copy src dst']).
Proof.
  unfold shutil_copy, get_fs, lift, put_fs, emit, mbind, Prog_bind. simpl.
  destruct (read_file (fs w) src) as [c| |]; simpl;
    [|intros [= <- <-]; left; done..].
  destruct (write_file (fs w) _ c) as [root'| |] eqn:W; simpl;
    [|intros [= <- <-]; left; done..].
  intros [= <- <-]. right. split; [done|]. exists c. simpl. done.
Qed.

Lemma save_as_inv dcmwrite ds fp w r w' :
  save_as dcmwrite ds fp w = (r, w') →
  (r ≠ Ok tt ∧ w' = w) ∨
  (bad_tags (dataset ds) = [] ∧
   write_file (fs w) fp (written dcmwrite ds) = Ok (fs w') ∧
   trace w' = trace w ++ [SaveAs fp ds] ∧
   r = match dcmwrite ds with Complete _ => Ok tt | Broken _ => Raise EncodingError end).
Proof.
  unfold save_as, raise, get_fs, lift, put_fs, emit, mbind, Prog_bind, mret, Prog_ret.
  destruct (bad_tags (dataset ds)); [|intros [= <- <-]; left; done]. simpl.
  destruct (write_file (fs w) fp _) as [root'| |] eqn:W; simpl;
    [|intros [= <- <-]; left; done..].
  destruct (dcmwrite ds); intros [= <- <-]; right; done.
Qed.



(** ** The loop over the discovered files *)

Section Loop.

Context (tag_for_keyword : string → option N) (dcmwrite : Encoder).

(** The loop body, step by step. *)
Lemma loop_body_run args n i fp w :
  loop_body tag_for_keyword dcmwrite args n i fp w =
    let w1 := mkWorld (fs w)
                (trace w ++ [Output stdout (ProgressLine (progress_message n) i n)]) in
    match read_file (fs w) fp with
    | Ok (DicomFile ds) =>
        let w2 := mkWorld (fs w) (trace w1 ++ [Dcmread fp ds]) in
        if is_dicomdir ds then (Ok tt, w2)
        else
          match (if no_backup args then (Ok tt, w2)
                 else match with_suffix fp (suffix fp +:+ ".bak") with
                      | Ok fp_bak => shutil_copy fp fp_bak w2
                      | Raise e => (Raise e, w2)
                      | OutOfFuel => (OutOfFuel, w2)
                      end) with
          | (Ok _, w3) =>
              match remove_elements tag_for_keyword args ds with
              | Ok (ds', _) => save_as dcmwrite ds' fp w3
              | Raise e => (Raise e, w3)
              | OutOfFuel => (OutOfFuel, w3)
              end
          | (Raise e, w3) => (Raise e, w3)
          | (OutOfFuel, w3) => (OutOfFuel, w3)
          end
    | Ok (Raw _) => (Raise InvalidDicomError, w1)
    | Raise e => (Raise e, w1)
    | OutOfFuel => (OutOfFuel, w1)
    end.
Proof.
  unfold loop_body, progress, dcmread, emit, get_fs, lift, raise, mbind, Prog_bind,
    mret, Prog_ret, progress_message. simpl.
  destruct (read_file (fs w) fp) as [[bytes|ds]| |]; simpl; try done.
  destruct (is_dicomdir ds); [done|].
  destruct (no_backup args); simpl.
  - destruct (remove_elements tag_for_keyword args ds) as [[ds' log]| |]; done.
  - destruct (with_suffix fp (suffix fp +:+ ".bak")) as [fp_bak| |]; simpl; try done.
    destruct (shutil_copy fp fp_bak _) as [[[]| |] w3]; try done.
    destruct (remove_elements tag_for_keyword args ds) as [[ds' log]| |]; done.
Qed.

(** Claim C5.  In every state of the run and whatever the arguments, the
    turn of the loop for a file whose file meta gives
    [MediaStorageDirectoryStorage] as Media Storage SOP Class UID ends
    normally after the progress line and the read: the file system is as it
    was, and the turn copies nothing and saves nothing.  The next file of
    the list is processed from that state, so the same holds within a
    directory of other files. *)
Theorem dicomdir_is_skipped_before_backup args n i fp w ds vr :
  read_file (fs w) fp = Ok (DicomFile ds) →
  file_meta ds !! MediaStorageSOPClassUID = Some (Leaf vr MediaStorageDirectoryStorage) →
  loop_body tag_for_keyword dcmwrite args n i fp w =
    (Ok tt, mkWorld (fs w)
              (trace w ++ [Output stdout (ProgressLine (progress_message n) i n);
                           Dcmread fp ds])).
Proof.
  intros Hread Hsop. rewrite loop_body_run, Hread. simpl.
  unfold is_dicomdir. rewrite Hsop, String.eqb_refl. by rewrite <- app_assoc.
Qed.


Lemma for_enumerate_cons {A} (x : A) rest i (body : nat → A → Prog unit) w :
  for_enumerate (x :: rest) i body w =
    match body i x w with
    | (Ok _, w1) => for_enumerate rest (S i) body w1
    | (Raise e, w1) => (Raise e, w1)
    | (OutOfFuel, w1) => (OutOfFuel, w1)
    end.
Proof. reflexivity. Qed.


Lemma parts_split fp : name fp ≠ "" → parts fp = removelast (parts fp) ++ [name fp].
Proof.
  unfold name. intros Hn. destruct (parts fp) as [|x l] eqn:E; [done|].
  rewrite <- E. apply app_removelast_last. by rewrite E.
Qed.

Lemma backup_copy_runs fp w ds :
  read_file (fs w) fp = Ok (DicomFile ds) → name fp ≠ "" →
  is_dir (fs w) (bak fp) = false →
  ∃ root',
    shutil_copy fp (bak fp) w = (Ok tt, mkWorld root' (trace w ++ [Copy fp (bak fp)])) ∧
    write_file (fs w) (bak fp) (DicomFile ds) = Ok root'.
Proof.
  intros Hread Hname Hdir.
  assert (∃ root', write_file (fs w) (bak fp) (DicomFile ds) = Ok root') as [root' Hw].
  { unfold write_file, bak. simpl.
    apply read_file_denotes in Hread. unfold denotes, resolve in Hread.
    rewrite (parts_split fp Hname) in Hread.
    destruct (resolve_parts (fs w) (removelast (parts fp) ++ [name fp]))
      as [[c|]|] eqn:E; try done.
    eapply write_parts_sibling; [exact E|].
    intros Hd. apply (is_dir_denotes (fs w) (bak fp)) in Hd. congruence. }
  exists root'. split; [|done].
  unfold shutil_copy, get_fs, lift, put_fs, emit, mbind, Prog_bind. simpl.
  rewrite Hread. simpl. rewrite Hdir, Hw. done.
Qed.



End Loop.

(** ** Runs without a removal flag *)

Section Rewrite.

Context (tag_for_keyword : string → option N) (dcmwrite : Encoder).

Lemma no_removal_keeps pth nb ds :
  remove_elements tag_for_keyword (no_removal pth nb) ds = Ok (ds, []).
Proof. reflexivity. Qed.



End Rewrite.

(** ** Discovery *)

Lemma entry_lookup_NoDup es nm ch :
  NoDup es.*1 → (nm, ch) ∈ es → entry_lookup nm es = Some ch.
Proof.
  induction es as [|[nm' ch'] es IH]; simpl; intros ND Hin.
  - by apply elem_of_nil in Hin.
  - apply NoDup_cons in ND as [Hnot ND].
    apply elem_of_cons in Hin as [[= <- <-]|Hin].
    + by rewrite String.eqb_refl.
    + destruct (String.eqb_spec nm nm') as [->|_]; [|by apply IH].
      exfalso. apply Hnot. apply list_elem_of_fmap. by exists (nm', ch).
Qed.

Lemma resolve_joinpath root top nm es :
  resolve root top = Some (Dir es) →
  resolve root (joinpath top nm) = entry_lookup nm es.
Proof.
  unfold resolve, joinpath. simpl. intros H. rewrite resolve_parts_app, H. simpl.
  by destruct (entry_lookup nm es).
Qed.

Lemma sniff_files_listing top es w :
  resolve (fs w) top = Some (Dir es) → NoDup es.*1 →
  ∀ es' acc, es' ⊆ es →
    sniff_files top
      (omap (λ e, match e.2 with File _ => Some e.1 | Dir _ => None end) es') acc w =
    (Ok (acc ++ omap (λ e, match e.2 with
                           | File c => if has_magic c then Some (joinpath top e.1) else None
                           | Dir _ => None
                           end) es'), w).
Proof.
  intros Hres ND. induction es' as [|[nm ch] es' IH]; intros acc Hsub; simpl.
  - by rewrite app_nil_r.
  - assert (Hin : (nm, ch) ∈ es) by (apply Hsub; left).
    assert (Hsub' : es' ⊆ es) by (intros e He; apply Hsub; by right).
    destruct ch as [c|es0]; simpl; [|by apply IH].
    unfold is_dicom, get_fs, lift, mbind, Prog_bind, mret, Prog_ret. simpl.
    unfold read_file. rewrite (resolve_joinpath _ _ _ _ Hres).
    rewrite (entry_lookup_NoDup _ _ _ ND Hin). simpl.
    destruct w as [root tr]. simpl in *. rewrite IH by done.
    destruct (has_magic c); simpl; [by rewrite <- app_assoc|done].
Qed.

Lemma sniff_dirs_app l1 l2 acc w :
  sniff_dirs (l1 ++ l2) acc w =
    match sniff_dirs l1 acc w with
    | (Ok acc1, w1) => sniff_dirs l2 acc1 w1
    | (Raise e, w1) => (Raise e, w1)
    | (OutOfFuel, w1) => (OutOfFuel, w1)
    end.
Proof.
  revert acc w. induction l1 as [|[[root dirs] files] l1 IH]; intros acc w; simpl.
  - done.
  - unfold mbind, Prog_bind.
    destruct (sniff_files root files acc w) as [[acc1| |] w1]; [apply IH|done..].
Qed.

Lemma sniff_dirs_os_walk w n :
  ∀ top acc,
    resolve (fs w) top = Some n → unique_names n = true →
    sniff_dirs (os_walk n top) acc w = (Ok (acc ++ dicom_files n top), w).
Proof.
  induction n as [c|es IH] using Node_nested_ind; intros top acc Hres Hu.
  - simpl. by rewrite app_nil_r.
  - simpl in Hu. apply andb_true_iff in Hu as [ND%bool_decide_eq_true Hall].
    cbn [os_walk sniff_dirs dicom_files].
    unfold mbind, Prog_bind at 1.
    rewrite (sniff_files_listing top es w Hres ND es acc) by done.
    assert (Hbelow : ∀ es' acc', es' ⊆ es →
      sniff_dirs (flat_map (λ e, os_walk e.2 (joinpath top e.1)) es') acc' w =
      (Ok (acc' ++ flat_map (λ e, dicom_files e.2 (joinpath top e.1)) es'), w)).
    { induction es' as [|[nm ch] es' IH']; intros acc' Hsub; simpl.
      - by rewrite app_nil_r.
      - assert (Hin : (nm, ch) ∈ es) by (apply Hsub; left).
        rewrite sniff_dirs_app.
        rewrite Forall_forall in IH. rewrite (IH (nm, ch) Hin).
        + rewrite IH' by (intros e He; apply Hsub; by right). by rewrite <- app_assoc.
        + rewrite (resolve_joinpath _ _ _ _ Hres). by apply entry_lookup_NoDup.
        + rewrite forallb_forall in Hall. apply (Hall (nm, ch)).
          by apply list_elem_of_In. }
    rewrite Hbelow by done. by rewrite <- app_assoc.
Qed.

Lemma unique_names_resolve_parts n ps n' :
  unique_names n = true → resolve_parts n ps = Some n' → unique_names n' = true.
Proof.
  revert n. induction ps as [|nm ps IH]; intros n Hu; simpl.
  - by intros [= <-].
  - destruct n as [|es]; [done|]. simpl in Hu.
    apply andb_true_iff in Hu as [_ Hall].
    destruct (entry_lookup nm es) as [ch|] eqn:E; simpl; [|done].
    apply IH. rewrite forallb_forall in Hall.
    assert (∃ nm', (nm', ch) ∈ es) as [nm' Hin].
    { clear -E. induction es as [|[nm0 n0] es IH]; simpl in E; [done|].
      destruct (String.eqb nm nm0).
      - injection E as ->. exists nm0. left.
      - destruct (IH E) as [nm' ?]. exists nm'. by right. }
    apply (Hall (nm', ch)). by apply list_elem_of_In.
Qed.

(** Claim C7.  In a tree whose directories list every name once,
    [make_dcm_fp_list] does one of three things.  When the path does not
    exist it writes "ERROR: <path> is neither a file or directory" to
    standard error and exits with status 1.  When the path exists and no
    file at or below it carries the DICOM magic bytes it writes
    "ERROR: No valid DICOM files found, exiting" to standard error and exits
    with status 1.  Otherwise it returns the files that carry them, in
    listing order, and writes nothing: the other files are passed over
    silently.  The file system is never changed. *)
Theorem discovery_fails_in_exactly_two_cases (pth : Path) (w : World) :
  unique_names (fs w) = true →
  make_dcm_fp_list pth w =
    match resolve (fs w) pth with
    | None =>
        (Raise (SystemExit 1),
         mkWorld (fs w) (trace w ++ [Output stderr (Text (neither_message pth))]))
    | Some n =>
        match found_at n pth with
        | [] =>
            (Raise (SystemExit 1),
             mkWorld (fs w) (trace w ++ [Output stderr (Text none_found_message)]))
        | fp_list => (Ok fp_list, w)
        end
    end.
Proof.
  intros Hu. unfold make_dcm_fp_list, get_fs, is_file, is_dir.
  unfold mbind, Prog_bind at 1. simpl.
  destruct (resolve (fs w) pth) as [[c|es]|] eqn:Hres.
  - unfold is_dicom, get_fs, lift, mbind, Prog_bind, mret, Prog_ret. simpl.
    unfold read_file. rewrite Hres. simpl. by destruct (has_magic c).
  - unfold mbind, Prog_bind.
    rewrite (sniff_dirs_os_walk w (Dir es) pth [] Hres)
      by (by eapply unique_names_resolve_parts).
    cbn [app found_at]. by destruct (dicom_files (Dir es) pth).
  - done.
Qed.

(** Claim C9.  Called with the program name alone, [main] writes the help
    text to standard output and exits with status 0; it touches no file. *)
Theorem no_arguments_prints_help_and_exits_0
    (tag_for_keyword : string → option N) (dcmwrite : Encoder)
    (version prog : string) (w : World) :
  main tag_for_keyword dcmwrite version [prog] w =
    (Raise (SystemExit 0),
     mkWorld (fs w) (trace w ++ [Output stdout (HelpText (name (Path_of_string prog)))])).
Proof. reflexivity. Qed.

(** ** The statements on the example data *)

(** Claim C8 does not hold as stated.  The walk of [remove_group_tags] over
    [contrast_agent] for group 0018 invokes the callback once, on the
    sequence (0018,0012); the element (0008,0100) in the item of that
    sequence is an element of the dataset and is never visited. *)
Lemma walk_never_visits_what_a_removed_sequence_holds :
  remove_group_tags contrast_agent ["0x0018"] =
    Ok (∅, [Visited [] (mkElem 0x00180012%N
                          (Seq [ {[ 0x00080100%N := Leaf "SH" "C-B0300" ]} ]))]) ∧
  element_at contrast_agent [(0x00180012%N, 0)] 0x00080100%N
    = Some (Leaf "SH" "C-B0300").
Proof. split; vm_compute; reflexivity. Qed.

(** Claim C6 against the code: the backup does not survive the run when
    the backup path is itself one of the discovered files.  A first run,
    [dcmrmel scans --rm-private], turns [scans_before_a_run] into
    [scans_after_a_run].  The second run, [dcmrmel scans --rm-tag
    PatientName], finds [a.dcm] and [a.dcm.bak].  It copies [a.dcm] to
    [a.dcm.bak] and rewrites [a.dcm]; then it processes [a.dcm.bak] like any
    other file and rewrites it without its PatientName.  After the run the
    backup path of [a.dcm] does not hold what [a.dcm] held before the
    run. *)
Lemma backup_is_rewritten_when_it_is_a_discovered_file :
  (∃ tr, main dictionary_excerpt dcmwrite_excerpt "1.0" ["dcmrmel"; "scans"; "--rm-private"]
           (mkWorld scans_before_a_run []) = (Ok tt, mkWorld scans_after_a_run tr)) ∧
  main dictionary_excerpt dcmwrite_excerpt "1.0" ["dcmrmel"; "scans"; "--rm-tag"; "PatientName"]
    (mkWorld scans_after_a_run []) =
    (Ok tt,
     mkWorld scans_after_two_runs
       [Output stdout (ProgressLine (progress_message 2) 1 2);
        Dcmread (in_scans "a.dcm") scan_a;
        Copy (in_scans "a.dcm") (in_scans "a.dcm.bak");
        SaveAs (in_scans "a.dcm") scan_a_anonymous;
        Output stdout (ProgressLine (progress_message 2) 2 2);
        Dcmread (in_scans "a.dcm.bak") scan_a;
        Copy (in_scans "a.dcm.bak") (in_scans "a.dcm.bak.bak");
        SaveAs (in_scans "a.dcm.bak") scan_a_anonymous]) ∧
  read_file scans_after_a_run (in_scans "a.dcm") = Ok (DicomFile scan_a) ∧
  is_dicomdir scan_a = false ∧
  bak (in_scans "a.dcm") = in_scans "a.dcm.bak" ∧
  read_file scans_after_two_runs (bak (in_scans "a.dcm"))
    = Ok (DicomFile scan_a_anonymous) ∧
  scan_a_anonymous ≠ scan_a.
Proof.
  split; [eexists; vm_compute; reflexivity|].
  split_and!; try (vm_compute; reflexivity).
  intros H. apply (f_equal (λ d, dataset d !! 0x00100010%N)) in H.
  vm_compute in H. discriminate H.
Qed.

(** Claim C5 at the DICOMDIR of [scans], first of three discovered files,
    with [--rm-private --rm-vr DA] and backups on. *)
Lemma dicomdir_is_skipped_witness :
  read_file scans (in_scans "DICOMDIR") = Ok (DicomFile dicomdir_file) ∧
  file_meta dicomdir_file !! MediaStorageSOPClassUID
    = Some (Leaf "UI" MediaStorageDirectoryStorage) ∧
  loop_body dictionary_excerpt dcmwrite_excerpt
    (mkArgs (Path_of_string "scans") false true (Some ["DA"]) None None) 3 1
    (in_scans "DICOMDIR") (mkWorld scans []) =
    (Ok tt, mkWorld scans [Output stdout (ProgressLine (progress_message 3) 1 3);
                           Dcmread (in_scans "DICOMDIR") dicomdir_file]).
Proof.
  assert (H1 : read_file scans (in_scans "DICOMDIR") = Ok (DicomFile dicomdir_file))
    by (vm_compute; reflexivity).
  assert (H2 : file_meta dicomdir_file !! MediaStorageSOPClassUID
               = Some (Leaf "UI" MediaStorageDirectoryStorage))
    by (vm_compute; reflexivity).
  split; [exact H1|]. split; [exact H2|].
  exact (dicomdir_is_skipped_before_backup dictionary_excerpt dcmwrite_excerpt
           (mkArgs (Path_of_string "scans") false true (Some ["DA"]) None None) 3 1
           (in_scans "DICOMDIR") (mkWorld scans []) dicomdir_file "UI" H1 H2).
Defined.

(** Claim C7 at [scans]: the directory, with its text file passed over; the
    text file alone; a path that does not exist. *)
Lemma discovery_witness :
  unique_names scans = true ∧
  make_dcm_fp_list (Path_of_string "scans") (mkWorld scans []) =
    (Ok [in_scans "DICOMDIR"; in_scans "a.dcm"; in_scans "b.dcm"], mkWorld scans []) ∧
  make_dcm_fp_list (Path_of_string "scans/notes.txt") (mkWorld scans []) =
    (Raise (SystemExit 1),
     mkWorld scans [Output stderr (Text none_found_message)]) ∧
  make_dcm_fp_list (Path_of_string "elsewhere") (mkWorld scans []) =
    (Raise (SystemExit 1),
     mkWorld scans [Output stderr (Text (neither_message (Path_of_string "elsewhere")))]).
Proof.
  assert (H : unique_names (fs (mkWorld scans [])) = true) by (vm_compute; reflexivity).
  split; [exact H|].
  split_and!;
    rewrite (discovery_fails_in_exactly_two_cases _ (mkWorld scans []) H);
    vm_compute; reflexivity.
Defined.




(** * Further properties *)

(** ** The passes together *)

Lemma prune_ext p q ds : (∀ e, p e = q e) → prune p ds = prune q ds.
Proof.
  intros H. induction ds as [ds IH] using dataset_nested_ind.
  apply map_eq. intros t. rewrite !prune_lookup.
  destruct (ds !! t) as [b|] eqn:E; [|done]. rewrite H.
  destruct (q (mkElem t b)); [done|]. f_equal.
  destruct b as [|items]; simpl; [done|]. f_equal.
  apply map_ext_in. intros d Hd. apply list_elem_of_In in Hd. by apply (IH t items d E Hd).
Qed.

Lemma prune_compose p q ds :
  shallow q → prune q (prune p ds) = prune (either p q) ds.
Proof.
  intros Hs. induction ds as [ds IH] using dataset_nested_ind.
  apply map_eq. intros t. rewrite !prune_lookup. unfold either at 1.
  destruct (ds !! t) as [b|] eqn:E; [|done].
  destruct (p (mkElem t b)) eqn:Hp; simpl; [done|].
  rewrite (Hs (mkElem t (prune_body p b)) (mkElem t b))
    by (simpl; auto using VR_prune_body).
  destruct (q (mkElem t b)); [done|]. f_equal.
  destruct b as [|items]; simpl; [done|]. f_equal.
  rewrite map_map. apply map_ext_in. intros d Hd. apply list_elem_of_In in Hd.
  apply (IH t items d E Hd).
Qed.

Lemma stage_active o ds : stage o ds = prune (active o) ds.
Proof.
  destruct o as [p|]; simpl; [by apply prune_ext|].
  symmetry. apply prune_nothing. done.
Qed.

Lemma shallow_active o : (∀ p, o = Some p → shallow p) → shallow (active o).
Proof. intros H e e' Ht Hv. destruct o as [p|]; simpl; [by apply (H p)|done]. Qed.

Lemma shallow_either p q : shallow p → shallow q → shallow (either p q).
Proof. intros Hp Hq e e' Ht Hv. unfold either. by rewrite (Hp e e'), (Hq e e'). Qed.

Section Combined.
Context (tag_for_keyword : string → option N).

Lemma logged_prune k on p d r :
  walk_ok p d [] r → ∃ l, logged k on r = Ok (prune p d, l).
Proof. intros (l & -> & _). simpl. eauto. Qed.

(** The removal part, outcome by outcome. *)
Lemma remove_elements_stages args ds :
  match decoded_groups args with
  | Ok groups =>
      match decoded_tags tag_for_keyword args with
      | Ok tags =>
          let P := if rm_private args then Some private_pred else None in
          let V := vr_pred <$> rm_vr args in
          let G := group_pred <$> groups in
          let T := tag_pred <$> tags in
          ∃ log, remove_elements tag_for_keyword args ds =
                   Ok (mkFile (stage T (stage G (stage V (stage P (dataset ds)))))
                              (stage T (stage G (stage V (file_meta ds)))), log)
      | Raise e => remove_elements tag_for_keyword args ds = Raise e
      | OutOfFuel => remove_elements tag_for_keyword args ds = OutOfFuel
      end
  | Raise e => remove_elements tag_for_keyword args ds = Raise e
  | OutOfFuel => remove_elements tag_for_keyword args ds = OutOfFuel
  end.
Proof.
  destruct args as [pth nb priv vrs gs ts]. destruct ds as [main meta].
  unfold decoded_groups, decoded_tags, remove_elements. simpl.
  assert (∃ l1, (if priv
                 then '(main', l) ← logged PrivatePass MainDataset (remove_private_tags main);
                      Ok (mkFile main' meta, l)
                 else Ok (mkFile main meta, []))
                = Ok (mkFile (stage (if priv then Some private_pred else None) main) meta, l1))
    as (l1 & ->).
  { destruct priv; [|eauto].
    destruct (logged_prune PrivatePass MainDataset _ _ _ (remove_private_tags_prune main))
      as (l & ->). simpl. eauto. }
  simpl. set (main1 := stage (if priv then Some private_pred else None) main).
  assert (∃ l2, match vrs with
                | Some vrs =>
                    '(main', la) ← logged VRPass MainDataset (remove_vr_tags main1 vrs);
                    '(meta', lb) ← logged VRPass FileMeta (remove_vr_tags meta vrs);
                    Ok (mkFile main' meta', l1 ++ la ++ lb)
                | None => Ok (mkFile main1 meta, l1)
                end
                = Ok (mkFile (stage (vr_pred <$> vrs) main1) (stage (vr_pred <$> vrs) meta), l2))
    as (l2 & ->).
  { destruct vrs as [vrs|]; simpl; [|eauto].
    destruct (logged_prune VRPass MainDataset _ _ _ (remove_vr_tags_prune main1 vrs))
      as (la & ->).
    destruct (logged_prune VRPass FileMeta _ _ _ (remove_vr_tags_prune meta vrs))
      as (lb & ->).
    simpl. eauto. }
  simpl. set (main2 := stage (vr_pred <$> vrs) main1).
  set (meta2 := stage (vr_pred <$> vrs) meta).
  assert (∀ main3 meta3 l3,
    match match ts with
          | Some ((_ :: _) as tags) => t ← tags_to_remove tag_for_keyword tags; Ok (Some t)
          | _ => Ok None
          end with
    | Ok tags =>
        ∃ log, match ts with
               | Some ((_ :: _) as tags) =>
                   tag_to_rm_list ← tags_to_remove tag_for_keyword tags;
                   '(main', la) ← logged TagPass MainDataset (remove_tags main3 tag_to_rm_list);
                   '(meta', lb) ← logged TagPass FileMeta (remove_tags meta3 tag_to_rm_list);
                   Ok (mkFile main' meta', l3 ++ la ++ lb)
               | _ => Ok (mkFile main3 meta3, l3)
               end = Ok (mkFile (stage (tag_pred <$> tags) main3)
                                (stage (tag_pred <$> tags) meta3), log)
    | Raise e =>
        match ts with
        | Some ((_ :: _) as tags) =>
            tag_to_rm_list ← tags_to_remove tag_for_keyword tags;
            '(main', la) ← logged TagPass MainDataset (remove_tags main3 tag_to_rm_list);
            '(meta', lb) ← logged TagPass FileMeta (remove_tags meta3 tag_to_rm_list);
            Ok (mkFile main' meta', l3 ++ la ++ lb)
        | _ => Ok (mkFile main3 meta3, l3)
        end = Raise e
    | OutOfFuel =>
        match ts with
        | Some ((_ :: _) as tags) =>
            tag_to_rm_list ← tags_to_remove tag_for_keyword tags;
            '(main', la) ← logged TagPass MainDataset (remove_tags main3 tag_to_rm_list);
            '(meta', lb) ← logged TagPass FileMeta (remove_tags meta3 tag_to_rm_list);
            Ok (mkFile main' meta', l3 ++ la ++ lb)
        | _ => Ok (mkFile main3 meta3, l3)
        end = OutOfFuel
    end) as Htags.
  { intros main3 meta3 l3. destruct ts as [[|t ts]|]; simpl; [eauto| |eauto].
    destruct (tags_to_remove tag_for_keyword (t :: ts)) as [tags|e|]; simpl; [|done..].
    destruct (logged_prune TagPass MainDataset _ _ _ (remove_tags_prune main3 tags))
      as (la & ->).
    destruct (logged_prune TagPass FileMeta _ _ _ (remove_tags_prune meta3 tags))
      as (lb & ->).
    simpl. eauto. }
  destruct gs as [gs|]; simpl.
  - unfold remove_group_tags.
    destruct (group_numbers gs) as [groups|e|] eqn:Hg; simpl; [|done..].
    destruct (logged_prune GroupPass MainDataset _ _ _
                (walk_deleting (group_pred groups) main2)) as (l4 & H4).
    destruct (logged_prune GroupPass FileMeta _ _ _
                (walk_deleting (group_pred groups) meta2)) as (l5 & H5).
    change (walk (remove_group_tags_callback groups)) with (walk (deleting (group_pred groups))).
    rewrite H4. simpl. rewrite H5. simpl. apply Htags.
  - apply Htags.
Qed.

Lemma shallow_private : shallow private_pred.
Proof. intros e e' H _. unfold private_pred. by rewrite H. Qed.

(** The four passes together are one pass with the disjunction of their
    criteria. *)
Lemma remove_elements_prune args ds groups tags :
  decoded_groups args = Ok groups → decoded_tags tag_for_keyword args = Ok tags →
  ∃ log, remove_elements tag_for_keyword args ds =
           Ok (mkFile (prune (criteria_main args groups tags) (dataset ds))
                      (prune (criteria_meta args groups tags) (file_meta ds)), log).
Proof.
  intros Hg Ht. pose proof (remove_elements_stages args ds) as H.
  rewrite Hg, Ht in H. destruct H as [log ->]. exists log. do 2 f_equal.
  assert (SV : shallow (active (vr_pred <$> rm_vr args))).
  { apply shallow_active. intros p. destruct (rm_vr args); [|done].
    intros [= <-]. apply shallow_vr. }
  assert (SG : shallow (active (group_pred <$> groups))).
  { apply shallow_active. intros p. destruct groups; [|done].
    intros [= <-]. apply shallow_group. }
  assert (ST : shallow (active (tag_pred <$> tags))).
  { apply shallow_active. intros p. destruct tags; [|done].
    intros [= <-]. apply shallow_tag. }
  rewrite !stage_active.
  rewrite !prune_compose by auto using shallow_either.
  done.
Qed.

End Combined.

Lemma prune_removes crit ds : removes crit ds (prune crit ds).
Proof.
  split_and!.
  - intros π t b' (b & H & E & K & ->)%element_at_prune_Some.
    exists b. split_and!; try done. apply same_element_prune_body.
  - intros π t b H E K. exists (prune_body crit b).
    split; [by apply element_at_prune_kept|apply same_element_prune_body].
  - intros π t b H E. by eapply element_at_prune_gone.
Qed.

Lemma underscore_guard_cases {A} l (X : res A) :
  match l with
  | "_"%char :: _ => Raise ValueError
  | _ => X
  end = X ∨
  match l with
  | "_"%char :: _ => Raise ValueError
  | _ => X
  end = Raise ValueError.
Proof. destruct l as [|[[] [] [] [] [] [] [] []] l']; auto. Qed.

Lemma int16_outcome s : (∃ v, int16 s = Ok v) ∨ int16 s = Raise ValueError.
Proof.
  unfold int16.
  destruct (match skip_spaces (list_ascii_of_string s) with
            | "+"%char :: l' => (false, l')
            | "-"%char :: l' => (true, l')
            | _ => (false, skip_spaces (list_ascii_of_string s))
            end) as [negative l].
  set (l2 := match l with
             | "0"%char :: x :: l' =>
                 if Ascii.eqb x "x" || Ascii.eqb x "X" then
                   match l' with
                   | "_"%char :: l'' => l''
                   | _ => l'
                   end
                 else l
             | _ => l
             end).
  clearbody l2.
  destruct (underscore_guard_cases l2
              (match scan_digits l2 0 false 0 with
               | Some (v, S _, rest) =>
                   match skip_spaces rest with
                   | [] => Ok (if negative then - v else v)%Z
                   | _ :: _ => Raise ValueError
                   end
               | _ => Raise ValueError
               end)) as [-> | ->]; [|by right].
  destruct (scan_digits l2 0 false 0) as [[[v [|m]] rest]|]; [by right| |by right].
  destruct (skip_spaces rest); [left; eauto|by right].
Qed.

Lemma group_loop_spec l : ∀ acc,
  match for_each l acc (λ group group_rm, g ← int16 group; Ok (group_rm ++ [g])) with
  | Ok r => ∃ vs, r = acc ++ vs ∧ Forall2 (λ g v, int16 g = Ok v) l vs
  | Raise e => e = ValueError ∧ Exists (λ g, int16 g = Raise ValueError) l
  | OutOfFuel => False
  end.
Proof.
  induction l as [|g l IH]; intros acc; cbn [for_each].
  - exists []. by rewrite app_nil_r.
  - destruct (int16_outcome g) as [[v Hv]|Hv]; rewrite Hv; simpl.
    + specialize (IH (acc ++ [v])).
      destruct (for_each l (acc ++ [v]) _) as [r|e|].
      * destruct IH as (vs & -> & F). exists (v :: vs).
        rewrite <- app_assoc. split; [done|]. by constructor.
      * destruct IH as [-> E]. split; [done|]. by right.
      * done.
    + split; [done|]. by left.
Qed.

Lemma group_numbers_spec l :
  match group_numbers l with
  | Ok vs => Forall2 (λ g v, int16 g = Ok v) l vs
  | Raise e => e = ValueError ∧ Exists (λ g, int16 g = Raise ValueError) l
  | OutOfFuel => False
  end.
Proof.
  pose proof (group_loop_spec l []) as H. unfold group_numbers.
  destruct (for_each l [] _) as [r|e|]; [|done..].
  destruct H as (vs & -> & F). done.
Qed.

Section PassTheorems.
Context (tag_for_keyword : string → option N).

(** Property X2.  Without [--rm-vr], when the group and tag arguments
    decode, the removal part of the loop body acts as one pass with the
    disjunction of the active criteria, whatever was matched first: in the
    main dataset an element goes when it is private (with [--rm-private]),
    has a listed group or a listed tag, or sits inside a sequence that
    goes; everything else stays where it is.  In the file meta the same
    holds without the private criterion. *)
Theorem removal_removes_what_any_criterion_matches args ds groups tags :
  rm_vr args = None →
  decoded_groups args = Ok groups → decoded_tags tag_for_keyword args = Ok tags →
  ∃ ds' log,
    remove_elements tag_for_keyword args ds = Ok (ds', log) ∧
    removes (criteria_main args groups tags) (dataset ds) (dataset ds') ∧
    removes (criteria_meta args groups tags) (file_meta ds) (file_meta ds').
Proof.
  intros _ Hg Ht.
  destruct (remove_elements_prune tag_for_keyword args ds groups tags Hg Ht) as [log ->].
  eexists _, log. split; [done|]. simpl. split; apply prune_removes.
Qed.

Lemma shallow_criteria_meta args groups tags : shallow (criteria_meta args groups tags).
Proof.
  unfold criteria_meta. repeat apply shallow_either; apply shallow_active; intros p.
  - destruct (rm_vr args); [|done]. intros [= <-]. apply shallow_vr.
  - destruct groups; [|done]. intros [= <-]. apply shallow_group.
  - destruct tags; [|done]. intros [= <-]. apply shallow_tag.
Qed.

Lemma shallow_criteria_main args groups tags : shallow (criteria_main args groups tags).
Proof.
  unfold criteria_main. apply shallow_either; [|apply shallow_criteria_meta].
  apply shallow_active. intros p. destruct (rm_private args); [|done].
  intros [= <-]. apply shallow_private.
Qed.

(** Property X3.  Whatever the arguments, the removal part applied in
    memory to the dataset it has returned returns that dataset again: it
    finds nothing more to remove in its own result.  (This is about the
    dataset in memory, not about a second run of the program, which reads
    what the encoder wrote.) *)
Theorem removal_is_idempotent args ds ds' log :
  remove_elements tag_for_keyword args ds = Ok (ds', log) →
  ∃ log', remove_elements tag_for_keyword args ds' = Ok (ds', log').
Proof.
  intros H. pose proof (remove_elements_stages tag_for_keyword args ds) as Hs.
  destruct (decoded_groups args) as [groups|e|] eqn:Hg; [|congruence..].
  destruct (decoded_tags tag_for_keyword args) as [tags|e|] eqn:Ht; [|congruence..].
  clear Hs.
  destruct (remove_elements_prune tag_for_keyword args ds groups tags Hg Ht) as [l E].
  rewrite E in H. injection H as <- <-.
  destruct (remove_elements_prune tag_for_keyword args
              (mkFile (prune (criteria_main args groups tags) (dataset ds))
                      (prune (criteria_meta args groups tags) (file_meta ds)))
              groups tags Hg Ht) as [l' ->].
  exists l'. simpl.
  rewrite (prune_idempotent _ _ (shallow_criteria_main args groups tags)).
  rewrite (prune_idempotent _ _ (shallow_criteria_meta args groups tags)). done.
Qed.

(** Property X4.  With [--rm-private] as the only removal flag the removal
    part ends normally; the file meta is returned as it was, private
    elements included; in the main dataset the elements with an odd group
    number are gone together with what they hold, no element with an odd
    group number is left at any depth, and a dataset without such elements
    is unchanged. *)
Theorem rm_private_cleans_the_main_dataset_only pth backup_off ds :
  ∃ main' log,
    remove_elements tag_for_keyword (mkArgs pth backup_off true None None None) ds
      = Ok (mkFile main' (file_meta ds), log) ∧
    removes private_pred (dataset ds) main' ∧
    (∀ π t b', element_at main' π t = Some b' → N.odd (group t) = false) ∧
    ((∀ π t b, element_at (dataset ds) π t = Some b → N.odd (group t) = false) →
     main' = dataset ds).
Proof.
  unfold remove_elements. simpl.
  destruct (remove_private_tags_prune (dataset ds)) as (l & -> & _). simpl.
  eexists _, _. split; [done|].
  assert (Hodd : ∀ t b, private_pred (mkElem t b) = N.odd (group t)).
  { intros t b. unfold private_pred, is_private. simpl.
    rewrite <- N.bit0_mod, N.bit0_odd. by destruct (N.odd (group t)). }
  split; [apply prune_removes|]. split.
  - intros π t b' (b & _ & E & _)%element_at_prune_Some. by rewrite <- (Hodd t b).
  - intros Hno. apply prune_nothing. intros π t b H. rewrite Hodd. eauto.
Qed.

(** Property X5.  For a list of VRs that names none of those that pydicom
    consults when it fetches another element (US, SS, LO, CS):
    [remove_vr_tags] does not fail.  No element with a listed VR is left at
    any depth.  When "SQ" is not listed, exactly the elements with a listed
    VR are removed and every other element stays at its place.  When "SQ"
    is listed, every sequence goes with what it holds: the result is the
    walked dataset without its elements of a listed VR, and holds no
    sequence. *)
Theorem remove_vr_tags_removes_the_listed_VRs ds vrs :
  keeps_what_a_fetch_consults vrs = true →
  ∃ ds' log,
    remove_vr_tags ds vrs = Ok (ds', log) ∧
    removes (vr_pred vrs) ds ds' ∧
    (∀ π t b', element_at ds' π t = Some b' → VR (mkElem t b') ∉ vrs) ∧
    ("SQ" ∉ vrs →
       ∀ π t b, element_at ds π t = Some b → VR (mkElem t b) ∉ vrs →
         ∃ b', element_at ds' π t = Some b' ∧ same_element b b') ∧
    ("SQ" ∈ vrs →
       ds' = filter (λ tb, VR (mkElem tb.1 tb.2) ∉ vrs) ds ∧
       ∀ t b, ds' !! t = Some b → ∃ vr v, b = Leaf vr v).
Proof.
  intros _.
  destruct (remove_vr_tags_prune ds vrs) as (log & -> & _).
  exists (prune (vr_pred vrs) ds), log. split; [done|].
  split; [apply prune_removes|]. split_and!.
  - intros π t b' (b & _ & E & _ & ->)%element_at_prune_Some.
    rewrite VR_prune_body. unfold vr_pred in E. by apply bool_decide_eq_false in E.
  - intros Hsq π t b H Hv. exists (prune_body (vr_pred vrs) b).
    split; [|apply same_element_prune_body].
    apply element_at_prune_kept; [done|by apply bool_decide_eq_false|].
    apply kept_path_no_sequence; [|by eapply element_at_dataset_at].
    intros t' items. by apply bool_decide_eq_false.
  - intros Hsq.
    assert (Hl : ∀ t, prune (vr_pred vrs) ds !! t =
                      filter (λ tb, VR (mkElem tb.1 tb.2) ∉ vrs) ds !! t).
    { intros t. rewrite prune_lookup, map_lookup_filter.
      destruct (ds !! t) as [b|] eqn:E; simpl; [|done].
      unfold vr_pred. case_bool_decide as Hv.
      - rewrite option_guard_False; [done|]. simpl. auto.
      - rewrite option_guard_True by done. f_equal.
        destruct b as [|items]; [done|]. exfalso. by apply Hv. }
    split; [by apply map_eq|].
    intros t b. rewrite Hl, map_lookup_filter.
    destruct (ds !! t) as [b0|]; simpl; [|done].
    case_guard as Hv; simpl; [|done]. intros [= <-].
    destruct b0 as [vr v|items]; [eauto|]. exfalso. by apply Hv.
Qed.

(** Property X6.  [remove_group_tags] first reads every group with
    [int(group, 16)].  When one of them is no hexadecimal numeral it raises
    [ValueError], the only way it fails, and it does so before the walk.
    Otherwise it removes the elements whose group number is one of the
    numbers read, with what they hold, and no element of such a group is
    left at any depth. *)
Theorem remove_group_tags_fails_on_a_bad_group_only ds groups_to_remove :
  match group_numbers groups_to_remove with
  | Ok group_rm =>
      Forall2 (λ g v, int16 g = Ok v) groups_to_remove group_rm ∧
      ∃ ds' log,
        remove_group_tags ds groups_to_remove = Ok (ds', log) ∧
        removes (group_pred group_rm) ds ds' ∧
        (∀ π t b', element_at ds' π t = Some b' → Z.of_N (group t) ∉ group_rm)
  | Raise e =>
      e = ValueError ∧
      Exists (λ g, int16 g = Raise ValueError) groups_to_remove ∧
      remove_group_tags ds groups_to_remove = Raise ValueError
  | OutOfFuel => False
  end.
Proof.
  pose proof (group_numbers_spec groups_to_remove) as H.
  destruct (group_numbers groups_to_remove) as [group_rm|e|] eqn:Hg; [| |done].
  - split; [done|].
    destruct (remove_group_tags_prune ds groups_to_remove group_rm Hg) as (log & -> & _).
    eexists _, log. split; [done|]. split; [apply prune_removes|].
    intros π t b' (b & _ & E & _)%element_at_prune_Some.
    unfold group_pred in E. by apply bool_decide_eq_false in E.
  - destruct H as [-> H]. split; [done|]. split; [done|].
    unfold remove_group_tags. by rewrite Hg.
Qed.

(** Property X7.  [remove_tags] never fails, for any list of tags.  It
    removes the elements with a listed tag, with what they hold; no element
    with a listed tag is left at any depth; with the empty list the dataset
    is unchanged; and applied to its own result it returns that result. *)
Theorem remove_tags_removes_the_listed_tags ds tags_to_rm :
  ∃ ds' log,
    remove_tags ds tags_to_rm = Ok (ds', log) ∧
    removes (tag_pred tags_to_rm) ds ds' ∧
    (∀ π t b', element_at ds' π t = Some b' → t ∉ tags_to_rm) ∧
    (tags_to_rm = [] → ds' = ds) ∧
    ∃ log', remove_tags ds' tags_to_rm = Ok (ds', log').
Proof.
  destruct (remove_tags_prune ds tags_to_rm) as (log & -> & _).
  exists (prune (tag_pred tags_to_rm) ds), log. split; [done|].
  split; [apply prune_removes|]. split_and!.
  - intros π t b' (b & _ & E & _)%element_at_prune_Some.
    unfold tag_pred in E. by apply bool_decide_eq_false in E.
  - intros ->. apply prune_nothing. intros π t b _. unfold tag_pred.
    apply bool_decide_eq_false. by intros ?%elem_of_nil.
  - destruct (remove_tags_prune (prune (tag_pred tags_to_rm) ds) tags_to_rm)
      as (log' & -> & _).
    exists log'. by rewrite (prune_idempotent _ _ (shallow_tag tags_to_rm)).
Qed.

End PassTheorems.

Section RemovalOutcome.
Context (tag_for_keyword : string → option N).

Lemma Tag_outcome s :
  match Tag tag_for_keyword s with
  | Ok _ => True
  | Raise e => e = ValueError ∨ e = OverflowError
  | OutOfFuel => False
  end.
Proof.
  unfold Tag. destruct (int16_outcome s) as [[v ->]| ->]; simpl.
  - destruct (0xFFFFFFFF <? v)%Z; simpl; [auto|]. destruct (v <? 0)%Z; simpl; auto.
  - destruct (tag_for_keyword s) as [t|]; simpl; [|auto].
    destruct (Z.of_N t <? 0)%Z; simpl; auto.
Qed.

Lemma tags_loop_outcome l : ∀ acc,
  match for_each l acc (λ tag_to_rm tag_to_rm_list,
                          t ← Tag tag_for_keyword tag_to_rm; Ok (tag_to_rm_list ++ [t])) with
  | Ok _ => True
  | Raise e => e = ValueError ∨ e = OverflowError
  | OutOfFuel => False
  end.
Proof.
  induction l as [|s l IH]; intros acc; cbn [for_each]; [done|].
  pose proof (Tag_outcome s) as H.
  destruct (Tag tag_for_keyword s) as [t|e|]; simpl; [apply IH|done..].
Qed.

Lemma remove_elements_outcome args ds :
  match remove_elements tag_for_keyword args ds with
  | Ok _ => True
  | Raise e => e = ValueError ∨ e = OverflowError
  | OutOfFuel => False
  end.
Proof.
  pose proof (remove_elements_stages tag_for_keyword args ds) as H.
  pose proof (group_numbers_spec) as Hg.
  unfold decoded_groups, decoded_tags in H.
  assert (HG : match (match rm_group args with
                      | Some groups => g ← group_numbers groups; Ok (Some g)
                      | None => Ok None
                      end) with
               | Ok _ => True | Raise e => e = ValueError | OutOfFuel => False end).
  { destruct (rm_group args) as [gs|]; [|done]. specialize (Hg gs).
    destruct (group_numbers gs); simpl; [done|by destruct Hg|done]. }
  assert (HT : match (match rm_tag args with
                      | Some ((_ :: _) as tags) =>
                          t ← tags_to_remove tag_for_keyword tags; Ok (Some t)
                      | _ => Ok None
                      end) with
               | Ok _ => True
               | Raise e => e = ValueError ∨ e = OverflowError
               | OutOfFuel => False end).
  { destruct (rm_tag args) as [[|t ts]|]; [done| |done].
    pose proof (tags_loop_outcome (t :: ts) []) as Ht. unfold tags_to_remove.
    destruct (for_each (t :: ts) [] _); simpl; done. }
  destruct (match rm_group args with Some _ => _ | None => _ end) as [groups|e|].
  - destruct (match rm_tag args with Some _ => _ | None => _ end) as [tags|e|].
    + destruct H as [log ->]. done.
    + by rewrite H.
    + done.
  - rewrite H. auto.
  - done.
Qed.

End RemovalOutcome.

(** ** Numerals and keywords *)

Lemma is_hex_not_underscore c : is_hex c = true → Ascii.eqb c "_" = false.
Proof.
  intros H. destruct (Ascii.eqb_spec c "_") as [->|]; [|done]. by vm_compute in H.
Qed.

Lemma is_hex_not_x c : is_hex c = true → Ascii.eqb c "x" || Ascii.eqb c "X" = false.
Proof.
  intros H. destruct (Ascii.eqb_spec c "x") as [->|]; [by vm_compute in H|].
  destruct (Ascii.eqb_spec c "X") as [->|]; [by vm_compute in H|]. done.
Qed.

Lemma scan_hex l : ∀ acc n,
  forallb is_hex l = true →
  scan_digits l acc false n = Some (hex_number l acc, n + List.length l, []).
Proof.
  induction l as [|c l IH]; intros acc n H; simpl.
  - by rewrite Nat.add_0_r.
  - simpl in H. apply andb_true_iff in H as [Hc Hl].
    rewrite (is_hex_not_underscore c Hc). unfold is_hex in Hc.
    destruct (hex_value c) as [v|]; [|done]. simpl.
    rewrite IH by done. do 3 f_equal. lia.
Qed.

Lemma hex_value_bounds c v : hex_value c = Some v → (0 ≤ v < 16)%Z.
Proof.
  unfold hex_value. repeat case_match; intros [= <-]; lia.
Qed.

Lemma hex_number_nonneg l : ∀ acc, (0 ≤ acc)%Z → (0 ≤ hex_number l acc)%Z.
Proof.
  induction l as [|c l IH]; intros acc H; simpl; [done|].
  apply IH. destruct (hex_value c) as [v|] eqn:E; simpl; [|lia].
  apply hex_value_bounds in E. lia.
Qed.

(** [int(s, 16)] on a string that starts with a hexadecimal digit which is
    not the "0" of a prefix. *)
Lemma int16_hex_first c s :
  is_hex c = true →
  (match s with
   | String x _ => Ascii.eqb x "x" || Ascii.eqb x "X"
   | "" => false
   end = false) →
  int16 (String c s) =
    match scan_digits (c :: list_ascii_of_string s) 0 false 0 with
    | Some (v, S _, rest) =>
        match skip_spaces rest with
        | [] => Ok v
        | _ :: _ => Raise ValueError
        end
    | _ => Raise ValueError
    end.
Proof.
  intros Hc Hx. unfold int16. cbn [list_ascii_of_string].
  destruct c as [[] [] [] [] [] [] [] []]; try (by vm_compute in Hc); clear Hc;
    try reflexivity.
  destruct s as [|x s']; [reflexivity|].
  cbn [list_ascii_of_string]. cbn [skip_spaces]. simpl in Hx.
  change (isspace "0") with false. cbv beta iota. rewrite Hx. reflexivity.
Qed.

(** [int(s, 16)] on hexadecimal digits after the prefix. *)
Lemma int16_hex_prefixed x c s :
  Ascii.eqb x "x" || Ascii.eqb x "X" = true →
  is_hex c = true →
  int16 (String "0" (String x (String c s))) =
    match scan_digits (c :: list_ascii_of_string s) 0 false 0 with
    | Some (v, S _, rest) =>
        match skip_spaces rest with
        | [] => Ok v
        | _ :: _ => Raise ValueError
        end
    | _ => Raise ValueError
    end.
Proof.
  intros Hx Hc. unfold int16. cbn [list_ascii_of_string]. cbn [skip_spaces].
  change (isspace "0") with false. cbv beta iota. rewrite Hx.
  destruct c as [[] [] [] [] [] [] [] []]; try (by vm_compute in Hc); reflexivity.
Qed.

Lemma hex_digits_cons s :
  hex_digits s = true →
  ∃ c s', s = String c s' ∧ is_hex c = true ∧
          forallb is_hex (list_ascii_of_string s') = true ∧
          match s' with
          | String x _ => Ascii.eqb x "x" || Ascii.eqb x "X"
          | "" => false
          end = false.
Proof.
  unfold hex_digits. destruct s as [|c s']; [done|]. simpl.
  intros [Hc Hs]%andb_true_iff. exists c, s'. split_and!; try done.
  destruct s' as [|x s'']; [done|]. simpl in Hs.
  apply andb_true_iff in Hs as [Hx _]. by apply is_hex_not_x.
Qed.

Lemma int16_hex s :
  hex_digits s = true →
  int16 s = Ok (hex_number (list_ascii_of_string s) 0) ∧
  int16 ("0x" +:+ s) = Ok (hex_number (list_ascii_of_string s) 0) ∧
  int16 ("0X" +:+ s) = Ok (hex_number (list_ascii_of_string s) 0).
Proof.
  intros (c & s' & -> & Hc & Hs & Hx)%hex_digits_cons.
  assert (Hall : forallb is_hex (c :: list_ascii_of_string s') = true).
  { simpl. by rewrite Hc, Hs. }
  split_and!.
  - rewrite (int16_hex_first c s' Hc Hx), (scan_hex _ 0 0 Hall). done.
  - change ("0x" +:+ String c s') with (String "0" (String "x" (String c s'))).
    rewrite (int16_hex_prefixed "x" c s' eq_refl Hc), (scan_hex _ 0 0 Hall). done.
  - change ("0X" +:+ String c s') with (String "0" (String "X" (String c s'))).
    rewrite (int16_hex_prefixed "X" c s' eq_refl Hc), (scan_hex _ 0 0 Hall). done.
Qed.

(** Property X8.  A non-empty string of hexadecimal digits is read by
    [int(s, 16)] as the number it denotes, which is not negative, and so is
    the string with "0x" or "0X" in front.  [Tag] turns such a string into
    the tag of that number without looking at the dictionary of keywords,
    and raises [OverflowError] when the number is above 0xFFFFFFFF.
    [--rm-group] with and without the prefix does the same. *)
Theorem hexadecimal_digits_are_read_with_or_without_prefix s :
  hex_digits s = true →
  let v := hex_number (list_ascii_of_string s) 0 in
  (0 ≤ v)%Z ∧
  int16 s = Ok v ∧ int16 ("0x" +:+ s) = Ok v ∧ int16 ("0X" +:+ s) = Ok v ∧
  (∀ tag_for_keyword,
     Tag tag_for_keyword s =
       if (0xFFFFFFFF <? v)%Z then Raise OverflowError else Ok (Z.to_N v)) ∧
  (∀ ds, remove_group_tags ds ["0x" +:+ s] = remove_group_tags ds [s]).
Proof.
  intros Hs v. destruct (int16_hex s Hs) as (H1 & H2 & H3). fold v in H1, H2, H3.
  assert (Hv : (0 ≤ v)%Z) by (by apply hex_number_nonneg).
  split_and!; try done.
  - intros tag_for_keyword. unfold Tag. rewrite H1.
    destruct (0xFFFFFFFF <? v)%Z; simpl; [done|].
    destruct (Z.ltb_spec v 0); [lia|done].
  - intros ds. unfold remove_group_tags, group_numbers. cbn [for_each].
    by rewrite H1, H2.
Qed.

Lemma skip_spaces_inv l :
  ∃ sp, l = sp ++ skip_spaces l ∧ Forall (λ c, isspace c = true) sp.
Proof.
  induction l as [|c l (sp & E & F)]; simpl.
  - exists []. done.
  - destruct (isspace c) eqn:Hc.
    + exists (c :: sp). split; [by rewrite <- app_comm_cons, <- E|by constructor].
    + exists []. done.
Qed.

Lemma skip_spaces_nil l : skip_spaces l = [] → Forall (λ c, isspace c = true) l.
Proof.
  intros H. destruct (skip_spaces_inv l) as (sp & E & F). rewrite H, app_nil_r in E.
  by subst.
Qed.

Lemma scan_digits_inv l : ∀ acc p n v m rest,
  scan_digits l acc p n = Some (v, m, rest) →
  ∃ used, l = used ++ rest ∧
          Forall (λ c, is_hex c = true ∨ c = "_"%char) used.
Proof.
  induction l as [|c l IH]; intros acc p n v m rest; simpl.
  - destruct p; [done|]. intros [= <- <- <-]. exists []. done.
  - destruct (Ascii.eqb_spec c "_") as [->|Hne].
    + destruct p; [done|]. intros (used & -> & F)%IH.
      exists ("_"%char :: used). split; [done|]. constructor; auto.
    + destruct (hex_value c) as [hv|] eqn:E.
      * intros (used & -> & F)%IH. exists (c :: used). split; [done|].
        constructor; [|done]. left. unfold is_hex. by rewrite E.
      * destruct p; [done|]. intros [= <- <- <-]. exists []. done.
Qed.

Lemma foreign_spec c :
  foreign c = true →
  is_hex c = false ∧ isspace c = false ∧
  c ≠ "_"%char ∧ c ≠ "+"%char ∧ c ≠ "-"%char ∧ c ≠ "x"%char ∧ c ≠ "X"%char.
Proof.
  unfold foreign. intros H%negb_true_iff.
  apply orb_false_iff in H as [H H3]. apply orb_false_iff in H as [H1 H2].
  apply bool_decide_eq_false in H3. split_and!; try done;
    intros ->; apply H3; repeat (try (by left); right).
Qed.

Lemma underscore_guard {A} l (X : res A) v :
  match l with
  | "_"%char :: _ => Raise ValueError
  | _ => X
  end = Ok v → X = Ok v.
Proof. destruct l as [|[[] [] [] [] [] [] [] []] l']; done. Qed.

(** A numeral that [int(s, 16)] accepts holds no foreign character. *)
Lemma int16_Ok_chars s v :
  int16 s = Ok v → Forall (λ c, foreign c = false) (list_ascii_of_string s).
Proof.
  unfold int16.
  destruct (skip_spaces_inv (list_ascii_of_string s)) as (sp & E & Fsp).
  revert E. generalize (skip_spaces (list_ascii_of_string s)) as l0.
  intros l0 ->.
  assert (Hsp : Forall (λ c, foreign c = false) sp).
  { eapply Forall_impl; [exact Fsp|]. intros c Hc. unfold foreign.
    rewrite Hc. by rewrite orb_true_r. }
  assert (Hsign : ∃ negative l1 pre,
            match l0 with
            | "+"%char :: l' => (false, l')
            | "-"%char :: l' => (true, l')
            | _ => (false, l0)
            end = (negative, l1) ∧
            l0 = pre ++ l1 ∧ Forall (λ c, foreign c = false) pre).
  { destruct l0 as [|c l']; [by exists false, [], []|].
    destruct c as [[] [] [] [] [] [] [] []];
      first [by eexists _, _, []
            |by eexists _, _, [_]; split; [done|]; split; [done|repeat constructor]]. }
  destruct Hsign as (negative & l1 & pre1 & -> & -> & F1).
  assert (Hpre : ∃ l2 pre,
            match l1 with
            | "0"%char :: x :: l' =>
                if Ascii.eqb x "x" || Ascii.eqb x "X" then
                  match l' with
                  | "_"%char :: l'' => l''
                  | _ => l'
                  end
                else l1
            | _ => l1
            end = l2 ∧
            l1 = pre ++ l2 ∧ Forall (λ c, foreign c = false) pre).
  { destruct l1 as [|c l']; [by exists [], []|].
    destruct l' as [|x l''].
    { destruct c as [[] [] [] [] [] [] [] []]; by eexists _, []. }
    destruct c as [[] [] [] [] [] [] [] []]; try (by eexists _, []).
    destruct (Ascii.eqb_spec x "x") as [->|Hx]; simpl.
    - destruct l'' as [|u l3];
        [by eexists _, [_; _]; split; [done|]; split; [done|repeat constructor]|].
      destruct u as [[] [] [] [] [] [] [] []];
        first [by eexists _, [_; _]; split; [done|]; split; [done|repeat constructor]
              |by eexists _, [_; _; _]; split; [done|]; split; [done|repeat constructor]].
    - destruct (Ascii.eqb_spec x "X") as [->|Hx']; simpl; [|by eexists _, []].
      destruct l'' as [|u l3];
        [by eexists _, [_; _]; split; [done|]; split; [done|repeat constructor]|].
      destruct u as [[] [] [] [] [] [] [] []];
        first [by eexists _, [_; _]; split; [done|]; split; [done|repeat constructor]
              |by eexists _, [_; _; _]; split; [done|]; split; [done|repeat constructor]]. }
  destruct Hpre as (l2 & pre2 & -> & -> & F2).
  intros H.
  apply underscore_guard in H.
  assert (∃ v' m rest, scan_digits l2 0 false 0 = Some (v', m, rest) ∧ skip_spaces rest = [])
    as (v' & m & rest & Hscan & Hrest).
  { destruct (scan_digits l2 0 false 0) as [[[v' m] rest]|]; [|done].
    exists v', m, rest. split; [done|]. destruct m as [|m]; [done|].
    by destruct (skip_spaces rest). }
  apply scan_digits_inv in Hscan as (used & -> & Fused).
  apply skip_spaces_nil in Hrest.
  rewrite !Forall_app. split_and!; try done.
  - eapply Forall_impl; [exact Fused|]. intros c [Hc| ->]; [|done].
    unfold foreign. by rewrite Hc.
  - eapply Forall_impl; [exact Hrest|]. intros c Hc. unfold foreign.
    rewrite Hc. by rewrite orb_true_r.
Qed.

Lemma int16_foreign s c :
  c ∈ list_ascii_of_string s → foreign c = true → int16 s = Raise ValueError.
Proof.
  intros Hin Hc. destruct (int16_outcome s) as [[v E]|E]; [|done].
  apply int16_Ok_chars in E. rewrite Forall_forall in E. specialize (E c Hin). congruence.
Qed.

(** Property X9.  A string that holds an ASCII character (a byte below
    128) which is neither a hexadecimal digit nor white space, a sign, an
    underscore or an "x" is refused by [int(s, 16)] with [ValueError].
    [Tag] then looks the string up as a keyword: the tag of the dictionary,
    or [ValueError] for an unknown keyword.  As a group the string makes
    [remove_group_tags] raise [ValueError].  Nothing is said of a string
    for its bytes above 127: they spell characters of other scripts, some
    of which Python reads as digits or white space. *)
Theorem a_word_with_a_foreign_character_is_no_number s c :
  c ∈ list_ascii_of_string s → (N_of_ascii c < 128)%N → foreign c = true →
  int16 s = Raise ValueError ∧
  (∀ tag_for_keyword,
     Tag tag_for_keyword s =
       match tag_for_keyword s with
       | Some t => Ok t
       | None => Raise ValueError
       end) ∧
  (∀ ds, remove_group_tags ds [s] = Raise ValueError).
Proof.
  intros Hin _ Hc. pose proof (int16_foreign s c Hin Hc) as H.
  split; [done|]. split.
  - intros tag_for_keyword. unfold Tag. rewrite H.
    destruct (tag_for_keyword s) as [t|]; simpl; [|done].
    destruct (Z.ltb_spec (Z.of_N t) 0); [lia|]. by rewrite N2Z.id.
  - intros ds. unfold remove_group_tags, group_numbers. cbn [for_each]. by rewrite H.
Qed.

(** ** The listing of discovery *)

Lemma entry_lookup_elem nm es ch : entry_lookup nm es = Some ch → (nm, ch) ∈ es.
Proof.
  induction es as [|[nm0 n0] es IH]; simpl; [done|].
  destruct (String.eqb_spec nm nm0) as [->|_].
  - intros [= ->]. left.
  - intros H. right. by apply IH.
Qed.

Lemma Path_eta p : mkPath (anchor p) (parts p) = p.
Proof. by destruct p. Qed.

(** The DICOM files below a node are the files with the magic bytes that
    are reached from it by at least one name. *)
Lemma elem_of_dicom_files n :
  ∀ top fp, unique_names n = true →
    (fp ∈ dicom_files n top ↔
     ∃ ps c, ps ≠ [] ∧ fp = mkPath (anchor top) (parts top ++ ps) ∧
             resolve_parts n ps = Some (File c) ∧ has_magic c = true).
Proof.
  induction n as [c0|es IH] using Node_nested_ind; intros top fp Hu.
  - simpl. split; [by intros ?%elem_of_nil|].
    intros (ps & c & Hne & _ & Hr & _). destruct ps; done.
  - simpl in Hu. apply andb_true_iff in Hu as [ND%bool_decide_eq_true Hall].
    rewrite forallb_forall in Hall. rewrite Forall_forall in IH.
    cbn [dicom_files]. rewrite elem_of_app. split.
    + intros [Hin|Hin].
      * apply list_elem_of_omap in Hin as ([nm ch] & Hin & Hsome). simpl in Hsome.
        destruct ch as [c|]; [|done]. destruct (has_magic c) eqn:Hm; [|done].
        injection Hsome as <-. exists [nm], c. split; [done|]. split; [done|].
        simpl. rewrite (entry_lookup_NoDup _ _ _ ND Hin). done.
      * apply list_elem_of_In, in_flat_map in Hin as ([nm ch] & Hin & Hfp).
        apply list_elem_of_In in Hin, Hfp. simpl in Hfp.
        apply (IH (nm, ch) Hin) in Hfp as (ps & c & Hne & -> & Hr & Hm).
        2:{ apply (Hall (nm, ch)). by apply list_elem_of_In. }
        exists (nm :: ps), c. split; [done|]. simpl. rewrite <- app_assoc.
        split; [done|]. rewrite (entry_lookup_NoDup _ _ _ ND Hin). done.
    + intros (ps & c & Hne & -> & Hr & Hm). destruct ps as [|nm ps]; [done|].
      simpl in Hr. destruct (entry_lookup nm es) as [ch|] eqn:E; [|done]. simpl in Hr.
      apply entry_lookup_elem in E.
      destruct ps as [|nm' ps].
      * simpl in Hr. injection Hr as ->. left. apply list_elem_of_omap.
        exists (nm, File c). split; [done|]. simpl. by rewrite Hm.
      * right. apply list_elem_of_In, in_flat_map. exists (nm, ch).
        split; [by apply list_elem_of_In|]. apply list_elem_of_In. simpl.
        apply (IH (nm, ch) E); [apply (Hall (nm, ch)); by apply list_elem_of_In|].
        exists (nm' :: ps), c. split; [done|]. simpl. rewrite <- app_assoc. done.
Qed.

Lemma flat_map_bind {A B} (f : A → list B) l : flat_map f l = l ≫= f.
Proof. induction l as [|x l IH]; simpl; [done|]. by rewrite IH. Qed.

Lemma dicom_files_prefix n :
  ∀ top fp, fp ∈ dicom_files n top →
    anchor fp = anchor top ∧
    ∃ nm ps, parts fp = parts top ++ nm :: ps.
Proof.
  induction n as [c0|es IH] using Node_nested_ind; intros top fp.
  - simpl. by intros ?%elem_of_nil.
  - rewrite Forall_forall in IH. cbn [dicom_files]. rewrite elem_of_app.
    intros [Hin|Hin].
    + apply list_elem_of_omap in Hin as ([nm ch] & Hin & Hsome). simpl in Hsome.
      destruct ch as [c|]; [|done]. destruct (has_magic c); [|done].
      injection Hsome as <-. split; [done|]. exists nm, []. done.
    + apply list_elem_of_In, in_flat_map in Hin as ([nm ch] & Hin & Hfp).
      apply list_elem_of_In in Hin, Hfp. simpl in Hfp.
      apply (IH (nm, ch) Hin) in Hfp as (Ha & nm' & ps & Hp). split; [done|].
      exists nm, (nm' :: ps). rewrite Hp. simpl. by rewrite <- app_assoc.
Qed.

Lemma dicom_files_NoDup n :
  ∀ top, unique_names n = true → NoDup (dicom_files n top).
Proof.
  induction n as [c0|es IH] using Node_nested_ind; intros top Hu.
  - simpl. constructor.
  - simpl in Hu. apply andb_true_iff in Hu as [ND%bool_decide_eq_true Hall].
    rewrite forallb_forall in Hall. rewrite Forall_forall in IH.
    cbn [dicom_files]. apply NoDup_app. split; [|split].
    + clear IH Hall. induction es as [|[nm ch] es IHes]; simpl; [constructor|].
      apply NoDup_cons in ND as [Hnot ND]. specialize (IHes ND).
      destruct ch as [c|]; simpl; [|done]. destruct (has_magic c); [|done].
      constructor; [|done].
      intros Hin. apply list_elem_of_omap in Hin as ([nm' ch'] & Hin & Hsome).
      simpl in Hsome. destruct ch' as [c'|]; [|done]. destruct (has_magic c'); [|done].
      injection Hsome as Heq. apply app_inv_head in Heq. injection Heq as ->.
      apply Hnot. apply list_elem_of_fmap. by exists (nm, File c').
    + intros fp Hin1 Hin2.
      apply list_elem_of_omap in Hin1 as ([nm ch] & _ & Hsome). simpl in Hsome.
      destruct ch as [c|]; [|done]. destruct (has_magic c); [|done].
      injection Hsome as <-.
      apply list_elem_of_In, in_flat_map in Hin2 as ([nm' ch'] & _ & Hfp).
      apply list_elem_of_In in Hfp. simpl in Hfp.
      apply dicom_files_prefix in Hfp as (_ & nm2 & ps & Hp). simpl in Hp.
      rewrite <- app_assoc in Hp. apply app_inv_head in Hp. done.
    + rewrite flat_map_bind. apply NoDup_bind.
      * intros [nm1 ch1] [nm2 ch2] fp H1 H2 Hf1 Hf2. simpl in *.
        apply dicom_files_prefix in Hf1 as (_ & a1 & ps1 & Hp1).
        apply dicom_files_prefix in Hf2 as (_ & a2 & ps2 & Hp2).
        simpl in *. rewrite Hp1, <- !app_assoc in Hp2.
        apply app_inv_head in Hp2. injection Hp2 as -> _ _.
        f_equal. pose proof (entry_lookup_NoDup _ _ _ ND H1) as E1.
        rewrite (entry_lookup_NoDup _ _ _ ND H2) in E1. congruence.
      * intros [nm ch] Hin. simpl. apply (IH (nm, ch) Hin).
        apply (Hall (nm, ch)). by apply list_elem_of_In.
      * by apply NoDup_fmap_1 in ND.
Qed.

Lemma make_dcm_fp_list_Ok pth w fp_list w' :
  unique_names (fs w) = true →
  make_dcm_fp_list pth w = (Ok fp_list, w') →
  w' = w ∧ fp_list ≠ [] ∧
  ∃ n, resolve (fs w) pth = Some n ∧ fp_list = found_at n pth ∧ unique_names n = true.
Proof.
  intros Hu. unfold make_dcm_fp_list, get_fs, is_file, is_dir.
  unfold mbind, Prog_bind at 1. simpl.
  destruct (resolve (fs w) pth) as [[c|es]|] eqn:Hres.
  - unfold is_dicom, get_fs, lift, mbind, Prog_bind, mret, Prog_ret. simpl.
    unfold read_file. rewrite Hres. simpl. destruct (has_magic c) eqn:Hm; simpl; [|done].
    intros [= <- <-]. split; [done|]. split; [done|]. exists (File c).
    simpl. by rewrite Hm.
  - unfold mbind, Prog_bind.
    pose proof (unique_names_resolve_parts _ _ _ Hu Hres) as Hu'.
    rewrite (sniff_dirs_os_walk w (Dir es) pth [] Hres Hu').
    cbn [app]. destruct (dicom_files (Dir es) pth) as [|fp l] eqn:E; simpl; [done|].
    intros [= <- <-]. split; [done|]. split; [done|]. exists (Dir es).
    split; [done|]. split; [|done]. simpl in *. by rewrite E.
  - done.
Qed.

(** Property X10.  When [make_dcm_fp_list] returns, in a tree whose
    directories list every name once, it has changed nothing and written
    nothing; the list is not empty and holds no path twice; and a path is
    in the list exactly when it is the given path followed by zero or more
    names and is a readable file with the DICOM magic bytes. *)
Theorem discovery_lists_each_dicom_file_below_the_path_once pth w fp_list w' :
  unique_names (fs w) = true →
  make_dcm_fp_list pth w = (Ok fp_list, w') →
  w' = w ∧ fp_list ≠ [] ∧ NoDup fp_list ∧
  ∀ fp, fp ∈ fp_list ↔
        ∃ ps c, fp = mkPath (anchor pth) (parts pth ++ ps) ∧
                read_file (fs w) fp = Ok c ∧ has_magic c = true.
Proof.
  intros Hu (-> & Hne & n & Hres & -> & Hun)%make_dcm_fp_list_Ok; [|done].
  split; [done|]. split; [done|]. destruct n as [c0|es].
  - simpl in *. destruct (has_magic c0) eqn:Hm; [|done]. split; [apply NoDup_singleton|].
    intros fp. rewrite list_elem_of_singleton. split.
    + intros ->. exists [], c0. rewrite app_nil_r, Path_eta.
      split; [done|]. unfold read_file. by rewrite Hres.
    + intros (ps & c & -> & Hr & _). unfold read_file, resolve in Hr. simpl in Hr.
      unfold resolve in Hres. rewrite resolve_parts_app, Hres in Hr. simpl in Hr.
      destruct ps; [|done]. by rewrite app_nil_r, Path_eta.
  - cbn [found_at]. split; [by apply dicom_files_NoDup|].
    intros fp. rewrite (elem_of_dicom_files (Dir es) pth fp Hun). split.
    + intros (ps & c & _ & -> & Hr & Hm). exists ps, c. split; [done|].
      split; [|done]. unfold read_file, resolve. simpl.
      unfold resolve in Hres. rewrite resolve_parts_app, Hres. cbn [mbind option_bind].
      by rewrite Hr.
    + intros (ps & c & -> & Hr & Hm). exists ps, c.
      unfold read_file, resolve in Hr. simpl in Hr.
      unfold resolve in Hres. rewrite resolve_parts_app, Hres in Hr.
      destruct ps as [|nm ps]; [done|]. split; [done|]. split; [done|].
      split; [|done]. cbn [mbind option_bind] in Hr.
      destruct (resolve_parts (Dir es) (nm :: ps)) as [[c'|]|]; congruence.
Qed.

(** ** The name of the backup *)

Lemma list_ascii_app s1 s2 :
  list_ascii_of_string (s1 +:+ s2) = list_ascii_of_string s1 ++ list_ascii_of_string s2.
Proof.
  induction s1 as [|c s1 IH]; [done|]. rewrite string_app_cons. simpl. by rewrite IH.
Qed.

Lemma rfind_dot_app l1 l2 i found :
  rfind_dot (l1 ++ l2) i found = rfind_dot l2 (i + List.length l1) (rfind_dot l1 i found).
Proof.
  revert i found. induction l1 as [|c l1 IH]; intros i found; simpl.
  - by rewrite Nat.add_0_r.
  - rewrite IH. f_equal. lia.
Qed.

Lemma rfind_dot_take l : ∀ i found j,
  rfind_dot l i found = Some j → found = Some j ∨ i ≤ j.
Proof.
  induction l as [|c l IH]; intros i found j; simpl; [auto|].
  intros [H|H]%IH; [|right; lia].
  destruct (Ascii.eqb c "."); [right; injection H; lia|auto].
Qed.

Lemma length_list_ascii s : List.length (list_ascii_of_string s) = String.length s.
Proof. induction s; simpl; auto. Qed.

Lemma substring_app_tail s1 s2 :
  String.substring (String.length s1) (String.length s2) (s1 +:+ s2) = s2.
Proof.
  induction s1 as [|c s1 IH].
  - rewrite string_app_nil. apply substring_all.
  - rewrite string_app_cons. simpl. exact IH.
Qed.

Lemma suffix_of_name_bak nm : nm ≠ "" → suffix_of_name (nm +:+ ".bak") = ".bak".
Proof.
  intros Hnm. unfold suffix_of_name.
  rewrite list_ascii_app, rfind_dot_app. simpl.
  rewrite length_list_ascii, string_app_length. simpl.
  assert (0 < String.length nm) by (destruct nm; [done|simpl; lia]).
  replace (0 <? String.length nm) with true by (symmetry; by apply Nat.ltb_lt).
  replace (String.length nm <? String.length nm + 4 - 1) with true
    by (symmetry; apply Nat.ltb_lt; lia).
  simpl. replace (String.length nm + 4 - String.length nm) with (String.length ".bak")
    by (simpl; lia).
  apply substring_app_tail.
Qed.

Lemma string_app_inv_tail s1 s2 t : s1 +:+ t = s2 +:+ t → s1 = s2.
Proof.
  intros H. apply (f_equal list_ascii_of_string) in H.
  rewrite !list_ascii_app in H. apply app_inv_tail in H.
  apply (f_equal string_of_list_ascii) in H.
  by rewrite !string_of_list_ascii_of_string in H.
Qed.

Lemma name_bak fp : name (bak fp) = name fp +:+ ".bak".
Proof. unfold name at 1, bak. simpl. by rewrite last_last. Qed.

(** Property X11.  For a path with a name, [fp.with_suffix(fp.suffix +
    ".bak")] is the path in the same directory whose name is the whole name
    of [fp] followed by ".bak": the old suffix is kept.  Its suffix is
    ".bak", it differs from [fp], and two paths with the same backup path
    are the same path.  For a path without a name [with_suffix] raises
    [ValueError]. *)
Theorem backup_path_is_the_name_with_bak_appended fp :
  name fp ≠ "" →
  with_suffix fp (suffix fp +:+ ".bak") = Ok (bak fp) ∧
  anchor (bak fp) = anchor fp ∧
  removelast (parts (bak fp)) = removelast (parts fp) ∧
  name (bak fp) = name fp +:+ ".bak" ∧
  suffix (bak fp) = ".bak" ∧
  parts (bak fp) ≠ parts fp ∧
  (∀ fp', name fp' ≠ "" → bak fp' = bak fp → fp' = fp) ∧
  (∀ fp', name fp' = "" → with_suffix fp' (suffix fp' +:+ ".bak") = Raise ValueError).
Proof.
  intros Hn. split_and!.
  - by apply with_suffix_bak.
  - done.
  - unfold bak. simpl. by rewrite removelast_last.
  - apply name_bak.
  - unfold suffix. rewrite name_bak. by apply suffix_of_name_bak.
  - apply bak_parts_ne.
  - intros fp' Hn' Heq. unfold bak in Heq. injection Heq as Ha Hp.
    apply app_inj_tail in Hp as [Hr Hnm]. apply string_app_inv_tail in Hnm.
    rewrite <- (Path_eta fp), <- (Path_eta fp'). f_equal; [done|].
    rewrite (parts_split fp Hn), (parts_split fp' Hn'). by rewrite Hr, Hnm.
  - intros fp' Hn'. unfold with_suffix. by rewrite Hn'.
Qed.

(** ** The turns of the loop *)

Section LoopCases.
Context (tag_for_keyword : string → option N) (dcmwrite : Encoder).

Lemma with_suffix_Ok fp sfx q : with_suffix fp sfx = Ok q → name fp ≠ "".
Proof.
  unfold with_suffix. destruct (String.eqb_spec (name fp) ""); [done|]. done.
Qed.

(** What a turn of the loop has done, by its outcome. *)
Lemma loop_body_cases args n i fp w r w' :
  loop_body tag_for_keyword dcmwrite args n i fp w = (r, w') →
  ∃ evs, grows_by w w' evs ∧
    let P := Output stdout (ProgressLine (progress_message n) i n) in
    (r ≠ Ok tt ∧ evs = [P]) ∨
    ∃ ds, read_file (fs w) fp = Ok (DicomFile ds) ∧
      ((is_dicomdir ds = true ∧ r = Ok tt ∧ evs = [P; Dcmread fp ds]) ∨
       (is_dicomdir ds = false ∧
        ∃ C, (if no_backup args then C = []
              else C = [] ∨ C = [Copy fp (if is_dir (fs w) (bak fp)
                                     then joinpath (bak fp) (name fp) else bak fp)]) ∧
          ((r ≠ Ok tt ∧ evs = [P; Dcmread fp ds] ++ C) ∨
           ((no_backup args = false → C ≠ []) ∧
            ∃ ds' log, remove_elements tag_for_keyword args ds = Ok (ds', log) ∧
                       evs = [P; Dcmread fp ds] ++ C ++ [SaveAs fp ds'] ∧
                       r = match dcmwrite ds' with
                           | Complete _ => Ok tt
                           | Broken _ => Raise EncodingError
                           end)))).
Proof.
  rewrite loop_body_run. simpl.
  set (e1 := Output stdout (ProgressLine (progress_message n) i n)).
  assert (G1 : grows_by w (mkWorld (fs w) (trace w ++ [e1])) [e1]) by done.
  destruct (read_file (fs w) fp) as [[bytes|ds]| |] eqn:Hread;
    try (intros [= <- <-]; exists [e1]; split; [done|]; left; done).
  set (w2 := mkWorld (fs w) ((trace w ++ [e1]) ++ [Dcmread fp ds])).
  assert (G2 : grows_by w w2 ([e1] ++ [Dcmread fp ds])).
  { eapply grows_by_trans; [done|]. done. }
  destruct (is_dicomdir ds) eqn:Hdd.
  { intros [= <- <-]. exists [e1; Dcmread fp ds]. split; [done|]. right.
    exists ds. split; [done|]. left. done. }
  assert (∀ r3 w3,
    (if no_backup args then (Ok tt, w2)
     else match with_suffix fp (suffix fp +:+ ".bak") with
          | Ok fp_bak => shutil_copy fp fp_bak w2
          | Raise e => (Raise e, w2)
          | OutOfFuel => (OutOfFuel, w2)
          end) = (r3, w3) →
    ∃ C, grows_by w w3 ([e1; Dcmread fp ds] ++ C) ∧
         (if no_backup args then C = []
          else C = [] ∨ C = [Copy fp (if is_dir (fs w) (bak fp)
                                 then joinpath (bak fp) (name fp) else bak fp)]) ∧
         (r3 = Ok tt → no_backup args = false → C ≠ [])) as G3.
  { intros r3 w3. destruct (no_backup args).
    { intros [= <- <-]. exists []. rewrite app_nil_r. done. }
    destruct (with_suffix fp _) as [fp_bak| |] eqn:Hws;
      try (intros [= <- <-]; exists []; rewrite app_nil_r; split; [done|]; split; [by left|done]).
    pose proof (with_suffix_Ok _ _ _ Hws) as Hname.
    rewrite (with_suffix_bak fp Hname) in Hws. injection Hws as <-.
    intros [[Hne ->]|[-> (c & Hr & Hw & Ht)]]%shutil_copy_inv.
    { exists []. rewrite app_nil_r. split; [done|]. split; [by left|done]. }
    eexists [Copy fp _]. split; [|split; [right; reflexivity|done]].
    eapply grows_by_trans; [exact G2|]. split; [exact Ht|].
    intros q Hq. eapply write_file_other; [exact Hw|].
    specialize (Hq _ ltac:(left)). simpl in Hq.
    apply bool_decide_eq_false in Hq. intros Heq. apply Hq. symmetry. exact Heq. }
  destruct (if no_backup args then _ else _) as [r3 w3] eqn:E3.
  destruct (G3 _ _ eq_refl) as (C & G3' & HC & HC').
  assert (Hfail : ∀ r', r' ≠ Ok tt →
    ∃ evs, grows_by w w3 evs ∧
      ((r' ≠ Ok tt ∧ evs = [e1]) ∨
       ∃ ds0, Ok (DicomFile ds) = Ok (DicomFile ds0) ∧
         ((is_dicomdir ds0 = true ∧ r' = Ok tt ∧ evs = [e1; Dcmread fp ds0]) ∨
          (is_dicomdir ds0 = false ∧
           ∃ C0, (if no_backup args then C0 = []
                  else C0 = [] ∨ C0 = [Copy fp (if is_dir (fs w) (bak fp)
                                          then joinpath (bak fp) (name fp) else bak fp)]) ∧
             ((r' ≠ Ok tt ∧ evs = [e1; Dcmread fp ds0] ++ C0) ∨
              ((no_backup args = false → C0 ≠ []) ∧
               ∃ ds' log, remove_elements tag_for_keyword args ds0 = Ok (ds', log) ∧
                          evs = [e1; Dcmread fp ds0] ++ C0 ++ [SaveAs fp ds'] ∧
                          r' = match dcmwrite ds' with
                               | Complete _ => Ok tt
                               | Broken _ => Raise EncodingError
                               end)))))).
  { intros r' Hr'. eexists. split; [exact G3'|]. right. exists ds. split; [done|].
    right. split; [done|]. exists C. split; [done|]. left. done. }
  destruct r3 as [[]|e|]; try (intros [= <- <-]; by apply Hfail).
  destruct (remove_elements tag_for_keyword args ds) as [[ds' log]| |] eqn:Hrm;
    try (intros [= <- <-]; by apply Hfail).
  intros [[Hne ->]|(_ & Hw & Ht & Hr)]%save_as_inv; [by apply Hfail|].
  eexists. split.
  - eapply grows_by_trans; [exact G3'|]. split; [exact Ht|].
    intros q Hq. eapply write_file_other; [exact Hw|].
    specialize (Hq _ ltac:(left)). simpl in Hq.
    apply bool_decide_eq_false in Hq. intros Heq. apply Hq. symmetry. exact Heq.
  - right. exists ds. split; [done|]. right. split; [done|]. exists C. split; [done|].
    right. split; [by apply HC'|]. exists ds', log. split; [done|].
    split; [by rewrite <- app_assoc|done].
Qed.

End LoopCases.

Section LoopFacts.
Context (tag_for_keyword : string → option N) (dcmwrite : Encoder).

Lemma run_event_mono fps fps' e :
  (∀ fp, fp ∈ fps → fp ∈ fps') → run_event fps e → run_event fps' e.
Proof. intros H. destruct e; simpl; [done|auto|intros [? ?]; auto|auto]. Qed.

Lemma outputs_app l1 l2 : outputs (l1 ++ l2) = outputs l1 ++ outputs l2.
Proof. unfold outputs. apply omap_app. Qed.

(** The events of one turn. *)
Lemma turn_events args n i fp w r w' :
  loop_body tag_for_keyword dcmwrite args n i fp w = (r, w') →
  ∃ evs, grows_by w w' evs ∧ Forall (run_event [fp]) evs ∧
         outputs evs = [(stdout, ProgressLine (progress_message n) i n)].
Proof.
  intros H. destruct (loop_body_cases _ _ _ _ _ _ _ _ _ H) as (evs & G & Hc).
  exists evs. split; [done|]. simpl in Hc.
  assert (Hin : fp ∈ [fp]) by left.
  destruct Hc as [[_ ->]|(ds & _ & [(_ & _ & ->)|(_ & C & HC & Hc)])].
  - split; [|done]. constructor; [done|constructor].
  - split; [|done]. constructor; [done|]. constructor; [done|constructor].
  - assert (Forall (run_event [fp]) C ∧ outputs C = []) as [FC OC].
    { destruct (no_backup args); [subst C; done|].
      destruct HC as [->| ->]; [done|]. split; [|done].
      constructor; [|constructor]. simpl. split; [done|].
      destruct (is_dir (fs w) (bak fp)); auto. }
    destruct Hc as [[_ ->]|(_ & ds' & log & _ & -> & _)].
    + split.
      * constructor; [done|]. constructor; [done|]. done.
      * cbn [app]. change (outputs (?a :: ?b :: C)) with ((stdout, ProgressLine (progress_message n) i n) :: outputs C).
        by rewrite OC.
    + split.
      * constructor; [done|]. constructor; [done|].
        apply Forall_app. split; [done|]. constructor; [done|constructor].
      * cbn [app].
        change (outputs (?a :: ?b :: ?c)) with ((stdout, ProgressLine (progress_message n) i n) :: outputs c).
        rewrite outputs_app, OC. done.
Qed.

(** The events of the loop: one progress line per turn that was started. *)
Lemma loop_events args n fps :
  ∀ i w r w',
    for_enumerate fps i (loop_body tag_for_keyword dcmwrite args n) w = (r, w') →
    ∃ evs k,
      grows_by w w' evs ∧ Forall (run_event fps) evs ∧
      k ≤ List.length fps ∧ (r = Ok tt → k = List.length fps) ∧
      (fps ≠ [] → 1 ≤ k) ∧
      outputs evs = map (λ j, (stdout, ProgressLine (progress_message n) j n)) (seq i k).
Proof.
  induction fps as [|fp fps IH]; intros i w r w'.
  - intros [= <- <-]. exists [], 0. split; [apply grows_by_refl|]. done.
  - rewrite for_enumerate_cons.
    destruct (loop_body tag_for_keyword dcmwrite args n i fp w) as [r1 w1] eqn:E1.
    destruct (turn_events _ _ _ _ _ _ _ E1) as (evs1 & G1 & F1 & O1).
    assert (F1' : Forall (run_event (fp :: fps)) evs1).
    { eapply Forall_impl; [exact F1|]. intros e. apply run_event_mono.
      intros fp' ->%list_elem_of_singleton. left. }
    destruct r1 as [[]|e|].
    + intros (evs2 & k & G2 & F2 & Hk & Hok & Hne & O2)%IH.
      exists (evs1 ++ evs2), (S k). split; [by eapply grows_by_trans|].
      split; [|split; [simpl; lia|split; [|split; [lia|]]]].
      * apply Forall_app. split; [done|].
        eapply Forall_impl; [exact F2|]. intros e. apply run_event_mono.
        intros fp' ?. by right.
      * intros Hr. simpl. by rewrite Hok.
      * rewrite outputs_app, O1, O2. done.
    + intros [= <- <-]. exists evs1, 1. split; [done|]. split; [done|].
      simpl. split; [lia|]. split; [done|]. split; [lia|]. done.
    + intros [= <- <-]. exists evs1, 1. split; [done|]. split; [done|].
      simpl. split; [lia|]. split; [done|]. split; [lia|]. done.
Qed.

(** Property X12.  Whatever its outcome, the loop over the files reads and
    saves only files of the list, copies a file of the list only to its
    backup path (or into it, when that is a directory), and writes to
    standard output only.  A path that is neither a file of the list, nor a
    backup path, nor the copy inside a backup directory denotes after the
    loop what it denoted before. *)
Theorem loop_touches_only_the_listed_files_and_their_backups args n fps i w r w' :
  for_enumerate fps i (loop_body tag_for_keyword dcmwrite args n) w = (r, w') →
  ∃ evs,
    trace w' = trace w ++ evs ∧
    Forall (run_event fps) evs ∧
    ∀ q, (∀ fp, fp ∈ fps →
            parts q ≠ parts fp ∧ parts q ≠ parts (bak fp) ∧
            parts q ≠ parts (bak fp) ++ [name fp]) →
         denotes (fs w') q = denotes (fs w) q.
Proof.
  intros (evs & k & [T F] & Hev & _)%loop_events.
  exists evs. split; [done|]. split; [done|].
  intros q Hq. apply F. intros e He.
  rewrite Forall_forall in Hev. specialize (Hev e He).
  destruct e as [s m|fp ds|src dst|fp ds]; simpl in *; try done.
  - destruct Hev as [Hsrc Hdst]. apply bool_decide_eq_false.
    destruct (Hq src Hsrc) as (_ & H1 & H2).
    destruct Hdst as [->| ->]; simpl; congruence.
  - apply bool_decide_eq_false. destruct (Hq fp Hev) as (H1 & _). congruence.
Qed.

(** Property X13.  The loop of [main] prints one progress line for every
    file it starts on and nothing else: the lines carry the message
    "* removing tags from N files", the count 1, 2, ... in this order and
    the total N, the number of files.  When the loop ends normally there
    are N lines, so that the last one has count = total. *)
Theorem loop_prints_one_progress_line_per_file args fps w r w' :
  for_enumerate fps 1 (loop_body tag_for_keyword dcmwrite args (List.length fps)) w = (r, w') →
  ∃ k,
    k ≤ List.length fps ∧ (r = Ok tt → k = List.length fps) ∧ (fps ≠ [] → 1 ≤ k) ∧
    outputs (drop (List.length (trace w)) (trace w')) =
      map (λ j, (stdout,
                 ProgressLine ("* removing tags from " +:+ pretty (List.length fps) +:+ " files")
                              j (List.length fps)))
          (seq 1 k).
Proof.
  intros (evs & k & [T F] & _ & Hk & Hok & Hne & O)%loop_events.
  exists k. split; [done|]. split; [done|]. split; [done|].
  rewrite T, drop_app_length. exact O.
Qed.

End LoopFacts.

Section BadArguments.
Context (tag_for_keyword : string → option N) (dcmwrite : Encoder).

(** Every write-back of the loop writes a result of the removal part. *)
Lemma loop_saves args n fps :
  ∀ i w r w',
    for_enumerate fps i (loop_body tag_for_keyword dcmwrite args n) w = (r, w') →
    ∃ evs, trace w' = trace w ++ evs ∧
      ∀ fp ds', SaveAs fp ds' ∈ evs →
        ∃ ds log, remove_elements tag_for_keyword args ds = Ok (ds', log).
Proof.
  assert (Hturn : ∀ i fp w r w',
    loop_body tag_for_keyword dcmwrite args n i fp w = (r, w') →
    ∃ evs, trace w' = trace w ++ evs ∧
      ∀ fp' ds', SaveAs fp' ds' ∈ evs →
        ∃ ds log, remove_elements tag_for_keyword args ds = Ok (ds', log)).
  { intros i fp w r w' H.
    destruct (loop_body_cases _ _ _ _ _ _ _ _ _ H) as (evs & [T _] & Hc).
    exists evs. split; [done|]. simpl in Hc. intros fp' ds' Hin.
    assert (HC : ∀ C, (if no_backup args then C = []
                       else C = [] ∨
                            C = [Copy fp (if is_dir (fs w) (bak fp)
                                          then joinpath (bak fp) (name fp) else bak fp)]) →
                      SaveAs fp' ds' ∉ C).
    { intros C HC HinC. destruct (no_backup args).
      - subst C. by apply elem_of_nil in HinC.
      - destruct HC as [->| ->].
        + by apply elem_of_nil in HinC.
        + apply list_elem_of_singleton in HinC. done. }
    destruct Hc as [[_ ->]|(ds & _ & [(_ & _ & ->)|(_ & C & HC' & Hc)])].
    - apply list_elem_of_singleton in Hin. done.
    - repeat (apply elem_of_cons in Hin as [?|Hin]; [done|]). by apply elem_of_nil in Hin.
    - destruct Hc as [[_ ->]|(_ & ds1 & log & Hrm & -> & _)].
      + repeat (apply elem_of_cons in Hin as [?|Hin]; [done|]). by apply HC in Hin.
      + repeat (apply elem_of_cons in Hin as [?|Hin]; [done|]).
        apply elem_of_app in Hin as [Hin|Hin]; [by apply HC in Hin|].
        apply list_elem_of_singleton in Hin. injection Hin as _ <-. eauto. }
  induction fps as [|fp fps IH]; intros i w r w'.
  - intros [= <- <-]. exists []. split; [by rewrite app_nil_r|].
    intros ?? ?%elem_of_nil. done.
  - rewrite for_enumerate_cons.
    destruct (loop_body tag_for_keyword dcmwrite args n i fp w) as [r1 w1] eqn:E1.
    destruct (Hturn _ _ _ _ _ E1) as (evs1 & T1 & S1).
    destruct r1 as [[]|e|]; try (intros [= <- <-]; eauto).
    intros (evs2 & T2 & S2)%IH. exists (evs1 ++ evs2).
    split; [by rewrite T2, T1, app_assoc|].
    intros fp' ds' [?|?]%elem_of_app; eauto.
Qed.

(** Property X14.  A group that is no hexadecimal numeral, or a tag that is
    neither one nor a known keyword (or is above 0xFFFFFFFF), is not
    detected when the arguments are parsed.  The removal part raises
    [ValueError] or [OverflowError] on every dataset; the turn of the first
    file that is not a DICOMDIR ends with that exception after the read and
    the backup copy, with the file as it was; and no loop ever saves a
    dataset. *)
Theorem bad_group_or_tag_argument_stops_the_run_before_any_write args e :
  decoded_groups args = Raise e ∨
  (∃ groups, decoded_groups args = Ok groups) ∧ decoded_tags tag_for_keyword args = Raise e →
  (e = ValueError ∨ e = OverflowError) ∧
  (∀ ds, remove_elements tag_for_keyword args ds = Raise e) ∧
  (∀ n i fp w ds,
     read_file (fs w) fp = Ok (DicomFile ds) → is_dicomdir ds = false →
     no_backup args = true ∨ (name fp ≠ "" ∧ is_dir (fs w) (bak fp) = false) →
     ∃ w',
       loop_body tag_for_keyword dcmwrite args n i fp w = (Raise e, w') ∧
       trace w' = trace w ++ [Output stdout (ProgressLine (progress_message n) i n);
                              Dcmread fp ds] ++
                             (if no_backup args then [] else [Copy fp (bak fp)]) ∧
       read_file (fs w') fp = Ok (DicomFile ds)) ∧
  (∀ n fps i w r w',
     for_enumerate fps i (loop_body tag_for_keyword dcmwrite args n) w = (r, w') →
     ∀ fp ds, SaveAs fp ds ∉ drop (List.length (trace w)) (trace w')).
Proof.
  intros Hbad.
  assert (Hrm : ∀ ds, remove_elements tag_for_keyword args ds = Raise e).
  { intros ds. pose proof (remove_elements_stages tag_for_keyword args ds) as H.
    destruct Hbad as [Hg|[[groups Hg] Ht]]; rewrite Hg in H; [done|].
    by rewrite Ht in H. }
  split; [|split; [exact Hrm|split]].
  - pose proof (remove_elements_outcome tag_for_keyword args (mkFile ∅ ∅)) as H.
    by rewrite Hrm in H.
  - intros n i fp w ds Hread Hdd Hbak.
    pose proof (loop_body_run tag_for_keyword dcmwrite args n i fp w) as Hrun.
    simpl in Hrun. rewrite Hread, Hdd, Hrm in Hrun.
    set (e1 := Output stdout (ProgressLine (progress_message n) i n)) in *.
    set (w2 := mkWorld (fs w) ((trace w ++ [e1]) ++ [Dcmread fp ds])) in *.
    destruct (no_backup args).
    + exists w2. split; [exact Hrun|]. simpl. split; [by rewrite <- app_assoc|done].
    + destruct Hbak as [?|[Hname Hdir]]; [done|].
      rewrite (with_suffix_bak fp Hname) in Hrun.
      destruct (backup_copy_runs fp w2 ds Hread Hname Hdir) as (root3 & Hc & Hw3).
      rewrite Hc in Hrun. eexists. split; [exact Hrun|]. simpl.
      split; [by rewrite <- !app_assoc|].
      apply read_file_denotes. erewrite write_file_other;
        [by apply read_file_denotes|exact Hw3|].
      apply not_eq_sym, bak_parts_ne.
  - intros n fps i w r w' (evs & T & S)%loop_saves fp ds.
    rewrite T, drop_app_length. intros (ds0 & log & H)%S. by rewrite Hrm in H.
Qed.

End BadArguments.

Section Backups.
Context (tag_for_keyword : string → option N) (dcmwrite : Encoder).

Lemma parts_bak_inj fp fp' :
  name fp ≠ "" → name fp' ≠ "" → parts (bak fp) = parts (bak fp') → parts fp = parts fp'.
Proof.
  intros Hn Hn' H. unfold bak in H. simpl in H.
  apply app_inj_tail in H as [Hr Hnm]. apply string_app_inv_tail in Hnm.
  rewrite (parts_split fp Hn), (parts_split fp' Hn'). by rewrite Hr, Hnm.
Qed.

(** A turn changes nothing but the file and its backup. *)
Lemma turn_frame args n i fp w r w1 :
  loop_body tag_for_keyword dcmwrite args n i fp w = (r, w1) →
  is_dir (fs w) (bak fp) = false →
  ∀ q, parts q ≠ parts fp → parts q ≠ parts (bak fp) →
       denotes (fs w1) q = denotes (fs w) q.
Proof.
  intros H Hdir q Hq1 Hq2.
  destruct (loop_body_cases _ _ _ _ _ _ _ _ _ H) as (evs & [_ F] & Hc).
  apply F. intros e He. simpl in Hc. rewrite Hdir in Hc.
  assert (HC : ∀ C, (if no_backup args then C = []
                     else C = [] ∨ C = [Copy fp (bak fp)]) →
                    ∀ e, e ∈ C → touches e q = false).
  { intros C HC e' He'. destruct (no_backup args).
    - subst C. by apply elem_of_nil in He'.
    - destruct HC as [->| ->]; [by apply elem_of_nil in He'|].
      apply list_elem_of_singleton in He' as ->. simpl.
      apply bool_decide_eq_false. intros Heq. apply Hq2. by symmetry. }
  destruct Hc as [[_ ->]|(ds & _ & [(_ & _ & ->)|(_ & C & HC' & Hc)])].
  - apply list_elem_of_singleton in He as ->. done.
  - repeat (apply elem_of_cons in He as [->|He]; [done|]). by apply elem_of_nil in He.
  - destruct Hc as [[_ ->]|(_ & ds' & log & _ & -> & _)].
    + repeat (apply elem_of_cons in He as [->|He]; [done|]). by eapply HC.
    + repeat (apply elem_of_cons in He as [->|He]; [done|]).
      apply elem_of_app in He as [He|He]; [by eapply HC|].
      apply list_elem_of_singleton in He as ->. simpl.
      apply bool_decide_eq_false. intros Heq. apply Hq1. by symmetry.
Qed.

(** After a turn that ends normally the backup holds what was read. *)
Lemma turn_backup args n i fp w w1 ds :
  no_backup args = false →
  loop_body tag_for_keyword dcmwrite args n i fp w = (Ok tt, w1) →
  read_file (fs w) fp = Ok (DicomFile ds) → is_dicomdir ds = false →
  is_dir (fs w) (bak fp) = false →
  denotes (fs w1) (bak fp) = Some (Some (DicomFile ds)).
Proof.
  intros Hnb H Hread Hdd Hdir. rewrite loop_body_run in H. simpl in H.
  rewrite Hread, Hdd, Hnb in H.
  destruct (with_suffix fp (suffix fp +:+ ".bak")) as [fp_bak| |] eqn:Hws; try done.
  pose proof (with_suffix_Ok _ _ _ Hws) as Hname.
  rewrite (with_suffix_bak fp Hname) in Hws. injection Hws as <-.
  set (w2 := mkWorld (fs w) _) in H.
  destruct (backup_copy_runs fp w2 ds Hread Hname Hdir) as (root3 & Hc & Hw3).
  rewrite Hc in H.
  destruct (remove_elements tag_for_keyword args ds) as [[ds' log]| |]; try done.
  apply save_as_inv in H as [[? _]|(_ & Hw4 & _)]; [done|]. simpl in Hw4.
  erewrite write_file_other; [by eapply write_file_same|exact Hw4|apply bak_parts_ne].
Qed.

Lemma is_dir_same root root' q :
  denotes root' q = denotes root q → is_dir root' q = is_dir root q.
Proof.
  unfold denotes, is_dir. destruct (resolve root' q) as [[|]|], (resolve root q) as [[|]|]; done.
Qed.

Lemma read_file_same root root' q :
  denotes root' q = denotes root q → read_file root' q = read_file root q.
Proof.
  unfold denotes, read_file.
  destruct (resolve root' q) as [[|]|], (resolve root q) as [[|]|]; simpl; congruence.
Qed.

(** The loop over separate files: the frame and the backups. *)
Lemma loop_backups args n fps :
  no_backup args = false →
  ∀ i w w',
    separate fps →
    (∀ fp, fp ∈ fps → name fp ≠ "" ∧ is_dir (fs w) (bak fp) = false) →
    for_enumerate fps i (loop_body tag_for_keyword dcmwrite args n) w = (Ok tt, w') →
    (∀ q, (∀ fp, fp ∈ fps → parts q ≠ parts fp ∧ parts q ≠ parts (bak fp)) →
          denotes (fs w') q = denotes (fs w) q) ∧
    (∀ fp ds, fp ∈ fps → read_file (fs w) fp = Ok (DicomFile ds) → is_dicomdir ds = false →
              read_file (fs w') (bak fp) = Ok (DicomFile ds)).
Proof.
  intros Hnb. induction fps as [|fp0 fps IH]; intros i w w' Hsep Hok.
  - intros [= <-]. split; [done|]. intros fp ds ?%elem_of_nil. done.
  - rewrite for_enumerate_cons.
    destruct (loop_body tag_for_keyword dcmwrite args n i fp0 w) as [r1 w1] eqn:E1.
    destruct r1 as [[]|e|]; try done. intros Hloop.
    destruct Hsep as [ND Hsep]. rewrite fmap_cons in ND. apply NoDup_cons in ND as [Hnot ND].
    destruct (Hok fp0) as [Hn0 Hd0]; [left|].
    assert (Hne : ∀ fp, fp ∈ fps → parts fp ≠ parts fp0).
    { intros fp Hin Heq. apply Hnot. rewrite <- Heq. apply list_elem_of_fmap. eauto. }
    assert (Hsep' : separate fps).
    { split; [done|]. intros fp fp' ? ?. apply Hsep; by right. }
    assert (Hok' : ∀ fp, fp ∈ fps → name fp ≠ "" ∧ is_dir (fs w1) (bak fp) = false).
    { intros fp Hin. destruct (Hok fp) as [Hn Hd]; [by right|]. split; [done|].
      rewrite <- Hd. apply is_dir_same. eapply turn_frame; [exact E1|done| |].
      - apply Hsep; [by right|left].
      - intros Heq. apply (Hne fp Hin). by apply parts_bak_inj. }
    destruct (IH _ _ _ Hsep' Hok' Hloop) as [Hframe Hbak]. split.
    + intros q Hq. rewrite Hframe by (intros fp Hin; apply Hq; by right).
      destruct (Hq fp0) as [? ?]; [left|]. by eapply turn_frame.
    + intros fp ds [->|Hin]%elem_of_cons Hread Hdd.
      * apply read_file_denotes. rewrite Hframe.
        -- by eapply turn_backup.
        -- intros fp Hin. split.
           ++ apply Hsep; [left|by right].
           ++ destruct (Hok fp) as [Hn _]; [by right|].
              intros Heq. apply (Hne fp Hin). symmetry. by apply parts_bak_inj.
      * apply (Hbak fp ds Hin); [|done]. rewrite <- Hread. apply read_file_same.
        eapply turn_frame; [exact E1|done|by apply Hne|].
        intros Heq. eapply Hsep; [left|by right; exact Hin|]. by symmetry.
Qed.

(** Property X15.  When the files of the list stand at different places and
    none of them stands at the backup path of another, and no backup path
    is a directory, then after a loop with backups that ends normally the
    backup path of every file that is not a DICOMDIR holds what the file
    held before the loop. *)
Theorem every_backup_survives_when_no_file_is_the_backup_of_another
    args n fps i w w' :
  no_backup args = false → separate fps →
  (∀ fp, fp ∈ fps → name fp ≠ "" ∧ is_dir (fs w) (bak fp) = false) →
  for_enumerate fps i (loop_body tag_for_keyword dcmwrite args n) w = (Ok tt, w') →
  ∀ fp ds, fp ∈ fps → read_file (fs w) fp = Ok (DicomFile ds) → is_dicomdir ds = false →
           read_file (fs w') (bak fp) = Ok (DicomFile ds).
Proof.
  intros Hnb Hsep Hok Hloop. by destruct (loop_backups args n fps Hnb i w w' Hsep Hok Hloop).
Qed.

End Backups.

(** ** The command line and the exit status *)

Section Parse.
Context (__version__ : string).

Lemma option_like_plain tok : plain tok = true → option_like tok = false.
Proof. unfold plain, option_like. by intros ->%negb_true_iff. Qed.

Lemma collect_values prog vs :
  Forall (λ v, plain v = true) vs →
  ∀ rest k acc ns extras,
    parse_tokens __version__ prog (vs ++ rest) (Some (k, acc)) ns extras =
    parse_tokens __version__ prog rest (Some (k, acc ++ vs)) ns extras.
Proof.
  induction 1 as [|v vs Hv _ IH]; intros rest k acc ns extras.
  - by rewrite app_nil_r.
  - cbn [app parse_tokens]. rewrite (option_like_plain v Hv).
    rewrite IH. by rewrite <- app_assoc.
Qed.

Lemma step_rm_vr prog rest c ns ns' extras :
  close c ns = inl ns' →
  parse_tokens __version__ prog ("--rm-vr" :: rest) c ns extras =
  parse_tokens __version__ prog rest (Some (OptVR, [])) ns' extras.
Proof.
  intros Hc. cbn [parse_tokens].
  change (option_like "--rm-vr") with true.
  destruct c as [[k vs]|]; rewrite Hc; reflexivity.
Qed.

Lemma step_rm_group prog rest c ns ns' extras :
  close c ns = inl ns' →
  parse_tokens __version__ prog ("--rm-group" :: rest) c ns extras =
  parse_tokens __version__ prog rest (Some (OptGroup, [])) ns' extras.
Proof.
  intros Hc. cbn [parse_tokens].
  change (option_like "--rm-group") with true.
  destruct c as [[k vs]|]; rewrite Hc; reflexivity.
Qed.

Lemma step_rm_tag prog rest c ns ns' extras :
  close c ns = inl ns' →
  parse_tokens __version__ prog ("--rm-tag" :: rest) c ns extras =
  parse_tokens __version__ prog rest (Some (OptTag, [])) ns' extras.
Proof.
  intros Hc. cbn [parse_tokens].
  change (option_like "--rm-tag") with true.
  destruct c as [[k vs]|]; rewrite Hc; reflexivity.
Qed.

Lemma close_values k vs ns : vs ≠ [] → close (Some (k, vs)) ns = inl (store k vs ns).
Proof. destruct vs; done. Qed.

End Parse.

Section CommandLines.
Context (__version__ : string).

Lemma step_positional prog tok rest ns extras :
  plain tok = true →
  parse_tokens __version__ prog (tok :: rest) None ns extras =
    match ns_d ns with
    | None =>
        parse_tokens __version__ prog rest None
          (mkNamespace (Some (Path_of_string tok)) (ns_no_backup ns)
                       (ns_rm_private ns) (ns_rm_vr ns) (ns_rm_group ns)
                       (ns_rm_tag ns)) extras
    | Some _ => parse_tokens __version__ prog rest None ns (extras ++ [tok])
    end.
Proof.
  intros Hp. cbn [parse_tokens close].
  rewrite bool_decide_eq_false_2.
  2:{ intros Hin. repeat (apply elem_of_cons in Hin as [->|Hin]; [by vm_compute in Hp|]).
      by apply elem_of_nil in Hin. }
  assert (∀ s, String.eqb tok (String "-" s) = false) as Hne.
  { intros s. apply String.eqb_neq. intros ->. destruct s; by vm_compute in Hp. }
  rewrite !Hne, (option_like_plain tok Hp). done.
Qed.

Lemma step_no_backup prog rest c ns ns' extras :
  close c ns = inl ns' →
  parse_tokens __version__ prog ("--no-backup" :: rest) c ns extras =
  parse_tokens __version__ prog rest None
    (mkNamespace (ns_d ns') true (ns_rm_private ns')
                 (ns_rm_vr ns') (ns_rm_group ns') (ns_rm_tag ns')) extras.
Proof.
  intros Hc. cbn [parse_tokens].
  change (option_like "--no-backup") with true.
  destruct c as [[k vs]|]; rewrite Hc; reflexivity.
Qed.

Lemma step_rm_private prog rest c ns ns' extras :
  close c ns = inl ns' →
  parse_tokens __version__ prog ("--rm-private" :: rest) c ns extras =
  parse_tokens __version__ prog rest None
    (mkNamespace (ns_d ns') (ns_no_backup ns') true
                 (ns_rm_vr ns') (ns_rm_group ns') (ns_rm_tag ns')) extras.
Proof.
  intros Hc. cbn [parse_tokens].
  change (option_like "--rm-private") with true.
  destruct c as [[k vs]|]; rewrite Hc; reflexivity.
Qed.

Lemma step_end prog c ns ns' pth w :
  close c ns = inl ns' → ns_d ns' = Some pth →
  parse_tokens __version__ prog [] c ns [] w =
    (Ok (mkArgs pth (ns_no_backup ns') (ns_rm_private ns')
                (ns_rm_vr ns') (ns_rm_group ns') (ns_rm_tag ns')), w).
Proof. intros Hc Hd. cbn [parse_tokens]. by rewrite Hc, Hd. Qed.

(** A list option and its values, wherever they stand. *)
Lemma step_list_option prog k values rest c ns ns' extras :
  close c ns = inl ns' →
  plain_values values →
  parse_tokens __version__ prog (list_option (option_string k) values ++ rest) c ns extras =
    match values with
    | Some vs => parse_tokens __version__ prog rest (Some (k, vs)) ns' extras
    | None => parse_tokens __version__ prog rest c ns extras
    end.
Proof.
  intros Hc Hv. destruct values as [vs|]; [|done]. destruct Hv as [_ Hv].
  cbn [list_option app].
  destruct k; cbn [option_string];
    [rewrite (step_rm_vr _ _ _ _ _ _ _ Hc)
    |rewrite (step_rm_group _ _ _ _ _ _ _ Hc)
    |rewrite (step_rm_tag _ _ _ _ _ _ _ Hc)];
    by rewrite (collect_values _ _ _ Hv).
Qed.

(** A command line in the order of [command_line] is read back as the
    arguments it spells. *)
Lemma parse_command_line prog tok args w :
  plain tok = true → d args = Path_of_string tok →
  plain_values (rm_vr args) → plain_values (rm_group args) → plain_values (rm_tag args) →
  parse_args __version__ (prog :: command_line tok args) w = (Ok args, w).
Proof.
  destruct args as [pth nb priv vrs gs ts].
  cbn [d no_backup rm_private rm_vr rm_group rm_tag].
  intros Hp -> Hvr Hg Ht. unfold command_line, parse_args.
  cbn [no_backup rm_private rm_vr rm_group rm_tag].
  rewrite (step_positional _ _ _ _ _ Hp). cbn [ns_d ns_no_backup ns_rm_private ns_rm_vr ns_rm_group ns_rm_tag].
  set (ns0 := mkNamespace (Some (Path_of_string tok)) false false None None None).
  assert (∃ ns1, ns_d ns1 = Some (Path_of_string tok) ∧ ns_no_backup ns1 = nb ∧
                 ns_rm_private ns1 = priv ∧ ns_rm_vr ns1 = None ∧ ns_rm_group ns1 = None ∧
                 ns_rm_tag ns1 = None ∧
                 ∀ rest, parse_tokens __version__ (name (Path_of_string prog))
                           ((if nb then ["--no-backup"] else []) ++
                            (if priv then ["--rm-private"] else []) ++ rest) None ns0 [] =
                         parse_tokens __version__ (name (Path_of_string prog)) rest None ns1 [])
    as (ns1 & D1 & B1 & P1 & V1 & G1 & T1 & ->).
  { destruct nb, priv; cbn [app].
    - eexists. split_and!; [..|intros rest;
        rewrite (step_no_backup _ _ None ns0 ns0) by done;
        rewrite (step_rm_private _ _ None _ _ _ eq_refl); reflexivity]; done.
    - eexists. split_and!; [..|intros rest;
        rewrite (step_no_backup _ _ None ns0 ns0) by done; reflexivity]; done.
    - eexists. split_and!; [..|intros rest;
        rewrite (step_rm_private _ _ None ns0 ns0) by done; reflexivity]; done.
    - exists ns0. done. }
  rewrite (step_list_option _ OptVR vrs _ None ns1 ns1) by done.
  set (c2 := match vrs with Some vs => Some (OptVR, vs) | None => None end).
  set (ns2 := match vrs with Some vs => store OptVR vs ns1 | None => ns1 end).
  assert (Hc2 : close c2 ns1 = inl ns2).
  { unfold c2, ns2. destruct vrs as [vs|]; [|done]. apply close_values, Hvr. }
  assert (∀ rest, match vrs with
                  | Some vs => parse_tokens __version__ (name (Path_of_string prog)) rest
                                 (Some (OptVR, vs)) ns1 []
                  | None => parse_tokens __version__ (name (Path_of_string prog)) rest None ns1 []
                  end = parse_tokens __version__ (name (Path_of_string prog)) rest c2 ns1 [])
    as -> by (by destruct vrs).
  rewrite (step_list_option _ OptGroup gs _ c2 ns1 ns2) by done.
  set (c3 := match gs with Some vs => Some (OptGroup, vs) | None => c2 end).
  set (ns3 := match gs with Some _ => ns2 | None => ns1 end).
  set (ns3' := match gs with Some vs => store OptGroup vs ns2 | None => ns2 end).
  assert (Hc3 : close c3 ns3 = inl ns3').
  { unfold c3, ns3, ns3'. destruct gs as [vs|]; [|done]. apply close_values, Hg. }
  assert (∀ rest, match gs with
                  | Some vs => parse_tokens __version__ (name (Path_of_string prog)) rest
                                 (Some (OptGroup, vs)) ns2 []
                  | None => parse_tokens __version__ (name (Path_of_string prog)) rest c2 ns1 []
                  end = parse_tokens __version__ (name (Path_of_string prog)) rest c3 ns3 [])
    as -> by (by destruct gs).
  rewrite <- (app_nil_r (list_option "--rm-tag" ts)).
  rewrite (step_list_option _ OptTag ts _ c3 ns3 ns3') by done.
  set (c4 := match ts with Some vs => Some (OptTag, vs) | None => c3 end).
  set (ns4 := match ts with Some _ => ns3' | None => ns3 end).
  set (ns4' := match ts with Some vs => store OptTag vs ns3' | None => ns3' end).
  assert (Hc4 : close c4 ns4 = inl ns4').
  { unfold c4, ns4, ns4'. destruct ts as [vs|]; [|done]. apply close_values, Ht. }
  assert (match ts with
          | Some vs => parse_tokens __version__ (name (Path_of_string prog)) []
                         (Some (OptTag, vs)) ns3' []
          | None => parse_tokens __version__ (name (Path_of_string prog)) [] c3 ns3 []
          end = parse_tokens __version__ (name (Path_of_string prog)) [] c4 ns4 [])
    as -> by (by destruct ts).
  rewrite (step_end _ c4 ns4 ns4' (Path_of_string tok) w Hc4).
  - do 2 f_equal. unfold ns4', ns3', ns2.
    destruct vrs, gs, ts; simpl; congruence.
  - unfold ns4', ns3', ns2. destruct vrs, gs, ts; simpl; done.
Qed.

End CommandLines.

Section ParseTheorems.
Context (__version__ : string).

(** Property X16.  When the command line consists of a list option
    ([--rm-vr], [--rm-group] or [--rm-tag]) followed only by arguments that
    do not start with "-", all of them become values of the option, the
    path that was meant included: the parser reports that FILE or DIR is
    required and exits with status 2. *)
Theorem a_path_after_a_list_option_is_taken_as_its_value prog k values w :
  values ≠ [] → Forall (λ v, plain v = true) values →
  parse_args __version__ (prog :: option_string k :: values) w =
    (Raise (SystemExit 2),
     mkWorld (fs w)
       (trace w ++ [Output stderr
                      (UsageError (name (Path_of_string prog))
                                  "the following arguments are required: FILE or DIR")])).
Proof.
  intros Hne Hv. unfold parse_args.
  assert (parse_tokens __version__ (name (Path_of_string prog)) (option_string k :: values)
            None (mkNamespace None false false None None None) [] =
          parse_tokens __version__ (name (Path_of_string prog)) []
            (Some (k, values)) (mkNamespace None false false None None None) []) as ->.
  { rewrite <- (app_nil_r values) at 1.
    destruct k; cbn [option_string];
      [rewrite (step_rm_vr _ _ _ None _ _ _ eq_refl)
      |rewrite (step_rm_group _ _ _ None _ _ _ eq_refl)
      |rewrite (step_rm_tag _ _ _ None _ _ _ eq_refl)];
      by rewrite (collect_values _ _ _ Hv). }
  cbn [parse_tokens]. rewrite (close_values k values _ Hne).
  by destruct k.
Qed.

End ParseTheorems.

Section ParserOutcome.
Context (__version__ : string).

Lemma parse_tokens_outcome prog tokens :
  ∀ collecting ns extras w r w',
    parse_tokens __version__ prog tokens collecting ns extras w = (r, w') →
    parse_outcome prog __version__ w r w'.
Proof.
  induction tokens as [|tok tokens IH]; intros collecting ns extras w r w'.
  - simpl. destruct (close collecting ns) as [ns'|message].
    + destruct (ns_d ns') as [pth|].
      * destruct extras.
        -- intros [= <- <-]. left. eauto.
        -- intros [= <- <-]. right. right. split; [done|]. eauto.
      * intros [= <- <-]. right. right. split; [done|]. eauto.
    + intros [= <- <-]. right. right. split; [done|]. eauto.
  - cbn [parse_tokens].
    assert (Hrest :
      match close collecting ns with
      | inr message => usage_error prog message
      | inl ns =>
          if bool_decide (tok ∈ ["-h"; "--help"]) then
            emit (Output stdout (HelpText prog)) ≫= λ _, sys_exit 0
          else if String.eqb tok "--version" then
            emit (Output stdout (VersionText prog __version__)) ≫= λ _, sys_exit 0
          else if String.eqb tok "--no-backup" then
            parse_tokens __version__ prog tokens None
              (mkNamespace (ns_d ns) true (ns_rm_private ns)
                           (ns_rm_vr ns) (ns_rm_group ns) (ns_rm_tag ns)) extras
          else if String.eqb tok "--rm-private" then
            parse_tokens __version__ prog tokens None
              (mkNamespace (ns_d ns) (ns_no_backup ns) true
                           (ns_rm_vr ns) (ns_rm_group ns) (ns_rm_tag ns)) extras
          else if String.eqb tok "--rm-vr" then
            parse_tokens __version__ prog tokens (Some (OptVR, [])) ns extras
          else if String.eqb tok "--rm-group" then
            parse_tokens __version__ prog tokens (Some (OptGroup, [])) ns extras
          else if String.eqb tok "--rm-tag" then
            parse_tokens __version__ prog tokens (Some (OptTag, [])) ns extras
          else if option_like tok then
            parse_tokens __version__ prog tokens None ns (extras ++ [tok])
          else
            match ns_d ns with
            | None =>
                parse_tokens __version__ prog tokens None
                  (mkNamespace (Some (Path_of_string tok)) (ns_no_backup ns)
                               (ns_rm_private ns) (ns_rm_vr ns) (ns_rm_group ns)
                               (ns_rm_tag ns)) extras
            | Some _ => parse_tokens __version__ prog tokens None ns (extras ++ [tok])
            end
      end w = (r, w') → parse_outcome prog __version__ w r w').
    { destruct (close collecting ns) as [ns'|message].
      - repeat case_match; try (by apply IH).
        + intros [= <- <-]. right. left. split; [done|]. eauto.
        + intros [= <- <-]. right. left. split; [done|]. eauto.
      - intros [= <- <-]. right. right. split; [done|]. eauto. }
    destruct collecting as [[k values]|]; [|exact Hrest].
    destruct (option_like tok); [exact Hrest|]. apply IH.
Qed.

Lemma parse_args_outcome argv w r w' :
  parse_args __version__ argv w = (r, w') →
  ∃ prog, parse_outcome prog __version__ w r w'.
Proof.
  destruct argv as [|argv0 tokens]; simpl.
  - intros [= <- <-]. exists "". right. right. split; [done|]. eauto.
  - intros H. eexists. by eapply parse_tokens_outcome.
Qed.

End ParserOutcome.

Section Exits.
Context (tag_for_keyword : string → option N) (dcmwrite : Encoder)
        (__version__ : string).

Lemma read_file_error root fp e : read_file root fp = Raise e → file_error e.
Proof.
  unfold read_file, file_error. destruct (resolve root fp) as [[|]|]; intros [= <-]; auto.
Qed.

Lemma read_file_fuel root fp : read_file root fp ≠ OutOfFuel.
Proof. unfold read_file. by destruct (resolve root fp) as [[|]|]. Qed.

Lemma write_parts_error n ps c :
  match write_parts n ps c with
  | Ok _ => True
  | Raise e => file_error e
  | OutOfFuel => False
  end.
Proof.
  revert n. induction ps as [|nm ps IH]; intros n; simpl.
  - destruct n; [done|]. by right.
  - destruct n as [|es]; [by left|].
    destruct (entry_lookup nm es) as [child|].
    + specialize (IH child). by destruct (write_parts child ps c).
    + destruct ps; [done|]. by left.
Qed.

Lemma is_dicom_outcome fp w :
  (∃ b, is_dicom fp w = (Ok b, w)) ∨ (∃ e, is_dicom fp w = (Raise e, w) ∧ file_error e).
Proof.
  unfold is_dicom, get_fs, lift, mbind, Prog_bind, mret, Prog_ret. simpl.
  destruct (read_file (fs w) fp) as [c|e|] eqn:E.
  - left. eauto.
  - right. exists e. split; [done|]. by eapply read_file_error.
  - by apply read_file_fuel in E.
Qed.

Lemma sniff_files_outcome root files :
  ∀ acc w,
    (∃ l, sniff_files root files acc w = (Ok l, w)) ∨
    (∃ e, sniff_files root files acc w = (Raise e, w) ∧ file_error e).
Proof.
  induction files as [|fn files IH]; intros acc w; simpl.
  - left. eauto.
  - unfold mbind, Prog_bind.
    destruct (is_dicom_outcome (joinpath root fn) w) as [[b ->]|(e & -> & He)].
    + apply IH.
    + right. eauto.
Qed.

Lemma sniff_dirs_outcome l :
  ∀ acc w,
    (∃ l', sniff_dirs l acc w = (Ok l', w)) ∨
    (∃ e, sniff_dirs l acc w = (Raise e, w) ∧ file_error e).
Proof.
  induction l as [|[[root dirs] files] l IH]; intros acc w; simpl.
  - left. eauto.
  - unfold mbind, Prog_bind.
    destruct (sniff_files_outcome root files acc w) as [[l' ->]|(e & -> & He)].
    + apply IH.
    + right. eauto.
Qed.

Lemma make_dcm_fp_list_outcome pth w r w' :
  make_dcm_fp_list pth w = (r, w') → discovery_outcome pth w r w'.
Proof.
  unfold make_dcm_fp_list, get_fs. unfold mbind, Prog_bind at 1. simpl.
  assert (Hend : ∀ l : list Path,
    (if Nat.eqb (List.length l) 0
     then emit (Output stderr (Text ("ERROR: No valid DICOM files found, exiting" +:+ newline)))
            ≫= λ _, sys_exit 1
     else mret l) w = (r, w') → discovery_outcome pth w r w').
  { intros l. destruct l as [|fp l]; simpl.
    - intros [= <- <-]. right. left. split; [done|]. exists none_found_message. auto.
    - intros [= <- <-]. left. eauto. }
  unfold mbind, Prog_bind at 1.
  destruct (is_file (fs w) pth).
  - unfold mbind, Prog_bind at 1.
    destruct (is_dicom_outcome pth w) as [[b ->]|(e & -> & He)].
    + unfold mret, Prog_ret at 1. apply Hend.
    + intros [= <- <-]. right. right. eauto.
  - destruct (is_dir (fs w) pth).
    + destruct (resolve (fs w) pth) as [n|].
      * destruct (sniff_dirs_outcome (os_walk n pth) [] w) as [[l ->]|(e & -> & He)].
        -- apply Hend.
        -- intros [= <- <-]. right. right. eauto.
      * unfold mret, Prog_ret at 1. apply Hend.
    + intros [= <- <-]. right. left. split; [done|]. exists (neither_message pth). auto.
Qed.

Lemma write_file_outcome root fp c :
  match write_file root fp c with
  | Ok _ => True
  | Raise e => file_error e
  | OutOfFuel => False
  end.
Proof. apply write_parts_error. Qed.

Lemma shutil_copy_outcome src dst w r w' :
  shutil_copy src dst w = (r, w') → r = Ok tt ∨ ∃ e, r = Raise e ∧ file_error e.
Proof.
  unfold shutil_copy, get_fs, lift, put_fs, emit, mbind, Prog_bind. simpl.
  destruct (read_file (fs w) src) as [c|e|] eqn:E; simpl.
  - pose proof (write_file_outcome (fs w)
                  (if is_dir (fs w) dst then joinpath dst (name src) else dst) c) as H.
    destruct (write_file (fs w) _ c); simpl.
    + intros [= <- <-]. by left.
    + intros [= <- <-]. right. eauto.
    + done.
  - intros [= <- <-]. right. exists e. split; [done|]. by eapply read_file_error.
  - by apply read_file_fuel in E.
Qed.

Lemma save_as_outcome ds fp w r w' :
  save_as dcmwrite ds fp w = (r, w') → r = Ok tt ∨ ∃ e, r = Raise e ∧ loop_error e.
Proof.
  unfold save_as, raise, get_fs, lift, put_fs, emit, mbind, Prog_bind, mret, Prog_ret.
  destruct (bad_tags (dataset ds)).
  2: { intros [= <- <-]. right. eexists. split; [done|]. right. right. by left. }
  simpl. pose proof (write_file_outcome (fs w) fp (written dcmwrite ds)) as H.
  destruct (write_file (fs w) fp _); simpl.
  - destruct (dcmwrite ds); intros [= <- <-]; [by left|].
    right. eexists. split; [done|]. right. right. right. by right.
  - intros [= <- <-]. right. eexists. split; [done|]. by left.
  - done.
Qed.

Lemma loop_body_outcome args n i fp w r w' :
  loop_body tag_for_keyword dcmwrite args n i fp w = (r, w') →
  r = Ok tt ∨ ∃ e, r = Raise e ∧ loop_error e.
Proof.
  rewrite loop_body_run. simpl.
  destruct (read_file (fs w) fp) as [[bytes|ds]|e|] eqn:Hread.
  - intros [= <- <-]. right. eexists. split; [done|]. right. by left.
  - destruct (is_dicomdir ds); [intros [= <- <-]; by left|].
    assert (∀ r3 w2 w3,
      (if no_backup args then (Ok tt, w2)
       else match with_suffix fp (suffix fp +:+ ".bak") with
            | Ok fp_bak => shutil_copy fp fp_bak w2
            | Raise e => (Raise e, w2)
            | OutOfFuel => (OutOfFuel, w2)
            end) = (r3, w3) → r3 = Ok tt ∨ ∃ e, r3 = Raise e ∧ loop_error e) as H3.
    { intros r3 w2 w3. destruct (no_backup args); [intros [= <- <-]; by left|].
      unfold with_suffix. destruct (String.eqb (name fp) "").
      - intros [= <- <-]. right. eexists. split; [done|]. right. right. by left.
      - intros [?|(e & -> & He)]%shutil_copy_outcome; [by left|].
        right. exists e. split; [done|]. by left. }
    destruct (if no_backup args then _ else _) as [r3 w3] eqn:E3.
    destruct (H3 _ _ _ E3) as [->|(e & -> & He)]; [|intros [= <- <-]; right; eauto].
    pose proof (remove_elements_outcome tag_for_keyword args ds) as Hrm.
    destruct (remove_elements tag_for_keyword args ds) as [[ds' log]|e|]; [| |done].
    + intros [?|(e & -> & He)]%save_as_outcome; [by left|].
      right. exists e. split; [done|]. done.
    + intros [= <- <-]. right. exists e. split; [done|]. right. right.
      destruct Hrm as [->| ->]; [by left|right; by left].
  - intros [= <- <-]. right. exists e. split; [done|]. left. by eapply read_file_error.
  - by apply read_file_fuel in Hread.
Qed.

Lemma loop_outcome args n fps :
  ∀ i w r w',
    for_enumerate fps i (loop_body tag_for_keyword dcmwrite args n) w = (r, w') →
    r = Ok tt ∨ ∃ e, r = Raise e ∧ loop_error e.
Proof.
  induction fps as [|fp fps IH]; intros i w r w'.
  - intros [= <- <-]. by left.
  - rewrite for_enumerate_cons.
    destruct (loop_body tag_for_keyword dcmwrite args n i fp w) as [r1 w1] eqn:E1.
    destruct (loop_body_outcome _ _ _ _ _ _ _ E1) as [->|(e & -> & He)].
    + apply IH.
    + intros [= <- <-]. right. eauto.
Qed.

(** Property X17.  When [main] ends through [sys.exit], no file has been
    changed and exactly one message has been written.  The status is 0 with
    the help or the version text on standard output, 2 with a usage error
    on standard error, or 1 with one of the two messages of discovery on
    standard error.  The loop over the files never exits this way. *)
Theorem main_exits_with_status_0_1_or_2_before_touching_a_file argv w code w' :
  main tag_for_keyword dcmwrite __version__ argv w = (Raise (SystemExit code), w') →
  fs w' = fs w ∧
  ∃ to m,
    trace w' = trace w ++ [Output to m] ∧
    ((code = 0%Z ∧ to = stdout ∧ ∃ prog, m = HelpText prog ∨ m = VersionText prog __version__) ∨
     (code = 2%Z ∧ to = stderr ∧ ∃ prog message, m = UsageError prog message) ∨
     (code = 1%Z ∧ to = stderr ∧
      ∃ pth, m = Text (neither_message pth) ∨ m = Text none_found_message)).
Proof.
  unfold main. unfold mbind, Prog_bind at 1.
  set (argv' := if Nat.eqb (List.length argv) 1 then argv ++ ["-h"] else argv).
  destruct (parse_args __version__ argv' w) as [r0 w0] eqn:E0.
  destruct (parse_args_outcome __version__ _ _ _ _ E0)
    as [prog [(args & -> & ->)|[(-> & m & Hm & ->)|(-> & message & ->)]]].
  - unfold mbind, Prog_bind at 1.
    destruct (make_dcm_fp_list (d args) w) as [r1 w1] eqn:E1.
    destruct (make_dcm_fp_list_outcome _ _ _ _ E1)
      as [(fp_list & -> & _ & ->)|[(-> & message & Hm & ->)|(e & -> & He & ->)]].
    + intros [?|(e & [= <-] & He)]%loop_outcome; [done|].
      destruct He as [[?|?]|[?|[?|[?|?]]]]; done.
    + intros [= <- <-]. split; [done|]. eexists _, _. split; [done|].
      right. right. split; [done|]. split; [done|]. exists (d args).
      destruct Hm as [-> | ->]; auto.
    + intros [= -> <-]. destruct He; done.
  - intros [= <- <-]. split; [done|]. eexists _, _. split; [done|].
    left. split; [done|]. split; [done|]. exists prog. done.
  - intros [= <- <-]. split; [done|]. eexists _, _. split; [done|].
    right. left. split; [done|]. split; [done|]. eauto.
Qed.

End Exits.

Section EndToEnd.
Context (tag_for_keyword : string → option N) (dcmwrite : Encoder)
        (__version__ : string).

Lemma main_command_line prog tok args w :
  plain tok = true → d args = Path_of_string tok →
  plain_values (rm_vr args) → plain_values (rm_group args) → plain_values (rm_tag args) →
  main tag_for_keyword dcmwrite __version__ (prog :: command_line tok args) w =
    (fp_list ← make_dcm_fp_list (d args);
     for_enumerate fp_list 1 (loop_body tag_for_keyword dcmwrite args (List.length fp_list))) w.
Proof.
  intros Hp Hd Hvr Hg Ht. unfold main.
  change (Nat.eqb (List.length (prog :: command_line tok args)) 1) with false.
  cbv iota. unfold mbind at 1, Prog_bind at 1.
  by rewrite (parse_command_line __version__ prog tok args w Hp Hd Hvr Hg Ht).
Qed.

(** Property X18.  A command line that gives the path first, then
    [--no-backup] and [--rm-private] if wanted, then the list options with
    at least one value each, none of these words starting with "-", is
    parsed to exactly these arguments; [main] then runs discovery on the
    path and the loop over what it finds. *)
Theorem main_runs_with_the_arguments_of_the_command_line prog tok args w :
  plain tok = true → d args = Path_of_string tok →
  plain_values (rm_vr args) → plain_values (rm_group args) → plain_values (rm_tag args) →
  parse_args __version__ (prog :: command_line tok args) w = (Ok args, w) ∧
  main tag_for_keyword dcmwrite __version__ (prog :: command_line tok args) w =
    (fp_list ← make_dcm_fp_list (d args);
     for_enumerate fp_list 1 (loop_body tag_for_keyword dcmwrite args (List.length fp_list))) w.
Proof.
  intros Hp Hd Hvr Hg Ht. split.
  - by apply parse_command_line.
  - by apply main_command_line.
Qed.



End EndToEnd.

(** ** The further statements on the example data *)

(** Property X2 on [scan_b] with [--rm-private --rm-group 0x0018 --rm-tag
    PatientName]. *)
Lemma removal_criteria_witness :
  rm_vr every_flag_but_vr = None ∧
  decoded_groups every_flag_but_vr = Ok (Some [24%Z]) ∧
  decoded_tags dictionary_excerpt every_flag_but_vr = Ok (Some [0x00100010%N]) ∧
  ∃ ds' log,
    remove_elements dictionary_excerpt every_flag_but_vr scan_b = Ok (ds', log) ∧
    removes (criteria_main every_flag_but_vr (Some [24%Z]) (Some [0x00100010%N]))
            (dataset scan_b) (dataset ds') ∧
    removes (criteria_meta every_flag_but_vr (Some [24%Z]) (Some [0x00100010%N]))
            (file_meta scan_b) (file_meta ds').
Proof.
  assert (H1 : decoded_groups every_flag_but_vr = Ok (Some [24%Z]))
    by (vm_compute; reflexivity).
  assert (H2 : decoded_tags dictionary_excerpt every_flag_but_vr
               = Ok (Some [0x00100010%N]))
    by (vm_compute; reflexivity).
  split; [reflexivity|]. split; [exact H1|]. split; [exact H2|].
  exact (removal_removes_what_any_criterion_matches dictionary_excerpt every_flag_but_vr
           scan_b (Some [24%Z]) (Some [0x00100010%N]) eq_refl H1 H2).
Defined.

(** Property X5 on [scan_b] for the VRs DA and SQ. *)
Lemma vr_pass_witness :
  keeps_what_a_fetch_consults ["DA"; "SQ"] = true ∧
  ∃ ds' log,
    remove_vr_tags (dataset scan_b) ["DA"; "SQ"] = Ok (ds', log) ∧
    ∀ π t b', element_at ds' π t = Some b' → VR (mkElem t b') ∉ ["DA"; "SQ"].
Proof.
  assert (H : keeps_what_a_fetch_consults ["DA"; "SQ"] = true) by (vm_compute; reflexivity).
  split; [exact H|].
  destruct (remove_vr_tags_removes_the_listed_VRs (dataset scan_b) ["DA"; "SQ"] H)
    as (ds' & log & H1 & _ & H2 & _).
  exists ds', log. split; [exact H1|exact H2].
Defined.

(** Property X3 on [scan_b] with all four removal flags. *)
Lemma removal_idempotent_witness :
  ∃ ds' log,
    remove_elements dictionary_excerpt every_flag scan_b = Ok (ds', log) ∧
    ∃ log', remove_elements dictionary_excerpt every_flag ds' = Ok (ds', log').
Proof.
  assert (H : ∃ ds' log, remove_elements dictionary_excerpt every_flag scan_b = Ok (ds', log))
    by (eexists _, _; vm_compute; reflexivity).
  destruct H as (ds' & log & H). exists ds', log. split; [exact H|].
  exact (removal_is_idempotent dictionary_excerpt every_flag scan_b ds' log H).
Defined.

(** Property X14 for [--rm-group 0x00zz]. *)
Lemma bad_group_witness :
  decoded_groups bad_group = Raise ValueError ∧
  ∀ ds, remove_elements dictionary_excerpt bad_group ds = Raise ValueError.
Proof.
  assert (H : decoded_groups bad_group = Raise ValueError) by (vm_compute; reflexivity).
  split; [exact H|].
  exact (proj1 (proj2 (bad_group_or_tag_argument_stops_the_run_before_any_write
                         dictionary_excerpt dcmwrite_excerpt bad_group ValueError
                         (or_introl H)))).
Defined.

(** Property X12 for the two images of [scans]. *)
Lemma loop_frame_witness :
  ∃ r w',
    for_enumerate [in_scans "a.dcm"; in_scans "b.dcm"] 1
      (loop_body dictionary_excerpt dcmwrite_excerpt every_flag 2) (mkWorld scans []) = (r, w') ∧
    ∃ evs,
      trace w' = [] ++ evs ∧
      Forall (run_event [in_scans "a.dcm"; in_scans "b.dcm"]) evs ∧
      ∀ q, (∀ fp, fp ∈ [in_scans "a.dcm"; in_scans "b.dcm"] →
              parts q ≠ parts fp ∧ parts q ≠ parts (bak fp) ∧
              parts q ≠ parts (bak fp) ++ [name fp]) →
           denotes (fs w') q = denotes scans q.
Proof.
  assert (H : ∃ r w',
    for_enumerate [in_scans "a.dcm"; in_scans "b.dcm"] 1
      (loop_body dictionary_excerpt dcmwrite_excerpt every_flag 2) (mkWorld scans []) = (r, w'))
    by (eexists _, _; vm_compute; reflexivity).
  destruct H as (r & w' & H). exists r, w'. split; [exact H|].
  exact (loop_touches_only_the_listed_files_and_their_backups dictionary_excerpt
           dcmwrite_excerpt every_flag 2 _ 1 (mkWorld scans []) r w' H).
Defined.

(** Property X13 for the two images of [scans]. *)
Lemma loop_progress_witness :
  ∃ r w',
    for_enumerate [in_scans "a.dcm"; in_scans "b.dcm"] 1
      (loop_body dictionary_excerpt dcmwrite_excerpt every_flag 2) (mkWorld scans []) = (r, w') ∧
    ∃ k, k ≤ 2 ∧ (r = Ok tt → k = 2) ∧
         ([in_scans "a.dcm"; in_scans "b.dcm"] ≠ [] → 1 ≤ k) ∧
         outputs (drop 0 (trace w')) =
           map (λ j, (stdout, ProgressLine ("* removing tags from " +:+ pretty 2 +:+ " files")
                                           j 2)) (seq 1 k).
Proof.
  assert (H : ∃ r w',
    for_enumerate [in_scans "a.dcm"; in_scans "b.dcm"] 1
      (loop_body dictionary_excerpt dcmwrite_excerpt every_flag
         (List.length [in_scans "a.dcm"; in_scans "b.dcm"])) (mkWorld scans []) = (r, w'))
    by (eexists _, _; vm_compute; reflexivity).
  destruct H as (r & w' & H). exists r, w'. split; [exact H|].
  exact (loop_prints_one_progress_line_per_file dictionary_excerpt dcmwrite_excerpt
           every_flag [in_scans "a.dcm"; in_scans "b.dcm"] (mkWorld scans []) r w' H).
Defined.

(** Property X10 for [scans]. *)
Lemma discovery_listing_witness :
  unique_names scans = true ∧
  make_dcm_fp_list (Path_of_string "scans") (mkWorld scans []) =
    (Ok [in_scans "DICOMDIR"; in_scans "a.dcm"; in_scans "b.dcm"], mkWorld scans []) ∧
  NoDup [in_scans "DICOMDIR"; in_scans "a.dcm"; in_scans "b.dcm"].
Proof.
  assert (H1 : unique_names (fs (mkWorld scans [])) = true) by (vm_compute; reflexivity).
  assert (H2 : make_dcm_fp_list (Path_of_string "scans") (mkWorld scans []) =
               (Ok [in_scans "DICOMDIR"; in_scans "a.dcm"; in_scans "b.dcm"],
                mkWorld scans [])) by (vm_compute; reflexivity).
  split; [exact H1|]. split; [exact H2|].
  exact (proj1 (proj2 (proj2 (discovery_lists_each_dicom_file_below_the_path_once
                                _ _ _ _ H1 H2)))).
Defined.

(** Property X17 for a path that does not exist. *)
Lemma exit_status_witness :
  main dictionary_excerpt dcmwrite_excerpt "1.0" ["dcmrmel"; "elsewhere"] (mkWorld scans []) =
    (Raise (SystemExit 1),
     mkWorld scans [Output stderr (Text (neither_message (Path_of_string "elsewhere")))]) ∧
  fs (mkWorld scans [Output stderr (Text (neither_message (Path_of_string "elsewhere")))])
    = fs (mkWorld scans []).
Proof.
  assert (H : main dictionary_excerpt dcmwrite_excerpt "1.0" ["dcmrmel"; "elsewhere"] (mkWorld scans []) =
    (Raise (SystemExit 1),
     mkWorld scans [Output stderr (Text (neither_message (Path_of_string "elsewhere")))]))
    by (vm_compute; reflexivity).
  split; [exact H|].
  exact (proj1 (main_exits_with_status_0_1_or_2_before_touching_a_file
                  dictionary_excerpt dcmwrite_excerpt "1.0" _ _ _ _ H)).
Defined.

(** Property X16 for [dcmrmel --rm-vr DA scans]. *)
Lemma positional_witness :
  ["DA"; "scans"] ≠ [] ∧ Forall (λ v, plain v = true) ["DA"; "scans"] ∧
  parse_args "1.0" ("dcmrmel" :: option_string OptVR :: ["DA"; "scans"]) (mkWorld scans []) =
    (Raise (SystemExit 2),
     mkWorld scans
       ([] ++ [Output stderr
                 (UsageError (name (Path_of_string "dcmrmel"))
                             "the following arguments are required: FILE or DIR")])).
Proof.
  assert (H1 : ["DA"; "scans"] ≠ []) by done.
  assert (H2 : Forall (λ v, plain v = true) ["DA"; "scans"])
    by (repeat constructor).
  split; [exact H1|]. split; [exact H2|].
  exact (a_path_after_a_list_option_is_taken_as_its_value "1.0" "dcmrmel" OptVR
           ["DA"; "scans"] (mkWorld scans []) H1 H2).
Defined.

(** Property X11 for [scans/a.dcm]. *)
Lemma backup_path_witness :
  name (in_scans "a.dcm") ≠ "" ∧
  bak (in_scans "a.dcm") = in_scans "a.dcm.bak" ∧
  suffix (bak (in_scans "a.dcm")) = ".bak".
Proof.
  assert (H : name (in_scans "a.dcm") ≠ "") by (vm_compute; discriminate).
  split; [exact H|]. split; [vm_compute; reflexivity|].
  exact (proj1 (proj2 (proj2 (proj2 (proj2
           (backup_path_is_the_name_with_bak_appended (in_scans "a.dcm") H)))))).
Defined.

(** Property X8 for the group 0018. *)
Lemma hexadecimal_witness :
  hex_digits "0018" = true ∧
  int16 "0018" = Ok 24%Z ∧ int16 ("0x" +:+ "0018") = Ok 24%Z.
Proof.
  assert (H : hex_digits "0018" = true) by (vm_compute; reflexivity).
  split; [exact H|].
  destruct (hexadecimal_digits_are_read_with_or_without_prefix "0018" H)
    as (_ & H1 & H2 & _).
  split; [exact H1|exact H2].
Defined.

(** Property X9 for the keyword PatientName. *)
Lemma keyword_witness :
  "P"%char ∈ list_ascii_of_string "PatientName" ∧
  (N_of_ascii "P" < 128)%N ∧ foreign "P" = true ∧
  int16 "PatientName" = Raise ValueError ∧
  Tag dictionary_excerpt "PatientName" = Ok 0x00100010%N.
Proof.
  assert (H1 : "P"%char ∈ list_ascii_of_string "PatientName") by left.
  assert (H2 : foreign "P" = true) by (vm_compute; reflexivity).
  assert (H0 : (N_of_ascii "P" < 128)%N) by (vm_compute; reflexivity).
  split; [exact H1|]. split; [exact H0|]. split; [exact H2|].
  destruct (a_word_with_a_foreign_character_is_no_number "PatientName" "P" H1 H0 H2)
    as (H3 & H4 & _).
  split; [exact H3|]. exact (H4 dictionary_excerpt).
Defined.


(** Property X18 for the command line with every flag. *)
Lemma command_line_witness :
  plain "scans" = true ∧
  command_line "scans" every_flag =
    ["scans"; "--rm-private"; "--rm-vr"; "DA"; "--rm-group"; "0x0018";
     "--rm-tag"; "PatientName"] ∧
  parse_args "1.0" ("dcmrmel" :: command_line "scans" every_flag) (mkWorld scans [])
    = (Ok every_flag, mkWorld scans []).
Proof.
  assert (H1 : plain "scans" = true) by (vm_compute; reflexivity).
  assert (H2 : plain_values (rm_vr every_flag)) by (split; [done|repeat constructor]).
  assert (H3 : plain_values (rm_group every_flag)) by (split; [done|repeat constructor]).
  assert (H4 : plain_values (rm_tag every_flag)) by (split; [done|repeat constructor]).
  split; [exact H1|]. split; [reflexivity|].
  exact (proj1 (main_runs_with_the_arguments_of_the_command_line dictionary_excerpt
                  dcmwrite_excerpt "1.0" "dcmrmel" "scans" every_flag (mkWorld scans [])
                  H1 eq_refl H2 H3 H4)).
Defined.

(** Property X15 for the two images of [scans]. *)
Lemma backups_survive_witness :
  no_backup every_flag = false ∧
  separate [in_scans "a.dcm"; in_scans "b.dcm"] ∧
  (∀ fp, fp ∈ [in_scans "a.dcm"; in_scans "b.dcm"] →
         name fp ≠ "" ∧ is_dir scans (bak fp) = false) ∧
  ∃ w',
    for_enumerate [in_scans "a.dcm"; in_scans "b.dcm"] 1
      (loop_body dictionary_excerpt dcmwrite_excerpt every_flag 2) (mkWorld scans []) = (Ok tt, w') ∧
    read_file (fs w') (bak (in_scans "a.dcm")) = Ok (DicomFile scan_a) ∧
    read_file (fs w') (bak (in_scans "b.dcm")) = Ok (DicomFile scan_b).
Proof.
  assert (H1 : no_backup every_flag = false) by reflexivity.
  assert (H2 : separate [in_scans "a.dcm"; in_scans "b.dcm"]).
  { split.
    - apply (bool_decide_unpack _). vm_compute. exact I.
    - intros fp fp' Hin Hin'.
      repeat (apply elem_of_cons in Hin as [->|Hin]);
        repeat (apply elem_of_cons in Hin' as [->|Hin']);
        try (by apply elem_of_nil in Hin); try (by apply elem_of_nil in Hin');
        vm_compute; discriminate. }
  assert (H3 : ∀ fp, fp ∈ [in_scans "a.dcm"; in_scans "b.dcm"] →
                     name fp ≠ "" ∧ is_dir (fs (mkWorld scans [])) (bak fp) = false).
  { intros fp Hin.
    repeat (apply elem_of_cons in Hin as [->|Hin]);
      try (by apply elem_of_nil in Hin);
      (split; [vm_compute; discriminate|vm_compute; reflexivity]). }
  assert (H4 : ∃ w',
    for_enumerate [in_scans "a.dcm"; in_scans "b.dcm"] 1
      (loop_body dictionary_excerpt dcmwrite_excerpt every_flag 2) (mkWorld scans []) = (Ok tt, w'))
    by (eexists; vm_compute; reflexivity).
  split; [exact H1|]. split; [exact H2|]. split; [exact H3|].
  destruct H4 as [w' H4]. exists w'. split; [exact H4|].
  pose proof (every_backup_survives_when_no_file_is_the_backup_of_another
                dictionary_excerpt dcmwrite_excerpt every_flag 2 _ 1 (mkWorld scans []) w'
                H1 H2 H3 H4) as H.
  split.
  - apply (H (in_scans "a.dcm") scan_a); [left|vm_compute; reflexivity..].
  - apply (H (in_scans "b.dcm") scan_b); [right; left|vm_compute; reflexivity..].
Defined.

